(** * FSI_SRS: the spaced-repetition scheduler of [www/js/fsi-srs.js]

    A shallow embedding of the scheduler object [FSI_SRS] and the proofs of
    its specification.

    Numbers.  JavaScript numbers are modelled by the exact quantity they
    stand for:
    - timestamps ([Date], ISO strings) are milliseconds since the epoch, [Z];
      [setMinutes] and [setDate] work on the local time of the machine, which
      is a parameter [tz] (see [Zone]); all clock reads made during one call
      return the same instant [now];
    - counters and array indices are [nat];
    - [commonality], [elapsed_days], [scheduled_days] are rationals, [Q];
    - [stability] and [difficulty] go through [Math.exp] and [Math.pow] and
      are real numbers, [R] (rounding of binary64 arithmetic is not modelled).

    Objects.  Card objects live in a heap (a list indexed by reference);
    [this.cards] maps a key to a reference and [this.sessionQueue] is a list
    of references, so that the in-place updates of [processReview] are seen
    through every alias.  [heap !!! l] reads the object behind the
    reference [l]; the references a store holds are never dangling (see
    [wf]).  The keys of [this.cards] are enumerated in the order of the
    list [cards].

    Keys.  [this.cards], [this.drillMeta] and the objects built by the
    analysis functions are plain objects used as maps.  The lookups of the
    model ([cards_get], [!!]) find stored keys only, while the code also
    finds the members that every object inherits ([inherited_names]);
    [has_member] is the truth value its guards see.  For a key that is
    stored, or that is no such name, the two agree; the statements that
    look up or store any other key exclude these names.

    Randomness.  [Math.random()] is a parameter [rand]: [rand k] is the
    value of the [k]-th call made during one operation. *)

From Stdlib Require Import ZArith QArith Qround Qreals Reals Lra Lia List Permutation Sorted.
From stdpp Require Import base decidable option list gmap strings pretty.

Open Scope Z_scope.

(** ** Enumerations *)

(** [Rating: { Again: 1, Hard: 2, Good: 3, Easy: 4 }] *)
Inductive Rating := Again | Hard | Good | Easy.

Definition rating_num (g : Rating) : Z :=
  match g with Again => 1 | Hard => 2 | Good => 3 | Easy => 4 end.

Definition rating_idx (g : Rating) : nat :=
  match g with Again => 0 | Hard => 1 | Good => 2 | Easy => 3 end%nat.

(** [State: { New: 0, Learning: 1, Review: 2, Relearning: 3 }] *)
Inductive State := New | Learning | Review | Relearning.

#[global] Instance Rating_eq_dec : EqDecision Rating.
Proof. solve_decision. Defined.

#[global] Instance State_eq_dec : EqDecision State.
Proof. solve_decision. Defined.

(** ** Scheduler parameters ([FSI_SRS.params]) *)

Record Params := {
  w : list R;
  requestRetention : R;
  maximumInterval : Z;
  learningSteps : list Z;
  relearningSteps : list Z;
  graduatingInterval : Z;
  easyInterval : Z;
  graduationConsecutive : nat;
  graduationMinInterval : Q;
  reactivationLapseThreshold : nat
}.

Definition default_w : list R :=
  [0.4; 0.6; 2.4; 5.8; 4.93; 0.94; 0.86; 0.01;
   1.49; 0.14; 0.94; 2.18; 0.05; 0.34; 1.26; 0.29; 2.61]%R.

Definition default_params : Params := {|
  w := default_w;
  requestRetention := 0.9%R;
  maximumInterval := 36500;
  learningSteps := [1; 10];
  relearningSteps := [1; 10];
  graduatingInterval := 1;
  easyInterval := 4;
  graduationConsecutive := 5;
  graduationMinInterval := 16%Q;
  reactivationLapseThreshold := 2
|}.

(** ** FSRS core functions *)

Module FSRS.
Section Engine.
Variable p : Params.

(** [w[i]]; the vector has 17 entries and every index used below is a
  constant below 17 or [grade - 1]. *)
Definition wi (i : nat) : R := nth i (w p) 0%R.

(** [Math.round x = floor (x + 1/2)] *)
Definition js_round (x : R) : Z := up (x + / 2) - 1.

(** [Math.max(1, Math.min(10, x))] *)
Definition clamp_1_10 (x : R) : R := Rmax 1 (Rmin 10 x).

(** [Math.pow(x, -1)] is the reciprocal of [x]. *)
Definition retrievability (elapsedDays stability : R) : R :=
  if Rle_dec stability 0 then 0%R
  else (/ (1 + elapsedDays / (9 * stability)))%R.

Definition nextInterval_at (stability retention : R) : Z :=
  if Rle_dec stability 0 then 1
  else js_round (9 * stability * (1 / retention - 1)).

(** the default argument [retention = this.params.requestRetention] *)
Definition nextInterval (stability : R) : Z :=
  nextInterval_at stability (requestRetention p).

Definition initStability (grade : Rating) : R := wi (rating_idx grade).

Definition initDifficulty (grade : Rating) : R :=
  clamp_1_10 (wi 4 - (IZR (rating_num grade) - 3) * wi 5).

Definition hardPenalty (grade : Rating) : R :=
  if decide (grade = Hard) then wi 15 else 1%R.

Definition easyBonus (grade : Rating) : R :=
  if decide (grade = Easy) then wi 16 else 1%R.

Definition sinc (d s r : R) (grade : Rating) : R :=
  (exp (wi 8) * (11 - d) * Rpower s (- wi 9)
  * (exp (wi 10 * (1 - r)) - 1) * hardPenalty grade * easyBonus grade)%R.

Definition nextReviewStability (d s r : R) (grade : Rating) : R :=
  (s * (sinc d s r grade + 1))%R.

Definition nextForgetStability (d s r : R) : R :=
  (wi 11 * Rpower d (- wi 12) * (Rpower (s + 1) (wi 13) - 1)
  * exp (wi 14 * (1 - r)))%R.

Definition nextDifficulty (d : R) (grade : Rating) : R :=
  let d0 := initDifficulty Good in
  let newD := (wi 7 * d0 + (1 - wi 7) * (d - wi 6 * (IZR (rating_num grade) - 3)))%R in
  clamp_1_10 newD.
End Engine.
End FSRS.

Import FSRS.

(** ** Cards, drill metadata and the scheduler object *)

Record ErrorRecord := { err_type : string; timestamp : Z }.

Record Card := {
  id : string;
  due : Z;
  stability : R;
  difficulty : R;
  elapsed_days : Q;
  scheduled_days : Q;
  reps : nat;
  lapses : nat;
  state : State;
  last_review : option Z;
  learning_step : nat;
  pos_pattern : string;
  commonality : Q;
  unit : Z;
  error_history : list ErrorRecord;
  graduated : bool;
  graduation_date : option Z;
  consecutive_correct : nat
}.

(** Field assignments [card.f = v]. *)
Definition set_due (v : Z) (c : Card) : Card :=
  {| id := id c; due := v; stability := stability c; difficulty := difficulty c;
     elapsed_days := elapsed_days c; scheduled_days := scheduled_days c;
     reps := reps c; lapses := lapses c; state := state c;
     last_review := last_review c; learning_step := learning_step c;
     pos_pattern := pos_pattern c; commonality := commonality c; unit := unit c;
     error_history := error_history c; graduated := graduated c;
     graduation_date := graduation_date c;
     consecutive_correct := consecutive_correct c |}.

Definition set_stability (v : R) (c : Card) : Card :=
  {| id := id c; due := due c; stability := v; difficulty := difficulty c;
     elapsed_days := elapsed_days c; scheduled_days := scheduled_days c;
     reps := reps c; lapses := lapses c; state := state c;
     last_review := last_review c; learning_step := learning_step c;
     pos_pattern := pos_pattern c; commonality := commonality c; unit := unit c;
     error_history := error_history c; graduated := graduated c;
     graduation_date := graduation_date c;
     consecutive_correct := consecutive_correct c |}.

Definition set_difficulty (v : R) (c : Card) : Card :=
  {| id := id c; due := due c; stability := stability c; difficulty := v;
     elapsed_days := elapsed_days c; scheduled_days := scheduled_days c;
     reps := reps c; lapses := lapses c; state := state c;
     last_review := last_review c; learning_step := learning_step c;
     pos_pattern := pos_pattern c; commonality := commonality c; unit := unit c;
     error_history := error_history c; graduated := graduated c;
     graduation_date := graduation_date c;
     consecutive_correct := consecutive_correct c |}.

Definition set_elapsed_days (v : Q) (c : Card) : Card :=
  {| id := id c; due := due c; stability := stability c; difficulty := difficulty c;
     elapsed_days := v; scheduled_days := scheduled_days c;
     reps := reps c; lapses := lapses c; state := state c;
     last_review := last_review c; learning_step := learning_step c;
     pos_pattern := pos_pattern c; commonality := commonality c; unit := unit c;
     error_history := error_history c; graduated := graduated c;
     graduation_date := graduation_date c;
     consecutive_correct := consecutive_correct c |}.

Definition set_scheduled_days (v : Q) (c : Card) : Card :=
  {| id := id c; due := due c; stability := stability c; difficulty := difficulty c;
     elapsed_days := elapsed_days c; scheduled_days := v;
     reps := reps c; lapses := lapses c; state := state c;
     last_review := last_review c; learning_step := learning_step c;
     pos_pattern := pos_pattern c; commonality := commonality c; unit := unit c;
     error_history := error_history c; graduated := graduated c;
     graduation_date := graduation_date c;
     consecutive_correct := consecutive_correct c |}.

Definition set_reps (v : nat) (c : Card) : Card :=
  {| id := id c; due := due c; stability := stability c; difficulty := difficulty c;
     elapsed_days := elapsed_days c; scheduled_days := scheduled_days c;
     reps := v; lapses := lapses c; state := state c;
     last_review := last_review c; learning_step := learning_step c;
     pos_pattern := pos_pattern c; commonality := commonality c; unit := unit c;
     error_history := error_history c; graduated := graduated c;
     graduation_date := graduation_date c;
     consecutive_correct := consecutive_correct c |}.

Definition set_lapses (v : nat) (c : Card) : Card :=
  {| id := id c; due := due c; stability := stability c; difficulty := difficulty c;
     elapsed_days := elapsed_days c; scheduled_days := scheduled_days c;
     reps := reps c; lapses := v; state := state c;
     last_review := last_review c; learning_step := learning_step c;
     pos_pattern := pos_pattern c; commonality := commonality c; unit := unit c;
     error_history := error_history c; graduated := graduated c;
     graduation_date := graduation_date c;
     consecutive_correct := consecutive_correct c |}.

Definition set_state (v : State) (c : Card) : Card :=
  {| id := id c; due := due c; stability := stability c; difficulty := difficulty c;
     elapsed_days := elapsed_days c; scheduled_days := scheduled_days c;
     reps := reps c; lapses := lapses c; state := v;
     last_review := last_review c; learning_step := learning_step c;
     pos_pattern := pos_pattern c; commonality := commonality c; unit := unit c;
     error_history := error_history c; graduated := graduated c;
     graduation_date := graduation_date c;
     consecutive_correct := consecutive_correct c |}.

Definition set_last_review (v : option Z) (c : Card) : Card :=
  {| id := id c; due := due c; stability := stability c; difficulty := difficulty c;
     elapsed_days := elapsed_days c; scheduled_days := scheduled_days c;
     reps := reps c; lapses := lapses c; state := state c;
     last_review := v; learning_step := learning_step c;
     pos_pattern := pos_pattern c; commonality := commonality c; unit := unit c;
     error_history := error_history c; graduated := graduated c;
     graduation_date := graduation_date c;
     consecutive_correct := consecutive_correct c |}.

Definition set_learning_step (v : nat) (c : Card) : Card :=
  {| id := id c; due := due c; stability := stability c; difficulty := difficulty c;
     elapsed_days := elapsed_days c; scheduled_days := scheduled_days c;
     reps := reps c; lapses := lapses c; state := state c;
     last_review := last_review c; learning_step := v;
     pos_pattern := pos_pattern c; commonality := commonality c; unit := unit c;
     error_history := error_history c; graduated := graduated c;
     graduation_date := graduation_date c;
     consecutive_correct := consecutive_correct c |}.

Definition set_error_history (v : list ErrorRecord) (c : Card) : Card :=
  {| id := id c; due := due c; stability := stability c; difficulty := difficulty c;
     elapsed_days := elapsed_days c; scheduled_days := scheduled_days c;
     reps := reps c; lapses := lapses c; state := state c;
     last_review := last_review c; learning_step := learning_step c;
     pos_pattern := pos_pattern c; commonality := commonality c; unit := unit c;
     error_history := v; graduated := graduated c;
     graduation_date := graduation_date c;
     consecutive_correct := consecutive_correct c |}.

Definition set_graduated (v : bool) (c : Card) : Card :=
  {| id := id c; due := due c; stability := stability c; difficulty := difficulty c;
     elapsed_days := elapsed_days c; scheduled_days := scheduled_days c;
     reps := reps c; lapses := lapses c; state := state c;
     last_review := last_review c; learning_step := learning_step c;
     pos_pattern := pos_pattern c; commonality := commonality c; unit := unit c;
     error_history := error_history c; graduated := v;
     graduation_date := graduation_date c;
     consecutive_correct := consecutive_correct c |}.

Definition set_graduation_date (v : option Z) (c : Card) : Card :=
  {| id := id c; due := due c; stability := stability c; difficulty := difficulty c;
     elapsed_days := elapsed_days c; scheduled_days := scheduled_days c;
     reps := reps c; lapses := lapses c; state := state c;
     last_review := last_review c; learning_step := learning_step c;
     pos_pattern := pos_pattern c; commonality := commonality c; unit := unit c;
     error_history := error_history c; graduated := graduated c;
     graduation_date := v;
     consecutive_correct := consecutive_correct c |}.

Definition set_consecutive_correct (v : nat) (c : Card) : Card :=
  {| id := id c; due := due c; stability := stability c; difficulty := difficulty c;
     elapsed_days := elapsed_days c; scheduled_days := scheduled_days c;
     reps := reps c; lapses := lapses c; state := state c;
     last_review := last_review c; learning_step := learning_step c;
     pos_pattern := pos_pattern c; commonality := commonality c; unit := unit c;
     error_history := error_history c; graduated := graduated c;
     graduation_date := graduation_date c;
     consecutive_correct := v |}.

(** [drillMeta[id] = { pattern_group, is_canonical }]; [pattern_group] is a
    string or [null]. *)
Record Meta := { pattern_group : option string; is_canonical : bool }.

Definition set_is_canonical (v : bool) (m : Meta) : Meta :=
  {| pattern_group := pattern_group m; is_canonical := v |}.

Record SessionStats := { reviewed : nat; correct : nat; incorrect : nat }.

(** A reference to a card object: its index in the heap. *)
Abbreviation Ref := nat (only parsing).

Record Scheduler := {
  params : Params;
  drillMeta : gmap string Meta;
  heap : list Card;
  cards : list (string * Ref);
  sessionQueue : list Ref;
  lastPattern : option string;
  sessionStats : SessionStats
}.

Definition set_heap (h : list Card) (st : Scheduler) : Scheduler :=
  {| params := params st; drillMeta := drillMeta st; heap := h;
     cards := cards st; sessionQueue := sessionQueue st;
     lastPattern := lastPattern st; sessionStats := sessionStats st |}.

Definition set_drillMeta (m : gmap string Meta) (st : Scheduler) : Scheduler :=
  {| params := params st; drillMeta := m; heap := heap st;
     cards := cards st; sessionQueue := sessionQueue st;
     lastPattern := lastPattern st; sessionStats := sessionStats st |}.

Definition set_cards (cs : list (string * Ref)) (st : Scheduler) : Scheduler :=
  {| params := params st; drillMeta := drillMeta st; heap := heap st;
     cards := cs; sessionQueue := sessionQueue st;
     lastPattern := lastPattern st; sessionStats := sessionStats st |}.

Definition set_sessionQueue (q : list Ref) (st : Scheduler) : Scheduler :=
  {| params := params st; drillMeta := drillMeta st; heap := heap st;
     cards := cards st; sessionQueue := q;
     lastPattern := lastPattern st; sessionStats := sessionStats st |}.

Definition set_lastPattern (lp : option string) (st : Scheduler) : Scheduler :=
  {| params := params st; drillMeta := drillMeta st; heap := heap st;
     cards := cards st; sessionQueue := sessionQueue st;
     lastPattern := lp; sessionStats := sessionStats st |}.

Definition set_sessionStats (s : SessionStats) (st : Scheduler) : Scheduler :=
  {| params := params st; drillMeta := drillMeta st; heap := heap st;
     cards := cards st; sessionQueue := sessionQueue st;
     lastPattern := lastPattern st; sessionStats := s |}.

(** The names of the members that every object inherits from
    [Object.prototype]. *)
Definition inherited_names : list string :=
  [ "constructor"; "__proto__"; "hasOwnProperty"; "isPrototypeOf";
    "propertyIsEnumerable"; "toLocaleString"; "toString"; "valueOf";
    "__defineGetter__"; "__defineSetter__"; "__lookupGetter__";
    "__lookupSetter__" ]%string.

Definition inherited_name (k : string) : Prop := k ∈ inherited_names.

#[global] Instance inherited_name_dec k : Decision (inherited_name k).
Proof. unfold inherited_name. apply _. Defined.

(** [this.cards[k]]: the reference stored under key [k], if any.  For a key
    that is not stored the code finds an inherited member when [k] is one
    of [inherited_names]; see [has_member]. *)
Fixpoint cards_get (k : string) (cs : list (string * Ref)) : option Ref :=
  match cs with
  | [] => None
  | (k', l) :: cs' => if decide (k' = k) then Some l else cards_get k cs'
  end.

(** The truth value of [this.cards[k]], which the guards [if (!card)] of
    [processReview], [if (this.cards[cardId])] of [resetCard] and
    [if (!this.cards[sentence.id])] of [initializeCards] test: a stored card
    is an object, and so is every inherited member. *)
Definition has_member (k : string) (cs : list (string * Ref)) : bool :=
  bool_decide (is_Some (cards_get k cs) \/ inherited_name k).

(** [this.cards[k] = l] for a key already present (its place in the
    enumeration order is kept) or a new one (appended, as the code does for
    every key that is not an array index). *)
Fixpoint cards_set (k : string) (l : Ref) (cs : list (string * Ref)) : list (string * Ref) :=
  match cs with
  | [] => [(k, l)]
  | (k', l') :: cs' =>
      if decide (k' = k) then (k, l) :: cs' else (k', l') :: cards_set k l cs'
  end.

(** Truthiness of a string-or-null value: [null] and the empty string are falsy. *)
Definition truthy (s : option string) : bool :=
  match s with
  | Some s' => bool_decide (s' <> ""%string)
  | None => false
  end.

Definition minute_ms : Z := 60000.
Definition day_ms : Z := 86400000.

(** ** Local time *)

(** The time zone of the machine, as [Date] sees it: [LocalTime] takes an
    instant to its local time value and [UTC] takes a local time value back
    to an instant.  Time values stay within the range of [Date]. *)
Record Zone := {
  LocalTime : Z -> Z;
  UTC : Z -> Z
}.

(** [d.setMinutes(d.getMinutes() + k)]: [k] minutes are added to the local
    time value of [d]. *)
Definition add_minutes (tz : Zone) (t k : Z) : Z :=
  UTC tz (LocalTime tz t + k * minute_ms).

(** [d.setDate(d.getDate() + k)]: [k] days are added to the local time value
    of [d]. *)
Definition add_days (tz : Zone) (t k : Z) : Z :=
  UTC tz (LocalTime tz t + k * day_ms).

(** A zone with a constant offset from UTC. *)
Definition fixed_zone (offset : Z) : Zone :=
  {| LocalTime := fun t => t + offset; UTC := fun t => t - offset |}.

Definition utc : Zone := fixed_zone 0.

(** A zone whose clocks are set back by [shift] at the instant [T], as at
    the end of daylight-saving time: the offset is [offset + shift] before
    [T] and [offset] from then on.  A local time value that occurs twice is
    read with the offset in force before the change. *)
Definition set_back_zone (T offset shift : Z) : Zone :=
  {| LocalTime := fun t => if t <? T then t + (offset + shift) else t + offset;
     UTC := fun t => if t - (offset + shift) <? T then t - (offset + shift) else t - offset |}.

(** Adding time on the local clock never yields an earlier instant. *)
Definition forward (tz : Zone) : Prop :=
  forall t d, 0 <= d -> t <= UTC tz (LocalTime tz t + d).

(** ** Card creation *)

(** The argument of [createCard]: an object whose fields may be missing. *)
Record SentenceData := {
  sd_pos_pattern : option string;
  sd_commonality : option Q;
  sd_unit : option Z
}.

(** [createCard(id, sentenceData)]; [x || d] replaces a missing, empty or
    zero [x] by [d]. *)
Definition createCard (now : Z) (cid : string) (sentenceData : SentenceData) : Card :=
  {| id := cid;
     due := now;
     stability := 0%R;
     difficulty := 0%R;
     elapsed_days := 0%Q;
     scheduled_days := 0%Q;
     reps := 0;
     lapses := 0;
     state := New;
     last_review := None;
     learning_step := 0;
     pos_pattern := default ""%string (sd_pos_pattern sentenceData);
     commonality :=
       match sd_commonality sentenceData with
       | Some q => if Qeq_bool q 0 then (1 # 2)%Q else q
       | None => (1 # 2)%Q
       end;
     unit :=
       match sd_unit sentenceData with
       | Some u => if (u =? 0)%Z then 1 else u
       | None => 1
       end;
     error_history := [];
     graduated := false;
     graduation_date := None;
     consecutive_correct := 0 |}.

#[global] Instance Card_inhabited : Inhabited Card :=
  populate (createCard 0 ""%string
              {| sd_pos_pattern := None; sd_commonality := None; sd_unit := None |}).


(** ** Arrays: sort and shuffle *)

Section Arrays.
Context {A : Type}.

(** [Array.prototype.sort(cmp)]: a stable sort; [cmp a b <= 0] keeps [a]
    before [b].  Written as an insertion sort, each element being put in
    front of the first later element it does not exceed. *)
Fixpoint sort_insert (cmp : A -> A -> Q) (x : A) (l : list A) : list A :=
  match l with
  | [] => [x]
  | y :: l' =>
      if Qle_bool (cmp x y) 0 then x :: y :: l' else y :: sort_insert cmp x l'
  end.

Definition js_sort (cmp : A -> A -> Q) (l : list A) : list A :=
  foldr (sort_insert cmp) [] l.

(** [[a[i], a[j]] = [a[j], a[i]]] *)
Definition swap (i j : nat) (a : list A) : list A :=
  match a !! i, a !! j with
  | Some x, Some y => <[j := x]> (<[i := y]> a)
  | _, _ => a
  end.

(** The loop of [_shuffle], from index [i] down to 1; [rand k] is the
    value returned by the [k]-th call to [Math.random()]. *)
Fixpoint shuffle_loop (rand : nat -> Q) (k i : nat) (a : list A) : list A :=
  match i with
  | O => a
  | S i' =>
      let j := Z.to_nat (Qfloor (rand k * inject_Z (Z.of_nat (i + 1)))) in
      shuffle_loop rand (S k) i' (swap i j a)
  end.

(** [_shuffle(arr)]: Fisher-Yates on a copy of [arr]. *)
Definition _shuffle (rand : nat -> Q) (arr : list A) : list A :=
  shuffle_loop rand 0 (length arr - 1) arr.
End Arrays.

(** ** Initialization *)

(** The scheduler object before anything is loaded. *)
Definition initial : Scheduler :=
  {| params := default_params; drillMeta := ∅; heap := []; cards := [];
     sessionQueue := []; lastPattern := None;
     sessionStats := {| reviewed := 0; correct := 0; incorrect := 0 |} |}.

(** An element of the argument of [initializeCards]. *)
Record Sentence := {
  s_id : string;
  s_commonality : Q;
  s_pos_pattern : option string;
  s_unit : option Z
}.

Definition sentence_data (s : Sentence) : SentenceData :=
  {| sd_pos_pattern := s_pos_pattern s;
     sd_commonality := Some (s_commonality s);
     sd_unit := s_unit s |}.

(** The body of the loop of [initializeCards]. *)
Definition add_card (now : Z) (st : Scheduler) (s : Sentence) : Scheduler :=
  if has_member (s_id s) (cards st) then st
  else
    set_heap (heap st ++ [createCard now (s_id s) (sentence_data s)])
      (set_cards (cards_set (s_id s) (length (heap st)) (cards st)) st).

(** [initializeCards(sentences)] *)
Definition initializeCards (now : Z) (sentences : list Sentence) (st : Scheduler)
  : Scheduler :=
  let sorted := js_sort (fun a b => (s_commonality b - s_commonality a)%Q) sentences in
  foldl (add_card now) st sorted.

(** An element of [drillsData.drills]. *)
Record Drill := {
  d_id : string;
  d_pattern_group : option string;
  d_is_canonical : option bool
}.

(** [loadDrillMeta(drillsData)]; [None] is a [drillsData] without [drills]. *)
Definition loadDrillMeta (drills : option (list Drill)) (st : Scheduler) : Scheduler :=
  match drills with
  | None => st
  | Some ds =>
      foldl
        (fun st drill =>
           set_drillMeta
             (<[d_id drill :=
                  {| pattern_group :=
                       if truthy (d_pattern_group drill) then d_pattern_group drill
                       else None;
                     is_canonical :=
                       negb (bool_decide (d_is_canonical drill = Some false)) |}]>
                (drillMeta st)) st)
        st ds
  end.

(** ** Review processing *)

(** Lines 261-270: the error record is appended and the history capped at
    its last 10 entries. *)
Definition record_error (now : Z) (errorInfo : option string) (card : Card) : Card :=
  match errorInfo with
  | Some ty =>
      let h := error_history card ++ [{| err_type := ty; timestamp := now |}] in
      set_error_history (if (10 <? length h)%nat then tail h else h) card
  | None => card
  end.

(** Lines 272-326: the state machine.  Returns the card together with
    [intervalMinutes] and [intervalDays]. *)
Definition apply_grade (p : Params) (elapsedDays : Q) (grade : Rating) (card : Card)
  : Card * Z * Z :=
  if decide (state card = New \/ state card = Learning \/ state card = Relearning) then
    let steps :=
      if decide (state card = Relearning) then relearningSteps p else learningSteps p in
    if decide (grade = Again) then
      let card := set_learning_step 0 card in
      let card :=
        set_state (if decide (state card = New) then Learning else Relearning) card in
      (card, nth 0 steps 0, 0)
    else if decide (grade = Easy) then
      let card := set_state Review card in
      let card := set_learning_step 0 card in
      let card := set_stability (initStability p grade) card in
      let card := set_difficulty (initDifficulty p grade) card in
      (card, 0, easyInterval p)
    else
      let card := set_learning_step (learning_step card + 1) card in
      if (length steps <=? learning_step card)%nat then
        let card := set_state Review card in
        let card := set_learning_step 0 card in
        let card := set_stability (initStability p grade) card in
        let card := set_difficulty (initDifficulty p grade) card in
        (card, 0, if decide (grade = Hard) then 1 else graduatingInterval p)
      else
        let card :=
          set_state (if decide (state card = New) then Learning else state card) card in
        (card, nth (learning_step card) steps 0, 0)
  else
    let r := retrievability (Q2R elapsedDays) (stability card) in
    if decide (grade = Again) then
      let card :=
        set_stability (nextForgetStability p (difficulty card) (stability card) r) card in
      let card := set_lapses (lapses card + 1) card in
      let card := set_state Relearning card in
      let card := set_learning_step 0 card in
      (card, nth 0 (relearningSteps p) 0, 0)
    else
      let card :=
        set_stability
          (nextReviewStability p (difficulty card) (stability card) r grade) card in
      let card := set_difficulty (nextDifficulty p (difficulty card) grade) card in
      (card, 0, Z.min (nextInterval p (stability card)) (maximumInterval p)).

(** Lines 328-341: the next due date and the bookkeeping fields. *)
Definition schedule_due (tz : Zone) (now : Z) (elapsedDays : Q)
    (intervalMinutes intervalDays : Z) (card : Card) : Card :=
  let dueDate :=
    if 0 <? intervalMinutes then add_minutes tz now intervalMinutes
    else add_days tz now intervalDays in
  let card :=
    if 0 <? intervalMinutes
    then set_scheduled_days (inject_Z intervalMinutes / inject_Z (60 * 24)) card
    else set_scheduled_days (inject_Z intervalDays) card in
  let card := set_elapsed_days elapsedDays card in
  let card := set_reps (reps card + 1) card in
  let card := set_last_review (Some now) card in
  set_due dueDate card.

(** Lines 348-356, the card's part: the streak of correct answers. *)
Definition update_streak (grade : Rating) (card : Card) : Card :=
  if rating_num Good <=? rating_num grade
  then set_consecutive_correct (consecutive_correct card + 1) card
  else set_consecutive_correct 0 card.

(** Lines 346-356, the session's part. *)
Definition update_stats (grade : Rating) (s : SessionStats) : SessionStats :=
  if rating_num Good <=? rating_num grade
  then {| reviewed := reviewed s + 1; correct := correct s + 1; incorrect := incorrect s |}
  else {| reviewed := reviewed s + 1; correct := correct s; incorrect := incorrect s + 1 |}.

(** Everything [processReview] writes to the reviewed card before the
    graduation check (lines 256-356). *)
Definition review_card (tz : Zone) (p : Params) (now : Z) (grade : Rating)
    (errorInfo : option string) (card : Card) : Card * Z * Z :=
  let lastReview := default now (last_review card) in
  let elapsedDays := (inject_Z (now - lastReview) / inject_Z day_ms)%Q in
  let card := record_error now errorInfo card in
  let '(card, intervalMinutes, intervalDays) := apply_grade p elapsedDays grade card in
  let card := schedule_due tz now elapsedDays intervalMinutes intervalDays card in
  let card := update_streak grade card in
  (card, intervalMinutes, intervalDays).

(** ** Drill graduation and reactivation *)

(** [_getSiblingCards(patternGroup)]: the card objects whose key has that
    pattern group in the metadata table, in enumeration order. *)
Definition in_group (st : Scheduler) (g : string) (k : string) : Prop :=
  pattern_group <$> drillMeta st !! k = Some (Some g).

#[global] Instance in_group_dec st g k : Decision (in_group st g k).
Proof. unfold in_group. apply _. Defined.

Definition _getSiblingCards (st : Scheduler) (patternGroup : option string) : list Ref :=
  match patternGroup with
  | Some g =>
      if truthy patternGroup
      then (filter (fun e : string * Ref => in_group st g e.1) (cards st)).*2
      else []
  | None => []
  end.

(** [_getGraduatedSiblings(patternGroup)] *)
Definition _getGraduatedSiblings (st : Scheduler) (patternGroup : option string) : list Ref :=
  filter (fun l : Ref => graduated (heap st !!! l) = true) (_getSiblingCards st patternGroup).

(** The assignments of the canonical swap to the card that leaves. *)
Definition graduate (now : Z) (c : Card) : Card :=
  set_graduation_date (Some now) (set_graduated true c).

(** The assignments of the canonical swap to the sibling that comes back. *)
Definition promote (now : Z) (c : Card) : Card :=
  set_due now (set_state Review (set_consecutive_correct 0 (set_graduated false c))).

(** [_checkGraduation(card, grade)], [card] being the object at [l].
    [_shuffle] keeps the length of its argument, so the match on its result
    is the test [graduatedSiblings.length > 0] followed by the read of
    element 0. *)
Definition _checkGraduation (now : Z) (rand : nat -> Q) (l : Ref) (grade : Rating)
    (st : Scheduler) : Scheduler :=
  if rating_num grade <? rating_num Good then st
  else
    let card := heap st !!! l in
    if graduated card then st
    else
      match drillMeta st !! id card with
      | None => st
      | Some meta =>
          let consecutive := consecutive_correct card in
          let interval := scheduled_days card in
          if (graduationConsecutive (params st) <=? consecutive)%nat
             && Qle_bool (graduationMinInterval (params st)) interval
          then
            let siblings := _getSiblingCards st (pattern_group meta) in
            let graduatedSiblings :=
              filter (fun s : Ref => graduated (heap st !!! s) = true
                                     /\ id (heap st !!! s) <> id card) siblings in
            let activeSiblings :=
              filter (fun s : Ref => graduated (heap st !!! s) = false
                                     /\ id (heap st !!! s) <> id card) siblings in
            if is_canonical meta then
              match _shuffle rand graduatedSiblings with
              | newCanonical :: _ =>
                  let st := set_heap (alter (graduate now) l (heap st)) st in
                  let st :=
                    set_drillMeta (alter (set_is_canonical false) (id card) (drillMeta st)) st in
                  let st := set_heap (alter (promote now) newCanonical (heap st)) st in
                  set_drillMeta
                    (alter (set_is_canonical true) (id (heap st !!! newCanonical))
                       (drillMeta st)) st
              | [] => st
              end
            else
              if (0 <? length activeSiblings)%nat
              then set_heap (alter (graduate now) l (heap st)) st
              else st
          else st
      end.

(** The assignments made to a reactivated sibling. *)
Definition reactivate (now : Z) (c : Card) : Card :=
  set_due now
    (set_learning_step 0
       (set_consecutive_correct 0 (set_state Relearning (set_graduated false c)))).

(** [_checkReactivation(cardId)] *)
Definition _checkReactivation (tz : Zone) (now : Z) (rand : nat -> Q) (cardId : string)
    (st : Scheduler) : Scheduler :=
  match drillMeta st !! cardId with
  | None => st
  | Some meta =>
      if negb (is_canonical meta) then st
      else if negb (truthy (pattern_group meta)) then st
      else
        match cards_get cardId (cards st) with
        | None => st
        | Some l =>
            let card := heap st !!! l in
            let thirtyDaysAgo := add_days tz now (-30) in
            let recentLapses :=
              length (filter (fun err => thirtyDaysAgo < timestamp err)
                        (error_history card)) in
            if (reactivationLapseThreshold (params st) <=? recentLapses)%nat then
              let graduated := _getGraduatedSiblings st (pattern_group meta) in
              let toReactivate := take 3 (_shuffle rand graduated) in
              set_heap
                (foldl (fun h sibling => alter (reactivate now) sibling h)
                   (heap st) toReactivate) st
            else st
        end
  end.

(** The object returned by [processReview]; [r_card] is the reviewed card
    object and [r_nextDue] is read from it when the call returns. *)
Record ReviewResult := {
  r_card : Ref;
  r_interval : Q;
  r_intervalDisplay : string;
  r_nextDue : Z
}.

(** [processReview(cardId, grade, errorInfo = null)]; [None] is [null].
    [saveCards] hands the store to the storage collaborator and changes
    nothing in memory.  The guard is modelled for a [cardId] that is stored
    or is none of [inherited_names]: for an inherited name that is not
    stored the code goes on with the inherited member in the place of a
    card, which the model does not follow. *)
Definition processReview (tz : Zone) (now : Z) (rand : nat -> Q) (cardId : string)
    (grade : Rating) (errorInfo : option string) (st : Scheduler)
  : option ReviewResult * Scheduler :=
  match cards_get cardId (cards st) with
  | None => (None, st)
  | Some l =>
      match heap st !! l with
      | None => (None, st)
      | Some card =>
          let '(card, intervalMinutes, intervalDays) :=
            review_card tz (params st) now grade errorInfo card in
          let st := set_heap (<[l := card]> (heap st)) st in
          let st := set_lastPattern (Some (pos_pattern card)) st in
          let st := set_sessionStats (update_stats grade (sessionStats st)) st in
          let st := _checkGraduation now rand l grade st in
          let st :=
            if decide (grade = Again) then _checkReactivation tz now rand cardId st else st in
          let interval :=
            if 0 <? intervalMinutes
            then (inject_Z intervalMinutes / inject_Z (60 * 24))%Q
            else inject_Z intervalDays in
          (Some {| r_card := l;
                   r_interval := interval;
                   r_intervalDisplay :=
                     if 0 <? intervalMinutes
                     then (pretty intervalMinutes +:+ "m")%string
                     else (pretty intervalDays +:+ "d")%string;
                   r_nextDue := due (heap st !!! l) |}, st)
      end
  end.

(** ** Queue management *)

(** [getDueCards()] *)
Definition is_due (now : Z) (card : Card) : Prop :=
  graduated card = false /\ (due card <= now \/ state card = New).

#[global] Instance is_due_dec now card : Decision (is_due now card).
Proof. unfold is_due. apply _. Defined.

Definition getDueCards (now : Z) (st : Scheduler) : list Ref :=
  filter (fun l : Ref => is_due now (heap st !!! l)) (cards st).*2.

(** The comparator handed to [due.sort]. *)
Definition queue_cmp (a b : Card) : Q :=
  if bool_decide (state a = New /\ state b <> New) then (-1)%Q
  else if bool_decide (state b = New /\ state a <> New) then 1%Q
  else if bool_decide (state a = New /\ state b = New)
       then (commonality b - commonality a)%Q
       else inject_Z (due a - due b).

(** [buildSessionQueue(maxCards = 20)]: returns the new queue, which is
    also stored in [this.sessionQueue]. *)
Definition buildSessionQueue (now : Z) (maxCards : option nat) (st : Scheduler)
  : list Ref * Scheduler :=
  let due := getDueCards now st in
  let due := js_sort (fun a b => queue_cmp (heap st !!! a) (heap st !!! b)) due in
  let q := take (default 20%nat maxCards) due in
  (q, set_sessionQueue q st).

(** [findIndex]: [None] stands for -1. *)
Definition findIndex {A} (P : A -> Prop) `{forall x, Decision (P x)} (l : list A) : option nat :=
  fst <$> list_find P l.

(** [getNextCard()] *)
Definition getNextCard (now : Z) (st : Scheduler) : option Ref * Scheduler :=
  let st :=
    if (length (sessionQueue st) =? 0)%nat then (buildSessionQueue now None st).2 else st in
  if (length (sessionQueue st) =? 0)%nat then (None, st)
  else
    let st :=
      if truthy (lastPattern st) then
        match findIndex (fun c : Ref => Some (pos_pattern (heap st !!! c)) <> lastPattern st)
                (sessionQueue st) with
        | Some idx =>
            if (0 <? idx)%nat then
              match sessionQueue st !! idx with
              | Some card => set_sessionQueue (card :: delete idx (sessionQueue st)) st
              | None => st
              end
            else st
        | None => st
        end
      else st in
    (head (sessionQueue st), set_sessionQueue (tail (sessionQueue st)) st).

(** ** Reset *)

(** [resetCard(cardId)]: the fresh card is a new object.  As for
    [processReview], the guard is modelled for a [cardId] that is stored or
    is none of [inherited_names]. *)
Definition resetCard (now : Z) (cardId : string) (st : Scheduler) : Scheduler :=
  match cards_get cardId (cards st) with
  | Some l =>
      match heap st !! l with
      | Some oldData =>
          let fresh :=
            createCard now cardId
              {| sd_pos_pattern := Some (pos_pattern oldData);
                 sd_commonality := Some (commonality oldData);
                 sd_unit := Some (unit oldData) |} in
          let st := set_cards (cards_set cardId (length (heap st)) (cards st)) st in
          set_heap (heap st ++ [fresh]) st
      | None => st
      end
  | None => st
  end.


(** ** Specification predicates *)

(** A difficulty that is either still unassigned (0) or clamped. *)
Definition difficulty_ok (c : Card) : Prop :=
  difficulty c = 0%R \/ (1 <= difficulty c <= 10)%R.

(** ** Example stores *)

Module Examples.
Definition t0 : Z := 1700000000000.

(** A card as [createCard] makes it, then moved to the given state. *)
Definition card_in (cid pat : string) (s : State) (d : Z) (g : bool)
    (streak : nat) (sched : Q) (errs : list ErrorRecord) : Card :=
  {| id := cid; due := d; stability := 20%R; difficulty := 5%R;
     elapsed_days := 0%Q; scheduled_days := sched; reps := 6; lapses := 0;
     state := s; last_review := Some (t0 - 20 * day_ms); learning_step := 0;
     pos_pattern := pat; commonality := (1 # 2)%Q; unit := 1;
     error_history := errs; graduated := g;
     graduation_date := if g then Some (t0 - day_ms) else None;
     consecutive_correct := streak |}.

Definition fresh (cid pat : string) (q : Q) : Card :=
  createCard (t0 - day_ms) cid
    {| sd_pos_pattern := Some pat; sd_commonality := Some q; sd_unit := None |}.

Definition meta_of (g : string) (canon : bool) : Meta :=
  {| pattern_group := Some g; is_canonical := canon |}.

Definition no_stats : SessionStats := {| reviewed := 0; correct := 0; incorrect := 0 |}.

Definition store (m : gmap string Meta) (h : list Card) (q : list Ref)
    (lp : option string) : Scheduler :=
  {| params := default_params; drillMeta := m; heap := h;
     cards := zip (id <$> h) (seq 0 (length h));
     sessionQueue := q; lastPattern := lp; sessionStats := no_stats |}.

Definition rand0 : nat -> Q := fun _ => 0%Q.
End Examples.

(** ** Specification predicates, continued *)

(** The scheduler as [processReview] leaves it just before the graduation
    check: the reviewed card written back, [lastPattern] and the session
    statistics updated. *)
Definition store_after_card (tz : Zone) (now : Z) (grade : Rating)
    (errorInfo : option string) (l : Ref) (card : Card) (st : Scheduler) : Scheduler :=
  let card' := (review_card tz (params st) now grade errorInfo card).1.1 in
  set_sessionStats (update_stats grade (sessionStats st))
    (set_lastPattern (Some (pos_pattern card'))
       (set_heap (<[l := card']> (heap st)) st)).

(** Parameters under which no interval of days is negative. *)
Definition params_ok (p : Params) : Prop :=
  0 <= graduatingInterval p
  /\ 0 <= easyInterval p
  /\ 0 <= maximumInterval p
  /\ (0 < requestRetention p <= 1)%R.

(** The step schedule [processReview] uses for a card in a learning state. *)
Definition active_steps (p : Params) (card : Card) : list Z :=
  if decide (state card = Relearning) then relearningSteps p else learningSteps p.

(** The reviews that assign a difficulty: those that take a card from a
    learning state to Review (Easy, or Good or Hard on the last step), and
    the successful reviews of a card in Review. *)
Definition assigns_difficulty (p : Params) (card : Card) (grade : Rating) : Prop :=
  if decide (state card = Review) then grade <> Again
  else grade = Easy
       \/ (grade <> Again
           /\ (length (active_steps p card) <= learning_step card + 1)%nat).

#[global] Instance assigns_difficulty_dec p card grade :
  Decision (assigns_difficulty p card grade).
Proof. unfold assigns_difficulty. destruct (decide (state card = Review)); apply _. Defined.

(** The card at reference [l] exists and satisfies [P]. *)
Definition holds_at (P : Card -> Prop) (h : list Card) (l : Ref) : Prop :=
  exists c, h !! l = Some c /\ P c.

Module ExampleStores.
Import Examples.

(** One pattern group: "a" canonical and due, with two recent errors; "b"
    graduated; "c" active; and a card "n" that was never reviewed. *)
Definition recent_errors : list ErrorRecord :=
  [ {| err_type := "grammar"; timestamp := t0 - 2 * day_ms |};
    {| err_type := "spelling"; timestamp := t0 - day_ms |} ].

Definition group_meta : gmap string Meta :=
  {[ "a"%string := meta_of "g" true;
     "b"%string := meta_of "g" false;
     "c"%string := meta_of "g" false ]}.

Definition group_heap : list Card :=
  [ card_in "a" "SVO" Review (t0 - day_ms) false 4 20 recent_errors;
    card_in "b" "SVO" Review (t0 - day_ms) true 5 20 [];
    card_in "c" "SOV" Review (t0 - 2 * day_ms) false 1 3 [];
    fresh "n" "" (4 # 5) ].

Definition group_store : Scheduler := store group_meta group_heap [] None.

End ExampleStores.

Module ClockExamples.
Import Examples.

(** Clocks set back by one hour at the instant the card "a" of
    [ExampleStores.group_store] is due: two hours ahead of UTC before, one
    hour from then on. *)
Definition autumn : Zone := set_back_zone (t0 - day_ms) 3600000 3600000.

(** Half an hour after the clocks were set back: the second pass through
    the repeated hour. *)
Definition second_pass : Z := t0 - day_ms + 30 * minute_ms.

(** The default parameters with other learning steps and another
    [easyInterval]. *)
Definition params_with (steps : list Z) (easy : Z) : Params :=
  {| w := w default_params;
     requestRetention := requestRetention default_params;
     maximumInterval := maximumInterval default_params;
     learningSteps := steps;
     relearningSteps := relearningSteps default_params;
     graduatingInterval := graduatingInterval default_params;
     easyInterval := easy;
     graduationConsecutive := graduationConsecutive default_params;
     graduationMinInterval := graduationMinInterval default_params;
     reactivationLapseThreshold := reactivationLapseThreshold default_params |}.

(** A negative step among the learning steps. *)
Definition negative_step : Scheduler :=
  {| params := params_with [1; -5] 4;
     drillMeta := drillMeta ExampleStores.group_store;
     heap := heap ExampleStores.group_store;
     cards := cards ExampleStores.group_store;
     sessionQueue := []; lastPattern := None; sessionStats := no_stats |}.

End ClockExamples.

(** The order the comparator [queue_cmp] stands for: [a] may come before [b]. *)
Definition queue_le (a b : Card) : Prop := (queue_cmp a b <= 0)%Q.

(** Position [i] of the list comes before position [j] and holds [a], [b]. *)
Definition precedes {A} (l : list A) (a b : A) : Prop :=
  exists i j : nat, (i < j)%nat /\ l !! i = Some a /\ l !! j = Some b.

Module QueueExamples.
Import Examples.

(** Three queued cards, the first two with the pattern drawn last. *)
Definition repeat_store : Scheduler :=
  store ExampleStores.group_meta ExampleStores.group_heap [0; 1; 2]%nat (Some "SVO"%string).

(** The card reviewed last carried no pattern tag: [lastPattern] is the
    empty string. *)
Definition untagged_store : Scheduler :=
  store ∅ [ fresh "x" "" (1 # 2); fresh "y" "SVO" (1 # 2) ] [0; 1]%nat (Some ""%string).
End QueueExamples.

(** ** Pattern groups *)

(** A well-formed store: every key of [this.cards] refers to its own card
    object, and that object carries the key as its [id].  [createCard]
    builds such stores. *)
Definition wf (st : Scheduler) : Prop :=
  NoDup (cards st).*1 /\ NoDup (cards st).*2
  /\ forall k l, (k, l) ∈ cards st -> holds_at (fun c => id c = k) (heap st) l.

(** The pattern group [g] has a member that is not graduated. *)
Definition has_active (st : Scheduler) (g : string) : Prop :=
  exists k l, (k, l) ∈ cards st /\ in_group st g k
              /\ holds_at (fun c => graduated c = false) (heap st) l.

(** The card stored under [k] is a canonical member of the group [g]. *)
Definition canonical_in (st : Scheduler) (g : string) (k : string) : Prop :=
  k ∈ (cards st).*1 /\ drillMeta st !! k = Some {| pattern_group := Some g; is_canonical := true |}.

(** Exactly one member of the group [g] is canonical. *)
Definition one_canonical (st : Scheduler) (g : string) : Prop :=
  exists k, canonical_in st g k /\ forall k', canonical_in st g k' -> k' = k.

(** One call of [processReview], with the time zone, the clock and the
    random draws it sees. *)
Record Call := {
  call_zone : Zone;
  call_now : Z;
  call_rand : nat -> Q;
  call_id : string;
  call_grade : Rating;
  call_error : option string
}.

Definition run_call (st : Scheduler) (c : Call) : Scheduler :=
  (processReview (call_zone c) (call_now c) (call_rand c) (call_id c) (call_grade c)
     (call_error c) st).2.

(** A sequence of reviews. *)
Definition run_calls (calls : list Call) (st : Scheduler) : Scheduler :=
  foldl run_call st calls.

Module SwapExamples.
Import Examples.

(** The metadata declares two canonical cards, "a" and "b", in one group;
    "c" has graduated; "a" now meets the graduation conditions. *)
Definition two_canonicals : Scheduler :=
  store {[ "a"%string := meta_of "g" true;
           "b"%string := meta_of "g" true;
           "c"%string := meta_of "g" false ]}
    [ card_in "a" "SVO" Review (t0 + 20 * day_ms) false 5 20 [];
      card_in "b" "SVO" Review (t0 + day_ms) false 1 3 [];
      card_in "c" "SOV" Review (t0 - day_ms) true 5 20 [] ]
    [] None.

(** Drills in which only "c" says whether it is canonical. *)
Definition two_canonicals_drills : list Drill :=
  [ {| d_id := "a"; d_pattern_group := Some "g"%string; d_is_canonical := None |};
    {| d_id := "b"; d_pattern_group := Some "g"%string; d_is_canonical := None |};
    {| d_id := "c"; d_pattern_group := Some "g"%string; d_is_canonical := Some false |} ].

(** Two reviews of the store [ExampleStores.group_store]. *)
Definition two_reviews : list Call :=
  [ {| call_zone := utc; call_now := t0; call_rand := rand0; call_id := "a";
       call_grade := Good; call_error := None |};
    {| call_zone := utc; call_now := t0 + minute_ms; call_rand := rand0; call_id := "c";
       call_grade := Again; call_error := Some "grammar"%string |} ].
End SwapExamples.

(** ** Reactivation *)

(** The error records [_checkReactivation] counts: those less than 30 days old. *)
Definition recent_error (tz : Zone) (now : Z) (err : ErrorRecord) : Prop :=
  add_days tz now (-30) < timestamp err.

#[global] Instance recent_error_dec tz now err : Decision (recent_error tz now err).
Proof. unfold recent_error. apply _. Defined.

(** The card object [s] belongs to a card of the pattern group [g] that has
    graduated. *)
Definition graduated_member (st : Scheduler) (g : string) (s : Ref) : Prop :=
  exists k, (k, s) ∈ cards st /\ in_group st g k
            /\ holds_at (fun c => graduated c = true) (heap st) s.

(** A graduated card [c] has been restored to active rotation as [c']. *)
Definition restored (now : Z) (c c' : Card) : Prop :=
  graduated c = true /\ graduated c' = false /\ state c' = Relearning
  /\ learning_step c' = 0%nat /\ consecutive_correct c' = 0%nat /\ due c' = now.

Module ReactivationExamples.
Import Examples.

(** After a reload the metadata calls "a" canonical again although the
    card is graduated; its last two errors are recent. *)
Definition graduated_canonical : Scheduler :=
  store {[ "a"%string := meta_of "g" true; "b"%string := meta_of "g" false ]}
    [ card_in "a" "SVO" Review (t0 - day_ms) true 5 20 ExampleStores.recent_errors;
      card_in "b" "SVO" Review (t0 - day_ms) true 5 20 [] ]
    [] None.
End ReactivationExamples.

Module SpecExamples.
Import Examples.

Definition sentence (k : string) (q : Q) : Sentence :=
  {| s_id := k; s_commonality := q; s_pos_pattern := None; s_unit := None |}.

(** A store as the application builds it: three drills, the first of
    them the canonical card of the group. *)
Definition loaded : Scheduler :=
  loadDrillMeta
    (Some [ {| d_id := "a"; d_pattern_group := Some "g"%string; d_is_canonical := None |};
            {| d_id := "b"; d_pattern_group := Some "g"%string;
               d_is_canonical := Some false |};
            {| d_id := "c"; d_pattern_group := None; d_is_canonical := None |} ])
    (initializeCards (t0 - day_ms)
       [ sentence "b" (3 # 10); sentence "a" (4 # 5); sentence "c" (1 # 2) ] initial).

Definition good1 : Scheduler := (processReview utc t0 rand0 "a" Good None loaded).2.
Definition good2 : Scheduler :=
  (processReview utc (t0 + 10 * minute_ms) rand0 "a" Good None good1).2.
Definition again1 : Scheduler := (processReview utc t0 rand0 "a" Again None loaded).2.
Definition easy1 : Scheduler := (processReview utc t0 rand0 "a" Easy None loaded).2.
Definition lapse : Scheduler :=
  (processReview utc (t0 + 5 * day_ms) rand0 "a" Again (Some "grammar"%string) easy1).2.
End SpecExamples.

(** ** Error-to-rating conversion *)

(** An element of the argument of [errorToRating]: [{type, subtype}]. *)
Record ErrorInfo := { e_type : string; e_subtype : option string }.

(** [errorToRating(errors)]; [None] is a missing ([null] or [undefined])
    argument. *)
Definition errorToRating (errors : option (list ErrorInfo)) : Rating :=
  match errors with
  | None => Good
  | Some [] => Good
  | Some ((primary :: _) as errs) =>
      let errorCount := length errs in
      if (3 <=? errorCount)%nat then Again
      else if decide (e_type primary = "spelling"%string) then
        (if decide (e_subtype primary = Some "accent"%string) then Hard else Hard)
      else if decide (e_type primary = "grammar"%string) then Again
      else if decide (e_type primary = "word_order"%string) then Again
      else if decide (e_type primary = "confusable"%string) then Hard
      else if (1 <? errorCount)%nat then Again else Hard
  end.

(** ** Statistics *)

(** The object returned by [getStats]. *)
Record Stats := {
  total : nat;
  new : nat;
  learning : nat;
  review : nat;
  relearning : nat;
  due_today : nat;
  mastered : nat;
  avg_stability : R;
  avg_difficulty : R;
  total_reviews : nat;
  total_lapses : nat;
  session : SessionStats
}.

(** The local variables of [getStats] next to [stats]. *)
Record StatsLoop := {
  stats : Stats;
  totalStability : R;
  totalDifficulty : R;
  reviewedCount : nat
}.

(** One turn of the loop of [getStats] over the cards. *)
Definition stats_step (now : Z) (a : StatsLoop) (card : Card) : StatsLoop :=
  let s := stats a in
  let counted := (0 <? reps card)%nat in
  {| stats :=
       {| total := total s;
          new := if decide (state card = New) then S (new s) else new s;
          learning := if decide (state card = Learning) then S (learning s) else learning s;
          review := if decide (state card = Review) then S (review s) else review s;
          relearning :=
            if decide (state card = Relearning) then S (relearning s) else relearning s;
          due_today := if due card <=? now then S (due_today s) else due_today s;
          mastered := if Rlt_dec 21 (stability card) then S (mastered s) else mastered s;
          avg_stability := avg_stability s;
          avg_difficulty := avg_difficulty s;
          total_reviews := total_reviews s + reps card;
          total_lapses := total_lapses s + lapses card;
          session := session s |};
     totalStability :=
       if counted then (totalStability a + stability card)%R else totalStability a;
     totalDifficulty :=
       if counted then (totalDifficulty a + difficulty card)%R else totalDifficulty a;
     reviewedCount := if counted then S (reviewedCount a) else reviewedCount a |}.

(** [Object.values(this.cards)] *)
Definition card_values (st : Scheduler) : list Card :=
  (fun l : Ref => heap st !!! l) <$> (cards st).*2.

(** [getStats()] *)
Definition getStats (now : Z) (st : Scheduler) : Stats :=
  let cs := card_values st in
  let start :=
    {| stats :=
         {| total := length cs; new := 0; learning := 0; review := 0; relearning := 0;
            due_today := 0; mastered := 0; avg_stability := 0%R; avg_difficulty := 0%R;
            total_reviews := 0; total_lapses := 0; session := sessionStats st |};
       totalStability := 0%R; totalDifficulty := 0%R; reviewedCount := 0 |} in
  let a := foldl (stats_step now) start cs in
  let s := stats a in
  if (0 <? reviewedCount a)%nat then
    {| total := total s; new := new s; learning := learning s; review := review s;
       relearning := relearning s; due_today := due_today s; mastered := mastered s;
       avg_stability := (totalStability a / INR (reviewedCount a))%R;
       avg_difficulty := (totalDifficulty a / INR (reviewedCount a))%R;
       total_reviews := total_reviews s; total_lapses := total_lapses s;
       session := session s |}
  else s.

(** ** Pattern analysis *)

(** Objects built as maps ([groups], [dist]) are finite maps; the
    statements about them exclude the keys in [inherited_names]. *)

(** [getPatternGroups()] *)
Definition getPatternGroups (st : Scheduler) : gmap string (list Ref) :=
  foldl
    (fun (groups : gmap string (list Ref)) (l : Ref) =>
       let card := heap st !!! l in
       let pattern :=
         if truthy (Some (pos_pattern card)) then pos_pattern card else "unknown"%string in
       <[pattern := default [] (groups !! pattern) ++ [l]]> groups)
    ∅ (cards st).*2.

(** [getProblematicCards(limit = 10)] *)
Definition getProblematicCards (limit : option nat) (st : Scheduler) : list Ref :=
  let errs (l : Ref) := length (error_history (heap st !!! l)) in
  take (default 10%nat limit)
    (js_sort (fun a b => inject_Z (Z.of_nat (errs b) - Z.of_nat (errs a)))
       (filter (fun l => (0 < errs l)%nat) (cards st).*2)).

(** [getErrorDistribution()] *)
Definition getErrorDistribution (st : Scheduler) : gmap string nat :=
  foldl
    (fun (dist : gmap string nat) (l : Ref) =>
       foldl
         (fun (dist : gmap string nat) (error : ErrorRecord) =>
            <[err_type error := (default 0 (dist !! err_type error) + 1)%nat]> dist)
         dist (error_history (heap st !!! l)))
    ∅ (cards st).*2.

(** ** Reset, continued *)

(** [resetAllCards()]: the keys are listed before the loop starts. *)
Definition resetAllCards (now : Z) (st : Scheduler) : Scheduler :=
  foldl (fun st cardId => resetCard now cardId st) st (cards st).*1.

(** [resetSessionStats()] *)
Definition resetSessionStats (st : Scheduler) : Scheduler :=
  set_sessionStats {| reviewed := 0; correct := 0; incorrect := 0 |} st.

(** ** Sessions *)

(** [n] successive calls of [getNextCard], with the cards they return
    ([None] when a call returns [null]). *)
Fixpoint draw (now : Z) (n : nat) (st : Scheduler) : list (option Ref) * Scheduler :=
  match n with
  | O => ([], st)
  | S n' =>
      let '(c, st1) := getNextCard now st in
      let '(cs, st2) := draw now n' st1 in
      (c :: cs, st2)
  end.


(** ** Predicates for the further properties *)

(** The card [resetCard] puts in the place of [old]. *)
Definition is_reset_of (now : Z) (cardId : string) (old c : Card) : Prop :=
  id c = cardId /\ state c = New /\ due c = now
  /\ reps c = 0%nat /\ lapses c = 0%nat /\ learning_step c = 0%nat
  /\ stability c = 0%R /\ difficulty c = 0%R
  /\ last_review c = None /\ error_history c = []
  /\ graduated c = false /\ graduation_date c = None /\ consecutive_correct c = 0%nat
  /\ pos_pattern c = pos_pattern old
  /\ commonality c = (if Qeq_bool (commonality old) 0 then 1 # 2 else commonality old)%Q
  /\ unit c = (if unit old =? 0 then 1 else unit old).

(** What [resetCard] leaves in a card it has just made. *)
Definition is_blank (now : Z) (c : Card) : Prop :=
  state c = New /\ due c = now /\ reps c = 0%nat /\ lapses c = 0%nat
  /\ stability c = 0%R /\ difficulty c = 0%R
  /\ error_history c = [] /\ graduated c = false.

#[global] Instance Rlt_decision (x y : R) : Decision (x < y)%R := Rlt_dec x y.

(** The sum of a list of real numbers. *)
Definition Rsum (l : list R) : R := foldr Rplus 0%R l.

(** The entry of a counting object for [n] occurrences: absent for none. *)
Definition count_entry (n : nat) : option nat :=
  if (n =? 0)%nat then None else Some n.

(** The key under which [getPatternGroups] files a card:
    [card.pos_pattern || 'unknown']. *)
Definition pattern_key (c : Card) : string :=
  if truthy (Some (pos_pattern c)) then pos_pattern c else "unknown"%string.

(** The entry of a grouping object for the members [l]: absent for none. *)
Definition group_entry {A} (l : list A) : option (list A) :=
  match l with [] => None | _ :: _ => Some l end.

(** The error history a review leaves in a card whose history was [old]:
    with an error of type [ty] supplied, [old] followed by its record,
    without the oldest record when [old] had reached 10 entries. *)
Definition history_after (now : Z) (errorInfo : option string) (old : list ErrorRecord)
  : list ErrorRecord :=
  match errorInfo with
  | None => old
  | Some ty =>
      (if decide (length old = 10%nat) then tail old else old)
        ++ [{| err_type := ty; timestamp := now |}]
  end.

(** Proves that a concrete key is none of [inherited_names]. *)
Ltac not_inherited :=
  unfold inherited_name, inherited_names; cbn;
  let H := fresh "H" in
  intros H; repeat (apply elem_of_cons in H as [H | H]; [discriminate H |]);
  inversion H.

Lemma clamp_1_10_bounds (x : R) : (1 <= clamp_1_10 x <= 10)%R.
Proof.
  unfold clamp_1_10. split.
  - apply Rmax_l.
  - apply Rmax_lub; [lra | apply Rmin_l].
Qed.

Lemma sinc_default_nonneg (d s r : R) (grade : Rating) :
  (1 <= d <= 10)%R -> (0 <= r <= 1)%R -> grade <> Again ->
  (0 <= sinc default_params d s r grade)%R.
Proof.
  intros Hd Hr Hg. unfold sinc.
  assert (He8 : (0 < exp (wi default_params 8))%R) by apply exp_pos.
  assert (Hpw : (0 < Rpower s (- wi default_params 9))%R)
    by (unfold Rpower; apply exp_pos).
  assert (He10 : (0 <= exp (wi default_params 10 * (1 - r)) - 1)%R).
  { assert (H0 : (0 <= wi default_params 10 * (1 - r))%R).
    { unfold wi; simpl. apply Rmult_le_pos; lra. }
    destruct H0 as [H0 | H0].
    - apply exp_increasing in H0. rewrite exp_0 in H0. lra.
    - rewrite <- H0, exp_0. lra. }
  assert (Hhp : (0 < hardPenalty default_params grade)%R).
  { unfold hardPenalty. case_decide; unfold wi; simpl; lra. }
  assert (Heb : (0 < easyBonus default_params grade)%R).
  { unfold easyBonus. case_decide; unfold wi; simpl; lra. }
  repeat apply Rmult_le_pos; lra.
Qed.

(** C10.  With the default parameter vector, for a difficulty in [1, 10], a
    positive stability, a retrievability in [0, 1] and a grade among Hard,
    Good and Easy, [nextReviewStability] returns at least the stability it
    was given: a successful review never decreases stability. *)
Theorem nextReviewStability_nondecreasing (d s r : R) (grade : Rating) :
  (1 <= d <= 10)%R -> (0 < s)%R -> (0 <= r <= 1)%R ->
  grade = Hard \/ grade = Good \/ grade = Easy ->
  (s <= nextReviewStability default_params d s r grade)%R.
Proof.
  intros Hd Hs Hr Hg.
  assert (Hne : grade <> Again) by (destruct Hg as [-> | [-> | ->]]; discriminate).
  pose proof (sinc_default_nonneg d s r grade Hd Hr Hne) as Hsinc.
  unfold nextReviewStability. nra.
Qed.

(** ** Unknown card ids *)

(** An id that is not stored and names no inherited member is unknown to
    [processReview] and [resetCard]: the first returns [null], the second
    does nothing, and the scheduler (every card, the session queue, the
    session statistics and [lastPattern]) is returned unchanged. *)
Lemma unknown_id_is_noop {tz : Zone} (now : Z) (rand : nat -> Q) (cardId : string)
    (grade : Rating) (errorInfo : option string) (st : Scheduler) :
  cards_get cardId (cards st) = None -> ~ inherited_name cardId ->
  has_member cardId (cards st) = false
  /\ processReview tz now rand cardId grade errorInfo st = (None, st)
  /\ resetCard now cardId st = st.
Proof.
  intros Hnone Hn. split.
  - apply bool_decide_eq_false. intros [[l Hl] | Hi]; [congruence | contradiction].
  - unfold processReview, resetCard. rewrite Hnone. split; reflexivity.
Qed.

(** C9 does not hold of the code: the guards of [processReview] and
    [resetCard] test [this.cards[cardId]], which is an object also when
    [cardId] names a member that every object inherits.  The id
    "constructor" has no card in the empty scheduler, and yet the guards do
    not take it for unknown: [processReview] does not return [null] there
    and [resetCard] goes on to store a card. *)
Theorem inherited_name_passes_guard :
  cards_get "constructor" (cards initial) = None
  /\ has_member "constructor" (cards initial) = true
  /\ forall k cs, inherited_name k -> has_member k cs = true.
Proof.
  split; [reflexivity |]. split; [reflexivity |].
  intros k cs Hk. apply bool_decide_eq_true. right. exact Hk.
Qed.

(** ** Difficulty bounds *)

Lemma createCard_difficulty now cid sd : difficulty (createCard now cid sd) = 0%R.
Proof. reflexivity. Qed.

Lemma record_error_difficulty now e c :
  difficulty (record_error now e c) = difficulty c.
Proof. destruct e; reflexivity. Qed.

Lemma apply_grade_difficulty p el g c :
  difficulty (apply_grade p el g c).1.1 = difficulty c
  \/ (1 <= difficulty (apply_grade p el g c).1.1 <= 10)%R.
Proof.
  unfold apply_grade.
  repeat case_decide; repeat case_match; simpl;
    solve [ left; reflexivity
          | right; apply clamp_1_10_bounds ].
Qed.

Lemma schedule_due_difficulty {tz : Zone} now el m d c :
  difficulty (schedule_due tz now el m d c) = difficulty c.
Proof. unfold schedule_due. destruct (0 <? m); reflexivity. Qed.

Lemma update_streak_difficulty g c : difficulty (update_streak g c) = difficulty c.
Proof. unfold update_streak. case_match; reflexivity. Qed.

Lemma review_card_difficulty {tz : Zone} p now g e c :
  difficulty (review_card tz p now g e c).1.1 = difficulty c
  \/ (1 <= difficulty (review_card tz p now g e c).1.1 <= 10)%R.
Proof.
  unfold review_card.
  set (el := (inject_Z (now - default now (last_review c)) / inject_Z day_ms)%Q).
  pose proof (apply_grade_difficulty p el g (record_error now e c)) as H.
  destruct (apply_grade p el g (record_error now e c)) as [[c' m] d]. simpl in *.
  rewrite update_streak_difficulty, schedule_due_difficulty.
  rewrite record_error_difficulty in H. exact H.
Qed.

(** Properties of the heap that the graduation and reactivation checks keep. *)
Section HeapForall.
Variable P : Card -> Prop.
Variable now : Z.
Hypothesis P_graduate : forall c, P c -> P (graduate now c).
Hypothesis P_promote : forall c, P c -> P (promote now c).
Hypothesis P_reactivate : forall c, P c -> P (reactivate now c).

Lemma checkGraduation_Forall rand l g st :
  Forall P (heap st) -> Forall P (heap (_checkGraduation now rand l g st)).
Proof.
  intros H. unfold _checkGraduation.
  repeat case_match; simpl; try exact H;
    repeat (apply Forall_alter; [ | intros; auto ]); exact H.
Qed.

Lemma reactivate_all_Forall (ls : list Ref) (h : list Card) :
  Forall P h -> Forall P (foldl (fun h s => alter (reactivate now) s h) h ls).
Proof.
  revert h. induction ls as [| s ls IH]; intros h H; simpl; [exact H |].
  apply IH. apply Forall_alter; [exact H | intros; auto].
Qed.

Lemma checkReactivation_Forall {tz : Zone} rand k st :
  Forall P (heap st) -> Forall P (heap (_checkReactivation tz now rand k st)).
Proof.
  intros H. unfold _checkReactivation.
  repeat case_match; simpl; try exact H.
  apply reactivate_all_Forall, H.
Qed.
End HeapForall.

(** ** Shuffling permutes *)

Section Shuffle.
Context {A : Type}.
Implicit Types a : list A.

Lemma insert_head_Permutation a j (x y : A) :
  a !! j = Some y -> y :: <[j := x]> a ≡ₚ x :: a.
Proof.
  revert j. induction a as [| z a IH]; intros [| j] Hj; simpl in *; try discriminate.
  - injection Hj as ->. apply perm_swap.
  - rewrite perm_swap. rewrite (IH j Hj). apply perm_swap.
Qed.

Lemma swap_Permutation i j a : swap i j a ≡ₚ a.
Proof.
  unfold swap.
  destruct (a !! i) as [x |] eqn:Hi; [| reflexivity].
  destruct (a !! j) as [y |] eqn:Hj; [| reflexivity].
  revert i j Hi Hj. induction a as [| z a IH]; intros [| i] [| j] Hi Hj;
    simpl in *; try discriminate.
  - injection Hi as ->. injection Hj as ->. reflexivity.
  - injection Hi as ->. apply insert_head_Permutation, Hj.
  - injection Hj as ->. apply insert_head_Permutation, Hi.
  - apply Permutation_cons; [reflexivity |]. apply IH; assumption.
Qed.

Lemma shuffle_loop_Permutation rand k i a : shuffle_loop rand k i a ≡ₚ a.
Proof.
  revert k a. induction i as [| i IH]; intros k a; simpl; [reflexivity |].
  rewrite IH. apply swap_Permutation.
Qed.

Lemma shuffle_Permutation rand a : _shuffle rand a ≡ₚ a.
Proof. apply shuffle_loop_Permutation. Qed.

Lemma shuffle_head_elem_of rand a x r : _shuffle rand a = x :: r -> x ∈ a.
Proof.
  intros H. rewrite <- (shuffle_Permutation rand a), H. apply list_elem_of_here.
Qed.

Lemma shuffle_take_elem_of rand a n x : x ∈ take n (_shuffle rand a) -> x ∈ a.
Proof.
  intros H. rewrite <- (shuffle_Permutation rand a).
  eapply subseteq_take, H.
Qed.
End Shuffle.

(** ** What a review does to one heap cell *)

Lemma processReview_store {tz : Zone} now rand cardId grade errorInfo st l card :
  cards_get cardId (cards st) = Some l -> heap st !! l = Some card ->
  (processReview tz now rand cardId grade errorInfo st).2 =
    (if decide (grade = Again)
     then _checkReactivation tz now rand cardId
            (_checkGraduation now rand l grade
               (store_after_card tz now grade errorInfo l card st))
     else _checkGraduation now rand l grade
            (store_after_card tz now grade errorInfo l card st)).
Proof.
  intros Hk Hl. unfold processReview, store_after_card. rewrite Hk, Hl.
  destruct (review_card tz (params st) now grade errorInfo card) as [[c' m] d].
  simpl. case_decide; reflexivity.
Qed.

Lemma store_after_card_lookup {tz : Zone} now grade errorInfo l card st :
  heap st !! l = Some card ->
  heap (store_after_card tz now grade errorInfo l card st) !! l
  = Some (review_card tz (params st) now grade errorInfo card).1.1.
Proof.
  intros Hl. unfold store_after_card. simpl.
  apply list_lookup_insert_eq. eapply lookup_lt_Some, Hl.
Qed.

Lemma store_after_card_lookup_ne {tz : Zone} now grade errorInfo l card st l' :
  l <> l' ->
  heap (store_after_card tz now grade errorInfo l card st) !! l' = heap st !! l'.
Proof. intros Hne. unfold store_after_card. simpl. apply list_lookup_insert_ne, Hne. Qed.

(** A property of the card at one reference that the assignments of the
    graduation and reactivation checks keep. *)
Section HeapAt.
Variable P : Card -> Prop.
Variable now : Z.
Hypothesis P_graduate : forall c, P c -> P (graduate now c).
Hypothesis P_promote : forall c, P c -> P (promote now c).
Hypothesis P_reactivate : forall c, P c -> P (reactivate now c).

Local Abbreviation holds_at := (holds_at P).

Lemma holds_at_alter f i h l :
  (forall c, P c -> P (f c)) -> holds_at h l -> holds_at (alter f i h) l.
Proof.
  intros Hf (c & Hc & HP). unfold holds_at.
  destruct (decide (i = l)) as [-> | Hne].
  - exists (f c). rewrite list_lookup_alter_eq, Hc. split; [reflexivity | auto].
  - exists c. rewrite list_lookup_alter_ne by exact Hne. auto.
Qed.

Lemma checkGraduation_holds_at rand l0 g st l :
  holds_at (heap st) l -> holds_at (heap (_checkGraduation now rand l0 g st)) l.
Proof.
  intros H. unfold _checkGraduation.
  repeat case_match; simpl; try exact H;
    repeat (apply holds_at_alter; [auto |]); exact H.
Qed.

Lemma reactivate_all_holds_at (ls : list Ref) h l :
  holds_at h l -> holds_at (foldl (fun h s => alter (reactivate now) s h) h ls) l.
Proof.
  revert h. induction ls as [| s ls IH]; intros h H; simpl; [exact H |].
  apply IH, holds_at_alter; auto.
Qed.

Lemma checkReactivation_holds_at {tz : Zone} rand k st l :
  holds_at (heap st) l -> holds_at (heap (_checkReactivation tz now rand k st)) l.
Proof.
  intros H. unfold _checkReactivation.
  repeat case_match; simpl; try exact H.
  apply reactivate_all_holds_at, H.
Qed.

Lemma processReview_holds_at {tz : Zone} rand cardId grade errorInfo st l card :
  cards_get cardId (cards st) = Some l -> heap st !! l = Some card ->
  P (review_card tz (params st) now grade errorInfo card).1.1 ->
  holds_at (heap (processReview tz now rand cardId grade errorInfo st).2) l.
Proof.
  intros Hk Hl HP.
  rewrite (processReview_store _ _ _ _ _ _ _ _ Hk Hl).
  assert (H0 : holds_at (heap (store_after_card tz now grade errorInfo l card st)) l).
  { eexists. split; [apply store_after_card_lookup, Hl | exact HP]. }
  case_decide.
  - apply checkReactivation_holds_at, checkGraduation_holds_at, H0.
  - apply checkGraduation_holds_at, H0.
Qed.
End HeapAt.

(** ** The graduation check, case by case *)

(** The candidates of the canonical swap, as [_checkGraduation] computes them. *)
Lemma checkGraduation_cases now rand l g st :
  let card := heap st !!! l in
  _checkGraduation now rand l g st = st
  \/ (exists meta nc rest,
        rating_num Good <= rating_num g /\ graduated card = false
        /\ drillMeta st !! id card = Some meta /\ is_canonical meta = true
        /\ _shuffle rand
             (filter (fun s : Ref => graduated (heap st !!! s) = true
                                     /\ id (heap st !!! s) <> id card)
                (_getSiblingCards st (pattern_group meta))) = nc :: rest
        /\ _checkGraduation now rand l g st =
             set_drillMeta
               (alter (set_is_canonical true)
                  (id (alter (promote now) nc (alter (graduate now) l (heap st)) !!! nc))
                  (alter (set_is_canonical false) (id card) (drillMeta st)))
               (set_heap (alter (promote now) nc (alter (graduate now) l (heap st))) st))
  \/ (exists meta s,
        rating_num Good <= rating_num g /\ graduated card = false
        /\ drillMeta st !! id card = Some meta /\ is_canonical meta = false
        /\ s ∈ filter (fun s : Ref => graduated (heap st !!! s) = false
                                      /\ id (heap st !!! s) <> id card)
                 (_getSiblingCards st (pattern_group meta))
        /\ _checkGraduation now rand l g st = set_heap (alter (graduate now) l (heap st)) st).
Proof.
  intros card. unfold _checkGraduation. fold card.
  destruct (rating_num g <? rating_num Good) eqn:Hg; [left; reflexivity |].
  apply Z.ltb_ge in Hg.
  destruct (graduated card) eqn:Hgrad; [left; reflexivity |].
  destruct (drillMeta st !! id card) as [meta |] eqn:Hmeta; [| left; reflexivity].
  destruct (_ && _); [| left; reflexivity].
  destruct (is_canonical meta) eqn:Hcanon.
  - destruct (_shuffle rand _) as [| nc rest] eqn:Hsh; [left; reflexivity |].
    right; left. exists meta, nc, rest. repeat split; try assumption; reflexivity.
  - destruct (0 <? length _)%nat eqn:Hlen; [| left; reflexivity].
    right; right.
    match type of Hlen with context [length ?x] => destruct x as [| s rest] eqn:Hf end;
      [discriminate |].
    exists meta, s. repeat split; try assumption. rewrite Hf. apply list_elem_of_here.
Qed.

Lemma elem_of_getSiblingCards st pg l :
  l ∈ _getSiblingCards st pg <->
  exists g k, pg = Some g /\ g <> ""%string /\ (k, l) ∈ cards st /\ in_group st g k.
Proof.
  unfold _getSiblingCards. destruct pg as [g |]; simpl.
  - destruct (bool_decide (g <> ""%string)) eqn:Hg.
    + apply bool_decide_eq_true in Hg. rewrite list_elem_of_fmap. split.
      * intros ([k l'] & -> & Hin). apply list_elem_of_filter in Hin as [Hgrp Hin].
        exists g, k. auto.
      * intros (g' & k & [= <-] & _ & Hin & Hgrp). exists (k, l). split; [reflexivity |].
        apply list_elem_of_filter. auto.
    + apply bool_decide_eq_false in Hg. split; [intros H; inversion H |].
      intros (g' & k & [= <-] & Hne & _). contradiction.
  - split; [intros H; inversion H |]. intros (g & k & Hpg & _). discriminate.
Qed.

(** The sibling promoted by a swap is never the card that triggered it. *)
Lemma swap_candidate_not_self rand st l (pg : option string) nc rest :
  _shuffle rand
    (filter (fun s : Ref => graduated (heap st !!! s) = true
                            /\ id (heap st !!! s) <> id (heap st !!! l))
       (_getSiblingCards st pg)) = nc :: rest ->
  nc <> l /\ graduated (heap st !!! nc) = true /\ nc ∈ _getSiblingCards st pg
  /\ id (heap st !!! nc) <> id (heap st !!! l).
Proof.
  intros Hsh. apply shuffle_head_elem_of in Hsh.
  apply list_elem_of_filter in Hsh as [[Hg Hid] Hin].
  repeat split; try assumption. intros ->. apply Hid. reflexivity.
Qed.

(** The graduation check leaves the triggering card as it is or graduates it. *)
Lemma checkGraduation_self now rand l g st c :
  heap st !! l = Some c ->
  heap (_checkGraduation now rand l g st) !! l = Some c
  \/ heap (_checkGraduation now rand l g st) !! l = Some (graduate now c).
Proof.
  intros Hl.
  destruct (checkGraduation_cases now rand l g st)
    as [-> | [(meta & nc & rest & _ & _ & _ & _ & Hsh & ->) | (meta & s & _ & _ & _ & _ & _ & ->)]].
  - left. exact Hl.
  - right. simpl. apply swap_candidate_not_self in Hsh as (Hne & _).
    rewrite list_lookup_alter_ne by exact Hne.
    rewrite list_lookup_alter_eq, Hl. reflexivity.
  - right. simpl. rewrite list_lookup_alter_eq, Hl. reflexivity.
Qed.

(** ** Due dates *)

Lemma js_round_nonneg (x : R) : (0 <= x)%R -> 0 <= js_round x.
Proof.
  intros Hx. unfold js_round.
  destruct (archimed (x + / 2)) as [Hup _].
  assert (H0 : (IZR 0 < IZR (up (x + / 2)))%R) by lra.
  apply lt_IZR in H0. lia.
Qed.

Lemma nextInterval_nonneg p (s : R) :
  (0 < requestRetention p <= 1)%R -> 0 <= nextInterval p s.
Proof.
  intros [Hr0 Hr1]. unfold nextInterval, nextInterval_at.
  destruct (Rle_dec s 0) as [Hs | Hs]; [lia |].
  apply js_round_nonneg.
  assert (H1 : (1 <= 1 / requestRetention p)%R).
  { pose proof (Rinv_le_contravar _ _ Hr0 Hr1) as Hinv.
    rewrite Rinv_1 in Hinv. lra. }
  apply Rmult_le_pos; [| lra]. lra.
Qed.

Lemma nth_nonneg (k : nat) (steps : list Z) :
  Forall (fun m => 0 <= m) steps -> 0 <= nth k steps 0.
Proof.
  intros H. revert k. induction H as [| m steps Hm _ IH]; intros [| k]; simpl; auto; lia.
Qed.

Lemma apply_grade_days_nonneg p el g c :
  params_ok p -> 0 <= (apply_grade p el g c).2.
Proof.
  intros (Hgi & Hei & Hmax & Hret).
  pose proof (nextInterval_nonneg p) as Hni.
  unfold apply_grade.
  repeat case_decide; repeat case_match; simpl; try lia.
  apply Z.min_glb; [apply Hni, Hret | lia].
Qed.

Lemma add_minutes_fixed offset t k : add_minutes (fixed_zone offset) t k = t + k * minute_ms.
Proof. unfold add_minutes, fixed_zone. simpl. lia. Qed.

Lemma add_days_fixed offset t k : add_days (fixed_zone offset) t k = t + k * day_ms.
Proof. unfold add_days, fixed_zone. simpl. lia. Qed.

Lemma forward_fixed offset : forward (fixed_zone offset).
Proof. intros t d Hd. simpl. lia. Qed.

Lemma schedule_due_due {tz : Zone} now el m d c :
  due (schedule_due tz now el m d c)
  = if 0 <? m then add_minutes tz now m else add_days tz now d.
Proof. unfold schedule_due. destruct (0 <? m); reflexivity. Qed.

Lemma update_streak_due g c : due (update_streak g c) = due c.
Proof. unfold update_streak. case_match; reflexivity. Qed.

Lemma review_card_due {tz : Zone} p now g e c :
  let r := review_card tz p now g e c in
  due r.1.1 = if 0 <? r.1.2 then add_minutes tz now r.1.2 else add_days tz now r.2.
Proof.
  unfold review_card.
  destruct (apply_grade p _ g (record_error now e c)) as [[c' m] d]. simpl.
  rewrite update_streak_due, schedule_due_due. reflexivity.
Qed.

Lemma review_card_intervals {tz : Zone} p now g e c :
  let el := (inject_Z (now - default now (last_review c)) / inject_Z day_ms)%Q in
  (review_card tz p now g e c).1.2 = (apply_grade p el g (record_error now e c)).1.2
  /\ (review_card tz p now g e c).2 = (apply_grade p el g (record_error now e c)).2.
Proof.
  unfold review_card.
  destruct (apply_grade p _ g (record_error now e c)) as [[c' m] d]. simpl. auto.
Qed.

Lemma review_card_due_not_before_now {tz : Zone} p now g e c :
  forward tz -> params_ok p -> now <= due (review_card tz p now g e c).1.1.
Proof.
  intros Htz Hp. rewrite review_card_due.
  destruct (review_card_intervals (tz := tz) p now g e c) as [-> ->].
  pose proof (apply_grade_days_nonneg p
                (inject_Z (now - default now (last_review c)) / inject_Z day_ms)%Q
                g (record_error now e c) Hp) as Hd.
  revert Hd.
  generalize (apply_grade p
                (inject_Z (now - default now (last_review c)) / inject_Z day_ms)%Q
                g (record_error now e c)).
  intros [[c' m] d]; simpl. intros Hd.
  destruct (Z.ltb_spec 0 m); apply Htz; unfold minute_ms, day_ms; lia.
Qed.


Lemma default_params_ok : params_ok default_params.
Proof.
  unfold params_ok; simpl. repeat split; try lia; lra.
Qed.



(** ** Learning steps *)

Lemma record_error_state now e c : state (record_error now e c) = state c.
Proof. destruct e; reflexivity. Qed.

Lemma record_error_learning_step now e c :
  learning_step (record_error now e c) = learning_step c.
Proof. destruct e; reflexivity. Qed.

Lemma apply_grade_step p el g c :
  state c = New \/ state c = Learning \/ state c = Relearning ->
  g = Good \/ g = Hard ->
  let steps := active_steps p c in
  let k := (learning_step c + 1)%nat in
  apply_grade p el g c =
    if (length steps <=? k)%nat then
      (set_difficulty (initDifficulty p g)
         (set_stability (initStability p g)
            (set_learning_step 0 (set_state Review (set_learning_step k c)))),
       0, if decide (g = Hard) then 1 else graduatingInterval p)
    else
      (set_state (if decide (state c = New) then Learning else state c)
         (set_learning_step k c),
       nth k steps 0, 0).
Proof.
  intros Hs Hg. unfold apply_grade, active_steps.
  rewrite decide_True by exact Hs.
  rewrite (decide_False (P := g = Again)) by (destruct Hg as [-> | ->]; discriminate).
  rewrite (decide_False (P := g = Easy)) by (destruct Hg as [-> | ->]; discriminate).
  simpl. reflexivity.
Qed.

Lemma review_card_step {tz : Zone} p now g e c :
  state c = New \/ state c = Learning \/ state c = Relearning ->
  g = Good \/ g = Hard ->
  Forall (fun m => 0 <= m) (active_steps p c) ->
  let steps := active_steps p c in
  let k := (learning_step c + 1)%nat in
  let c' := (review_card tz p now g e c).1.1 in
  if (length steps <=? k)%nat then
    state c' = Review /\ learning_step c' = 0%nat
    /\ stability c' = initStability p g /\ difficulty c' = initDifficulty p g
    /\ due c' = add_days tz now (if decide (g = Hard) then 1 else graduatingInterval p)
  else
    state c' = (if decide (state c = New) then Learning else state c)
    /\ learning_step c' = k
    /\ due c' = add_minutes tz now (nth k steps 0).
Proof.
  intros Hs Hg Hsteps steps k c'. subst c'.
  pose proof (nth_nonneg k _ Hsteps) as Hk. fold steps in Hk.
  unfold review_card.
  rewrite apply_grade_step
    by (rewrite ?record_error_state; assumption).
  unfold active_steps. rewrite !record_error_state, !record_error_learning_step.
  fold (active_steps p c). fold steps. fold k.
  destruct (length steps <=? k)%nat; simpl.
  - unfold update_streak, schedule_due. case_match; simpl; repeat split; reflexivity.
  - unfold update_streak, schedule_due.
    destruct (Z.ltb_spec 0 (nth k steps 0)); case_match; simpl; repeat split;
      try reflexivity; replace (nth k steps 0) with 0 by lia; reflexivity.
Qed.

(** C2 (amended).  For a card in state New, Learning or Relearning graded
    Good or Hard (step durations not negative), [processReview] increments
    [learning_step].  If the incremented index reaches the length of the
    active step schedule, the card enters Review with [learning_step] back
    at 0, stability [initStability grade], difficulty [initDifficulty grade]
    and due = now moved on by (1 if Hard, else [graduatingInterval]) days of
    local time.  Otherwise a Learning or Relearning card stays in its state,
    a New card moves to Learning, and due = now moved on by
    steps[learning_step] minutes of local time.  In a zone whose offset from
    UTC is constant these are now + that many days of 24 hours and
    now + that many minutes. *)
Theorem learning_step_advance (tz : Zone) (now : Z) (rand : nat -> Q) (cardId : string)
    (grade : Rating) (errorInfo : option string) (st : Scheduler) (l : Ref) (card : Card) :
  cards_get cardId (cards st) = Some l -> heap st !! l = Some card ->
  state card = New \/ state card = Learning \/ state card = Relearning ->
  grade = Good \/ grade = Hard ->
  Forall (fun m => 0 <= m) (active_steps (params st) card) ->
  let p := params st in
  let steps := active_steps p card in
  let k := (learning_step card + 1)%nat in
  holds_at
    (fun c' =>
       if (length steps <=? k)%nat then
         state c' = Review /\ learning_step c' = 0%nat
         /\ stability c' = initStability p grade
         /\ difficulty c' = initDifficulty p grade
         /\ due c' = add_days tz now (if decide (grade = Hard) then 1 else graduatingInterval p)
       else
         state c' = (if decide (state card = New) then Learning else state card)
         /\ learning_step c' = k
         /\ due c' = add_minutes tz now (nth k steps 0))
    (heap (processReview tz now rand cardId grade errorInfo st).2) l
  /\ (forall offset t n,
        add_days (fixed_zone offset) t n = t + n * day_ms
        /\ add_minutes (fixed_zone offset) t n = t + n * minute_ms).
Proof.
  intros Hk Hl Hs Hg Hsteps p steps k.
  split; [| intros offset t n; split; [apply add_days_fixed | apply add_minutes_fixed]].
  rewrite (processReview_store _ _ _ _ _ _ _ _ Hk Hl).
  rewrite (decide_False (P := grade = Again))
    by (destruct Hg as [-> | ->]; discriminate).
  pose proof (store_after_card_lookup (tz := tz) now grade errorInfo l card st Hl) as H1.
  pose proof (review_card_step (tz := tz) p now grade errorInfo card Hs Hg Hsteps) as Hc.
  simpl in Hc. fold steps k in Hc.
  destruct (checkGraduation_self now rand l grade _ _ H1) as [H2 | H2];
    eexists; (split; [exact H2 |]).
  - exact Hc.
  - destruct (length steps <=? k)%nat; exact Hc.
Qed.

Lemma learning_step_advance_witness :
  let st := ExampleStores.group_store in
  (state (Examples.fresh "n" "" (4 # 5)) = New
   \/ state (Examples.fresh "n" "" (4 # 5)) = Learning
   \/ state (Examples.fresh "n" "" (4 # 5)) = Relearning)
  /\ Forall (fun m => 0 <= m) (active_steps (params st) (Examples.fresh "n" "" (4 # 5)))
  /\ holds_at
       (fun c' => state c' = Learning /\ learning_step c' = 1%nat
                  /\ due c' = Examples.t0 + 10 * minute_ms)
       (heap (processReview utc Examples.t0 Examples.rand0 "n" Good None st).2) 3.
Proof.
  assert (Hsteps : Forall (fun m => 0 <= m)
                     (active_steps (params ExampleStores.group_store)
                        (Examples.fresh "n" "" (4 # 5))))
    by (repeat constructor; lia).
  split; [left; reflexivity |]. split; [exact Hsteps |].
  exact (proj1 (learning_step_advance utc Examples.t0 Examples.rand0 "n" Good None
                  ExampleStores.group_store 3 (Examples.fresh "n" "" (4 # 5))
                  eq_refl eq_refl (or_introl eq_refl) (or_introl eq_refl) Hsteps)).
Defined.

(** C2, as stated, fails in three ways.  A New card graded Good that has
    not finished its steps does not stay in its current state; it moves to
    Learning.  A step that is negative is not added: the card comes out due
    at the time of the review.  And in the hour that a clock set back
    repeats, a step of ten minutes gives a due timestamp fifty minutes
    before the review. *)
Lemma new_card_leaves_New_on_Good :
  (let st := ExampleStores.group_store in
   let st' := (processReview utc Examples.t0 Examples.rand0 "n" Good None st).2 in
   state (heap st !!! 3%nat) = New
   /\ (learning_step (heap st !!! 3%nat) + 1 < length (learningSteps (params st)))%nat
   /\ state (heap st' !!! 3%nat) = Learning
   /\ state (heap st' !!! 3%nat) <> state (heap st !!! 3%nat))
  /\ (let st := ClockExamples.negative_step in
      let st' := (processReview utc Examples.t0 Examples.rand0 "n" Good None st).2 in
      nth 1 (learningSteps (params st)) 0 = -5
      /\ due (heap st' !!! 3%nat) = Examples.t0
      /\ due (heap st' !!! 3%nat) <> Examples.t0 + -5 * minute_ms)
  /\ (let now := ClockExamples.second_pass in
      let st := ExampleStores.group_store in
      let st' := (processReview ClockExamples.autumn now Examples.rand0 "n" Good None st).2 in
      nth 1 (learningSteps (params st)) 0 = 10
      /\ due (heap st' !!! 3%nat) = now - 50 * minute_ms
      /\ due (heap st' !!! 3%nat) <> now + 10 * minute_ms).
Proof. vm_compute. repeat split; try lia; discriminate. Qed.

(** ** Sorting *)

Section Sort.
Context {A : Type} (cmp : A -> A -> Q).
Let le (a b : A) : Prop := (cmp a b <= 0)%Q.
Hypothesis le_total : forall a b, le a b \/ le b a.
Hypothesis le_trans : forall a b c, le a b -> le b c -> le a c.

Lemma sort_insert_Permutation x l : sort_insert cmp x l ≡ₚ x :: l.
Proof.
  induction l as [| y l IH]; simpl; [reflexivity |].
  destruct (Qle_bool (cmp x y) 0); [reflexivity |].
  rewrite IH. apply perm_swap.
Qed.

Lemma js_sort_Permutation l : js_sort cmp l ≡ₚ l.
Proof.
  induction l as [| x l IH]; simpl; [reflexivity |].
  unfold js_sort in *. simpl. rewrite sort_insert_Permutation, IH. reflexivity.
Qed.

Lemma sort_insert_sorted x l :
  StronglySorted le l -> StronglySorted le (sort_insert cmp x l).
Proof.
  induction 1 as [| y l Hl IH Hy]; simpl.
  - repeat constructor.
  - destruct (Qle_bool (cmp x y) 0) eqn:Hxy.
    + apply Qle_bool_iff in Hxy.
      constructor; [constructor; assumption |].
      constructor; [exact Hxy |].
      eapply Forall_impl; [exact Hy |]. intros z Hz. eapply le_trans; eassumption.
    + assert (Hyx : le y x).
      { destruct (le_total x y) as [H | H]; [| exact H].
        apply Qle_bool_iff in H. unfold le in H. congruence. }
      constructor; [exact IH |].
      eapply Permutation_Forall; [symmetry; apply sort_insert_Permutation |].
      constructor; assumption.
Qed.

Lemma js_sort_sorted l : StronglySorted le (js_sort cmp l).
Proof.
  induction l as [| x l IH]; simpl; [constructor |].
  apply sort_insert_sorted, IH.
Qed.

Lemma sorted_precedes l a b : StronglySorted le l -> precedes l a b -> le a b.
Proof.
  intros Hs (i & j & Hij & Hi & Hj). revert i j Hij Hi Hj.
  induction Hs as [| x l Hl IH Hx]; intros i j Hij Hi Hj; [discriminate |].
  destruct j as [| j]; [lia |]. simpl in Hj.
  destruct i as [| i]; simpl in Hi.
  - injection Hi as ->. rewrite Forall_forall in Hx. apply Hx.
    eapply list_elem_of_lookup_2, Hj.
  - apply (IH i j); [lia | assumption | assumption].
Qed.
End Sort.

(** ** The session queue *)

Lemma queue_le_cases a b :
  queue_le a b <->
  (state a = New /\ state b <> New)
  \/ (state a = New /\ state b = New /\ (commonality b <= commonality a)%Q)
  \/ (state a <> New /\ state b <> New /\ due a <= due b).
Proof.
  unfold queue_le, queue_cmp.
  destruct (bool_decide_reflect (state a = New /\ state b <> New)) as [H1 | H1].
  { split; [tauto | intros _; discriminate]. }
  destruct (bool_decide_reflect (state b = New /\ state a <> New)) as [H2 | H2].
  { split; [intros Hle; exfalso; apply Hle; reflexivity |].
    intros [? | [? | ?]]; tauto. }
  destruct (bool_decide_reflect (state a = New /\ state b = New)) as [H3 | H3].
  - split.
    + intros Hle. right; left. repeat split; try tauto.
      apply (Qplus_le_l _ _ (- commonality a)).
      rewrite Qplus_opp_r. exact Hle.
    + intros [? | [(_ & _ & Hle) | ?]]; try tauto.
      apply (Qplus_le_l _ _ (- commonality a)) in Hle.
      rewrite Qplus_opp_r in Hle. exact Hle.
  - assert (Hz : (inject_Z (due a - due b) <= 0)%Q <-> due a <= due b).
    { change 0%Q with (inject_Z 0). rewrite <- Zle_Qle. lia. }
    rewrite Hz.
    destruct (decide (state a = New)), (decide (state b = New)); tauto.
Qed.

Lemma queue_le_total a b : queue_le a b \/ queue_le b a.
Proof.
  rewrite !queue_le_cases.
  destruct (decide (state a = New)), (decide (state b = New));
    try tauto.
  - destruct (Qlt_le_dec (commonality a) (commonality b)) as [H | H].
    + right. right; left. repeat split; try assumption. apply Qlt_le_weak, H.
    + left. right; left. tauto.
  - destruct (Z.le_gt_cases (due a) (due b)); [tauto |].
    right. right; right. repeat split; try assumption. lia.
Qed.

Lemma queue_le_trans a b c : queue_le a b -> queue_le b c -> queue_le a c.
Proof.
  rewrite !queue_le_cases.
  intros [? | [(? & ? & H1) | (? & ? & H1)]] [? | [(? & ? & H2) | (? & ? & H2)]];
    try tauto.
  - right; left. repeat split; try assumption. eapply Qle_trans; eassumption.
  - right; right. repeat split; try assumption. lia.
Qed.

Lemma elem_of_getDueCards now st l :
  l ∈ getDueCards now st <->
  (exists k, (k, l) ∈ cards st)
  /\ graduated (heap st !!! l) = false
  /\ (due (heap st !!! l) <= now \/ state (heap st !!! l) = New).
Proof.
  unfold getDueCards. rewrite list_elem_of_filter, list_elem_of_fmap. unfold is_due.
  split.
  - intros [[Hg Hd] ([k l'] & -> & Hin)]. eauto.
  - intros ((k & Hin) & Hg & Hd). split; [auto |]. exists (k, l). auto.
Qed.

(** C3.  [buildSessionQueue(max)] returns the first [max] (20 by default)
    entries of a list [full] that holds exactly the cards of the store that
    are not graduated and are due ([due <= now]) or New, each once, ordered
    so that every New card precedes every other card, New cards by
    descending commonality and the others by ascending due timestamp; the
    same list becomes the session queue. *)
Theorem buildSessionQueue_selects_and_orders (now : Z) (maxCards : option nat)
    (st : Scheduler) :
  let q := (buildSessionQueue now maxCards st).1 in
  let card_of (l : Ref) := heap st !!! l in
  exists full : list Ref,
    (forall l, l ∈ full <->
               (exists k, (k, l) ∈ cards st)
               /\ graduated (card_of l) = false
               /\ (due (card_of l) <= now \/ state (card_of l) = New))
    /\ (NoDup (cards st).*2 -> NoDup full)
    /\ (forall a b, precedes full a b ->
          (state (card_of b) = New -> state (card_of a) = New)
          /\ (state (card_of a) = New -> state (card_of b) = New ->
              (commonality (card_of b) <= commonality (card_of a))%Q)
          /\ (state (card_of a) <> New -> state (card_of b) <> New ->
              due (card_of a) <= due (card_of b)))
    /\ q = take (default 20%nat maxCards) full
    /\ (length q <= default 20%nat maxCards)%nat
    /\ sessionQueue (buildSessionQueue now maxCards st).2 = q.
Proof.
  intros q card_of. unfold buildSessionQueue in q. simpl in q.
  set (cmp := fun a b : Ref => queue_cmp (heap st !!! a) (heap st !!! b)) in *.
  exists (js_sort cmp (getDueCards now st)).
  split; [| split; [| split; [| split; [| split]]]].
  - intros l. rewrite (js_sort_Permutation cmp (getDueCards now st)).
    apply elem_of_getDueCards.
  - intros Hnd. rewrite (js_sort_Permutation cmp (getDueCards now st)).
    apply NoDup_filter, Hnd.
  - intros a b Hab.
    assert (Hle : queue_le (card_of a) (card_of b)).
    { apply (sorted_precedes cmp) with (l := js_sort cmp (getDueCards now st)).
      - apply js_sort_sorted.
        + intros x y. apply queue_le_total.
        + intros x y z. apply queue_le_trans.
      - exact Hab. }
    apply queue_le_cases in Hle. tauto.
  - reflexivity.
  - subst q. rewrite length_take. lia.
  - reflexivity.
Qed.

(** ** Drawing the next card *)

(** C8 (amended).  If the session queue is not empty, [lastPattern] is a
    non-empty string and some queued card has another [pos_pattern], then
    [getNextCard] returns the first queued card whose [pos_pattern] differs
    from [lastPattern], and the queue that remains is the old one without
    that entry, all other entries in their previous order. *)
Theorem getNextCard_avoids_last_pattern (now : Z) (st : Scheduler) (p : string) :
  sessionQueue st <> [] ->
  lastPattern st = Some p -> p <> ""%string ->
  (exists c, c ∈ sessionQueue st /\ pos_pattern (heap st !!! c) <> p) ->
  exists (idx : nat) (c : Ref),
    sessionQueue st !! idx = Some c
    /\ pos_pattern (heap st !!! c) <> p
    /\ (forall j c', sessionQueue st !! j = Some c' -> (j < idx)%nat ->
          pos_pattern (heap st !!! c') = p)
    /\ getNextCard now st
       = (Some c, set_sessionQueue (delete idx (sessionQueue st)) st).
Proof.
  intros Hne Hlp Hp (c0 & Hin & Hc0).
  assert (Hlen : (length (sessionQueue st) =? 0)%nat = false).
  { destruct (sessionQueue st); [contradiction | reflexivity]. }
  unfold getNextCard. rewrite Hlen. rewrite Hlen.
  rewrite Hlp. simpl truthy. rewrite (bool_decide_eq_true_2 _ Hp).
  unfold findIndex.
  destruct (list_find (fun c => Some (pos_pattern (heap st !!! c)) <> Some p)
              (sessionQueue st)) as [[idx c] |] eqn:Hfind.
  - apply list_find_Some in Hfind as (Hidx & Hc & Hfirst).
    exists idx, c. split; [exact Hidx |]. split; [congruence |]. split.
    + intros j c' Hj Hlt. specialize (Hfirst j c' Hj Hlt).
      destruct (decide (pos_pattern (heap st !!! c') = p)) as [-> | Hd]; [reflexivity |].
      exfalso. apply Hfirst. congruence.
    + simpl. destruct idx as [| idx]; simpl.
      * destruct (sessionQueue st) as [| q0 q]; [discriminate |].
        simpl in Hidx. injection Hidx as ->. reflexivity.
      * rewrite Hidx. reflexivity.
  - exfalso. eapply list_find_None in Hfind. rewrite Forall_forall in Hfind.
    apply (Hfind c0 Hin). congruence.
Qed.

Lemma getNextCard_avoids_last_pattern_witness :
  let st := QueueExamples.repeat_store in
  sessionQueue st <> [] /\ lastPattern st = Some "SVO"%string
  /\ "SVO"%string <> ""%string
  /\ (exists c, c ∈ sessionQueue st /\ pos_pattern (heap st !!! c) <> "SVO"%string)
  /\ exists (idx : nat) (c : Ref),
       sessionQueue st !! idx = Some c
       /\ pos_pattern (heap st !!! c) <> "SVO"%string
       /\ (forall j c', sessionQueue st !! j = Some c' -> (j < idx)%nat ->
             pos_pattern (heap st !!! c') = "SVO"%string)
       /\ getNextCard Examples.t0 st
          = (Some c, set_sessionQueue (delete idx (sessionQueue st)) st).
Proof.
  assert (H1 : sessionQueue QueueExamples.repeat_store <> []) by discriminate.
  assert (H3 : "SVO"%string <> ""%string) by discriminate.
  assert (H4 : exists c, c ∈ sessionQueue QueueExamples.repeat_store
                         /\ pos_pattern (heap QueueExamples.repeat_store !!! c)
                            <> "SVO"%string).
  { exists 2%nat. split; [| discriminate].
    apply list_elem_of_lookup. exists 2%nat. reflexivity. }
  split; [exact H1 |]. split; [reflexivity |]. split; [exact H3 |]. split; [exact H4 |].
  exact (getNextCard_avoids_last_pattern Examples.t0 QueueExamples.repeat_store
           "SVO" H1 eq_refl H3 H4).
Defined.

(** C8, as stated, fails when the pattern recorded last is the empty
    string: [lastPattern] is set, a queued card has a different pattern, and
    yet [getNextCard] returns the front card, whose pattern equals
    [lastPattern]. *)
Lemma empty_last_pattern_is_not_avoided :
  let st := QueueExamples.untagged_store in
  sessionQueue st <> []
  /\ lastPattern st = Some ""%string
  /\ (exists c, c ∈ sessionQueue st /\ Some (pos_pattern (heap st !!! c)) <> lastPattern st)
  /\ exists c, (getNextCard Examples.t0 st).1 = Some c
               /\ Some (pos_pattern (heap st !!! c)) = lastPattern st.
Proof.
  split; [discriminate |]. split; [reflexivity |]. split.
  - exists 1%nat. split; [| discriminate].
    apply list_elem_of_lookup. exists 1%nat. reflexivity.
  - exists 0%nat. split; reflexivity.
Qed.

(** ** What the checks leave alone *)

Lemma cards_get_elem_of k l cs : cards_get k cs = Some l -> (k, l) ∈ cs.
Proof.
  induction cs as [| [k' l'] cs IH]; simpl; [discriminate |].
  case_decide as Hk.
  - intros [= ->]. subst. apply list_elem_of_here.
  - intros H. apply list_elem_of_further, IH, H.
Qed.

Lemma lookup_alter_canonical_group (m : gmap string Meta) b k' k :
  pattern_group <$> alter (set_is_canonical b) k' m !! k = pattern_group <$> m !! k.
Proof.
  destruct (decide (k' = k)) as [-> | Hne].
  - rewrite lookup_alter_eq. destruct (m !! k); reflexivity.
  - rewrite lookup_alter_ne by exact Hne. reflexivity.
Qed.

Lemma checkGraduation_frame now rand l g st :
  let st' := _checkGraduation now rand l g st in
  cards st' = cards st /\ params st' = params st
  /\ sessionQueue st' = sessionQueue st /\ lastPattern st' = lastPattern st
  /\ sessionStats st' = sessionStats st
  /\ forall grp k, in_group st' grp k <-> in_group st grp k.
Proof.
  destruct (checkGraduation_cases now rand l g st)
    as [-> | [(meta & nc & rest & _ & _ & _ & _ & _ & ->) | (meta & s & _ & _ & _ & _ & _ & ->)]];
    simpl; repeat split; try reflexivity; try tauto;
    unfold in_group; simpl; rewrite !lookup_alter_canonical_group; tauto.
Qed.

Lemma checkReactivation_frame {tz : Zone} now rand k st :
  let st' := _checkReactivation tz now rand k st in
  cards st' = cards st /\ params st' = params st /\ drillMeta st' = drillMeta st
  /\ sessionQueue st' = sessionQueue st /\ lastPattern st' = lastPattern st
  /\ sessionStats st' = sessionStats st.
Proof.
  unfold _checkReactivation. repeat case_match; simpl; repeat split; reflexivity.
Qed.

Lemma processReview_frame {tz : Zone} now rand cardId grade errorInfo st :
  let st' := (processReview tz now rand cardId grade errorInfo st).2 in
  cards st' = cards st /\ params st' = params st
  /\ forall grp k, in_group st' grp k <-> in_group st grp k.
Proof.
  unfold processReview.
  destruct (cards_get cardId (cards st)) as [l |]; [| simpl; tauto].
  destruct (heap st !! l) as [card |]; [| simpl; tauto].
  destruct (review_card tz (params st) now grade errorInfo card) as [[c' m] d].
  cbn -[_checkGraduation _checkReactivation].
  match goal with
  | |- context [_checkGraduation now rand l grade ?s] =>
      destruct (checkGraduation_frame now rand l grade s) as (Hc & Hp & _ & _ & _ & Hg);
      set (st1 := _checkGraduation now rand l grade s) in *
  end.
  case_decide.
  - destruct (checkReactivation_frame (tz := tz) now rand cardId st1) as (Hc' & Hp' & Hm' & _).
    rewrite Hc', Hc, Hp', Hp. repeat split; try reflexivity.
    + intros H0. apply Hg. unfold in_group in *. rewrite <- Hm'. exact H0.
    + intros H0. apply Hg in H0. unfold in_group in *. rewrite Hm'. exact H0.
  - rewrite Hc, Hp. repeat split; try reflexivity; apply Hg.
Qed.

(** ** Properties of single cells kept by a whole review *)

Lemma review_card_id {tz : Zone} p now g e c : id (review_card tz p now g e c).1.1 = id c.
Proof.
  unfold review_card.
  assert (Hag : forall el c0, id (apply_grade p el g c0).1.1 = id c0).
  { intros el c0. unfold apply_grade.
    repeat case_decide; repeat case_match; reflexivity. }
  specialize (Hag (inject_Z (now - default now (last_review c)) / inject_Z day_ms)%Q
                (record_error now e c)).
  destruct (apply_grade p _ g (record_error now e c)) as [[c' m] d]. simpl in *.
  unfold update_streak, schedule_due.
  repeat case_match; simpl; rewrite Hag; destruct e; reflexivity.
Qed.

Lemma review_card_graduated {tz : Zone} p now g e c :
  graduated (review_card tz p now g e c).1.1 = graduated c.
Proof.
  unfold review_card.
  assert (Hag : forall el c0, graduated (apply_grade p el g c0).1.1 = graduated c0).
  { intros el c0. unfold apply_grade.
    repeat case_decide; repeat case_match; reflexivity. }
  specialize (Hag (inject_Z (now - default now (last_review c)) / inject_Z day_ms)%Q
                (record_error now e c)).
  destruct (apply_grade p _ g (record_error now e c)) as [[c' m] d]. simpl in *.
  unfold update_streak, schedule_due.
  repeat case_match; simpl; rewrite Hag; destruct e; reflexivity.
Qed.

Section CellInvariant.
Context {tz : Zone}.
Variable P : Card -> Prop.
Variable now : Z.
Hypothesis P_graduate : forall c, P c -> P (graduate now c).
Hypothesis P_promote : forall c, P c -> P (promote now c).
Hypothesis P_reactivate : forall c, P c -> P (reactivate now c).
Hypothesis P_review : forall p g e c, P c -> P (review_card tz p now g e c).1.1.

Lemma store_after_card_holds_at grade errorInfo l card st s :
  heap st !! l = Some card ->
  holds_at P (heap st) s ->
  holds_at P (heap (store_after_card tz now grade errorInfo l card st)) s.
Proof.
  intros Hl (c & Hc & HP).
  destruct (decide (l = s)) as [-> | Hne].
  - eexists. split; [apply store_after_card_lookup, Hl |].
    apply P_review. congruence.
  - exists c. rewrite store_after_card_lookup_ne by exact Hne. auto.
Qed.

Lemma processReview_keeps_cell rand cardId grade errorInfo st s :
  holds_at P (heap st) s ->
  holds_at P (heap (processReview tz now rand cardId grade errorInfo st).2) s.
Proof.
  intros H.
  destruct (cards_get cardId (cards st)) as [l |] eqn:Hk;
    [| unfold processReview; rewrite Hk; exact H].
  destruct (heap st !! l) as [card |] eqn:Hl;
    [| unfold processReview; rewrite Hk, Hl; exact H].
  rewrite (processReview_store _ _ _ _ _ _ _ _ Hk Hl).
  pose proof (store_after_card_holds_at grade errorInfo l card st s Hl H) as H1.
  case_decide.
  - apply checkReactivation_holds_at; [assumption |].
    apply checkGraduation_holds_at; assumption.
  - apply checkGraduation_holds_at; assumption.
Qed.
End CellInvariant.

Section OtherCell.
Variable P : Card -> Prop.
Variable now : Z.
Hypothesis P_promote : forall c, P c -> P (promote now c).
Hypothesis P_reactivate : forall c, P c -> P (reactivate now c).

(** A property of a card other than the reviewed one that promotion and
    reactivation keep. *)
Lemma processReview_other_cell {tz : Zone} rand cardId grade errorInfo st l s :
  cards_get cardId (cards st) = Some l -> s <> l ->
  holds_at P (heap st) s ->
  holds_at P (heap (processReview tz now rand cardId grade errorInfo st).2) s.
Proof.
  intros Hk Hs H.
  destruct (heap st !! l) as [card |] eqn:Hl;
    [| unfold processReview; rewrite Hk, Hl; exact H].
  rewrite (processReview_store _ _ _ _ _ _ _ _ Hk Hl).
  assert (H1 : holds_at P (heap (store_after_card tz now grade errorInfo l card st)) s).
  { destruct H as (c & Hc & HP). exists c.
    rewrite store_after_card_lookup_ne by congruence. auto. }
  assert (H2 : holds_at P (heap (_checkGraduation now rand l grade
                                   (store_after_card tz now grade errorInfo l card st))) s).
  { destruct (checkGraduation_cases now rand l grade
                (store_after_card tz now grade errorInfo l card st))
      as [-> | [(meta & nc & rest & _ & _ & _ & _ & _ & ->)
               | (meta & s0 & _ & _ & _ & _ & _ & ->)]]; simpl.
    - exact H1.
    - apply holds_at_alter; [exact P_promote |].
      destruct H1 as (c & Hc & HP). exists c.
      rewrite list_lookup_alter_ne by congruence. auto.
    - destruct H1 as (c & Hc & HP). exists c.
      rewrite list_lookup_alter_ne by congruence. auto. }
  case_decide; [| exact H2].
  apply checkReactivation_holds_at; assumption.
Qed.
End OtherCell.

(** ** Difficulty *)

Lemma apply_grade_assigns p el g c :
  let c' := (apply_grade p el g c).1.1 in
  if decide (assigns_difficulty p c g)
  then (1 <= difficulty c' <= 10)%R
  else difficulty c' = difficulty c.
Proof.
  cbn zeta. unfold assigns_difficulty, active_steps, apply_grade. simpl.
  repeat match goal with
         | |- context [decide ?P] => destruct (decide P)
         | |- context [(?a <=? ?b)%nat] => destruct (Nat.leb_spec a b)
         end; simpl in *;
    try apply clamp_1_10_bounds; try reflexivity;
    exfalso; destruct (state c), g; simpl in *; repeat case_decide;
    intuition (try discriminate; try congruence; try lia).
Qed.

Lemma review_card_assigns {tz : Zone} p now g e c :
  let c' := (review_card tz p now g e c).1.1 in
  if decide (assigns_difficulty p c g)
  then (1 <= difficulty c' <= 10)%R
  else difficulty c' = difficulty c.
Proof.
  cbn zeta.
  pose proof (apply_grade_assigns p
                (inject_Z (now - default now (last_review c)) / inject_Z day_ms)%Q
                g (record_error now e c)) as H.
  cbn zeta in H.
  assert (Heq : assigns_difficulty p (record_error now e c) g <-> assigns_difficulty p c g).
  { unfold assigns_difficulty, active_steps.
    rewrite !record_error_state, !record_error_learning_step. reflexivity. }
  unfold review_card.
  destruct (apply_grade p _ g (record_error now e c)) as [[c' m] d].
  simpl in *. rewrite update_streak_difficulty, schedule_due_difficulty.
  rewrite record_error_difficulty in H.
  destruct (decide (assigns_difficulty p (record_error now e c) g)) as [Ha | Ha];
    destruct (decide (assigns_difficulty p c g)) as [Hb | Hb]; try exact H; tauto.
Qed.

(** C4 (amended).  A freshly created card has difficulty 0.  A review
    assigns a difficulty to the reviewed card exactly when it takes the card
    from a learning state to Review or is a successful review of a card in
    Review, and every value it assigns lies in [1, 10]; otherwise the
    difficulty of the reviewed card, like that of every other card, is left
    as it was.  Hence, if every card has a difficulty that is 0 or in
    [1, 10], this is still so after a review and after a reset. *)
Theorem difficulty_zero_or_clamped (tz : Zone) (now : Z) (rand : nat -> Q)
    (cardId : string) (grade : Rating) (errorInfo : option string) (sd : SentenceData)
    (st : Scheduler) :
  Forall difficulty_ok (heap st) ->
  let st' := (processReview tz now rand cardId grade errorInfo st).2 in
  difficulty (createCard now cardId sd) = 0%R
  /\ (forall l card,
        cards_get cardId (cards st) = Some l -> heap st !! l = Some card ->
        holds_at
          (fun c' =>
             if decide (assigns_difficulty (params st) card grade)
             then (1 <= difficulty c' <= 10)%R
             else difficulty c' = difficulty card)
          (heap st') l
        /\ forall s c, s <> l -> heap st !! s = Some c ->
                       holds_at (fun c' => difficulty c' = difficulty c) (heap st') s)
  /\ Forall difficulty_ok (heap st')
  /\ Forall difficulty_ok (heap (resetCard now cardId st)).
Proof.
  intros H st'. split; [reflexivity |]. split; [| split].
  - intros l card Hk Hl. split.
    + pose proof (review_card_assigns (tz := tz) (params st) now grade errorInfo card) as Hr.
      cbn zeta in Hr. subst st'.
      destruct (decide (assigns_difficulty (params st) card grade)).
      * apply processReview_holds_at with (card := card); try assumption;
          intros c Hc; exact Hc.
      * apply processReview_holds_at with (card := card); try assumption;
          intros c Hc; exact Hc.
    + intros s c Hs Hc. subst st'.
      apply (processReview_other_cell (fun c' => difficulty c' = difficulty c) now)
        with (l := l); try assumption; try (intros c0 Hc0; exact Hc0).
      exists c. split; [exact Hc | reflexivity].
  - subst st'. unfold processReview.
    destruct (cards_get cardId (cards st)) as [l |]; [| exact H].
    destruct (heap st !! l) as [card |] eqn:Hl; [| exact H].
    pose proof (review_card_difficulty (tz := tz) (params st) now grade errorInfo card) as Hd.
    destruct (review_card tz (params st) now grade errorInfo card) as [[c' m] d].
    simpl in Hd. cbn -[_checkGraduation _checkReactivation].
    assert (Hc : difficulty_ok c').
    { destruct Hd as [Hd | Hd]; [| right; exact Hd].
      unfold difficulty_ok. rewrite Hd.
      apply (Forall_lookup_1 _ _ _ _ H Hl). }
    assert (H1 : Forall difficulty_ok (<[l:=c']> (heap st)))
      by (apply Forall_insert; assumption).
    case_decide.
    + apply checkReactivation_Forall; [intros c Hcc; exact Hcc |].
      apply checkGraduation_Forall; try (intros c Hcc; exact Hcc). exact H1.
    + apply checkGraduation_Forall; try (intros c Hcc; exact Hcc). exact H1.
  - unfold resetCard.
    destruct (cards_get cardId (cards st)) as [l |]; [| exact H].
    destruct (heap st !! l) as [card |]; [| exact H].
    simpl. apply Forall_app. split; [exact H |].
    constructor; [left; reflexivity | constructor].
Qed.

Lemma difficulty_zero_or_clamped_witness :
  let st := ExampleStores.group_store in
  let st' := (processReview utc Examples.t0 Examples.rand0 "a" Good None st).2 in
  Forall difficulty_ok (heap st)
  /\ holds_at (fun c' => (1 <= difficulty c' <= 10)%R) (heap st') 0
  /\ Forall difficulty_ok (heap st').
Proof.
  assert (H : Forall difficulty_ok (heap ExampleStores.group_store)).
  { repeat constructor; unfold difficulty_ok; simpl; lra. }
  split; [exact H |].
  destruct (difficulty_zero_or_clamped utc Examples.t0 Examples.rand0 "a" Good None
              {| sd_pos_pattern := None; sd_commonality := None; sd_unit := None |}
              ExampleStores.group_store H) as (_ & Hcell & Hall & _).
  split; [| exact Hall].
  exact (proj1 (Hcell 0%nat _ eq_refl eq_refl)).
Defined.

(** C4, as stated, fails: a freshly created New card has difficulty 0. *)
Lemma fresh_card_difficulty_out_of_range :
  ~ (1 <= difficulty (createCard 0 "d1"
                        {| sd_pos_pattern := None; sd_commonality := None;
                           sd_unit := None |}) <= 10)%R.
Proof. simpl. lra. Qed.

Lemma wf_processReview {tz : Zone} now rand cardId grade errorInfo st :
  wf st -> wf (processReview tz now rand cardId grade errorInfo st).2.
Proof.
  intros (Hk & Hl & Hid).
  destruct (processReview_frame (tz := tz) now rand cardId grade errorInfo st) as (Hc & _ & _).
  unfold wf. rewrite Hc. repeat split; try assumption.
  intros k l Hin. apply processReview_keeps_cell; try (intros c Hc0; exact Hc0).
  - intros p g e c Hc0. rewrite review_card_id. exact Hc0.
  - apply Hid, Hin.
Qed.

(** ** A pattern group keeps an active member *)

Lemma wf_lookup_total st k l :
  wf st -> (k, l) ∈ cards st ->
  heap st !! l = Some (heap st !!! l) /\ id (heap st !!! l) = k.
Proof.
  intros (_ & _ & Hid) Hin. destruct (Hid k l Hin) as (c & Hc & Hk).
  rewrite (list_lookup_total_correct _ _ _ Hc). auto.
Qed.

Lemma wf_ref_key st k k' l :
  wf st -> (k, l) ∈ cards st -> (k', l) ∈ cards st -> k = k'.
Proof.
  intros Hwf H1 H2.
  destruct (wf_lookup_total st k l Hwf H1) as [_ <-].
  destruct (wf_lookup_total st k' l Hwf H2) as [_ <-]. reflexivity.
Qed.

(** The members of the sibling list are cards of the triggering card's group. *)
Lemma sibling_in_trigger_group st k l meta s grp :
  wf st -> (k, l) ∈ cards st ->
  drillMeta st !! id (heap st !!! l) = Some meta ->
  in_group st grp k ->
  s ∈ _getSiblingCards st (pattern_group meta) ->
  exists k', (k', s) ∈ cards st /\ in_group st grp k'.
Proof.
  intros Hwf Hin Hmeta Hgrp Hs.
  destruct (wf_lookup_total st k l Hwf Hin) as [_ Hid]. rewrite Hid in Hmeta.
  apply elem_of_getSiblingCards in Hs as (g' & k' & Hpg & _ & Hin' & Hgrp').
  unfold in_group in Hgrp. rewrite Hmeta in Hgrp. simpl in Hgrp.
  assert (g' = grp) as -> by congruence.
  exists k'. auto.
Qed.

Lemma checkGraduation_has_active now rand l0 g0 st grp :
  wf st -> has_active st grp -> has_active (_checkGraduation now rand l0 g0 st) grp.
Proof.
  intros Hwf (k & l & Hin & Hgrp & Hact).
  destruct (checkGraduation_frame now rand l0 g0 st) as (Hcards & _ & _ & _ & _ & Hgroups).
  unfold has_active. setoid_rewrite Hcards. setoid_rewrite Hgroups.
  destruct (checkGraduation_cases now rand l0 g0 st)
    as [-> | [(meta & nc & rest & _ & _ & Hmeta & _ & Hsh & ->)
             | (meta & s & _ & _ & Hmeta & _ & Hs & ->)]]; simpl.
  - exists k, l. auto.
  - apply swap_candidate_not_self in Hsh as (Hne & _ & Hsib & _).
    destruct (decide (l = l0)) as [-> | Hl].
    + destruct (sibling_in_trigger_group st k l0 meta nc grp Hwf Hin Hmeta Hgrp Hsib)
        as (k' & Hin' & Hgrp').
      exists k', nc. repeat split; try assumption.
      destruct (wf_lookup_total st k' nc Hwf Hin') as [Hnc _].
      eexists. rewrite list_lookup_alter_eq, list_lookup_alter_ne, Hnc by congruence.
      split; reflexivity.
    + exists k, l. repeat split; try assumption.
      apply holds_at_alter; [intros c _; reflexivity |].
      destruct Hact as (c & Hc & Hg). exists c.
      rewrite list_lookup_alter_ne by congruence. auto.
  - apply list_elem_of_filter in Hs as [[Hsg Hsid] Hsib].
    destruct (decide (l = l0)) as [-> | Hl].
    + destruct (sibling_in_trigger_group st k l0 meta s grp Hwf Hin Hmeta Hgrp Hsib)
        as (k' & Hin' & Hgrp').
      exists k', s. repeat split; try assumption.
      destruct (wf_lookup_total st k' s Hwf Hin') as [Hs' _].
      exists (heap st !!! s). rewrite list_lookup_alter_ne; [auto |].
      intros ->. apply Hsid. reflexivity.
    + exists k, l. repeat split; try assumption.
      destruct Hact as (c & Hc & Hg). exists c.
      rewrite list_lookup_alter_ne by congruence. auto.
Qed.

Lemma wf_store_after_card {tz : Zone} now grade errorInfo l card st :
  heap st !! l = Some card -> wf st -> wf (store_after_card tz now grade errorInfo l card st).
Proof.
  intros Hl (Hk & Hr & Hid). unfold wf. simpl cards. repeat split; try assumption.
  intros k s Hin. apply store_after_card_holds_at; [| exact Hl | apply Hid, Hin].
  intros p g e c Hc. rewrite review_card_id. exact Hc.
Qed.

Lemma wf_checkGraduation now rand l g st :
  wf st -> wf (_checkGraduation now rand l g st).
Proof.
  intros (Hk & Hr & Hid).
  destruct (checkGraduation_frame now rand l g st) as (Hcards & _).
  unfold wf. rewrite Hcards. repeat split; try assumption.
  intros k s Hin. apply checkGraduation_holds_at; try (intros c Hc; exact Hc).
  apply Hid, Hin.
Qed.

Lemma processReview_has_active {tz : Zone} now rand cardId grade errorInfo st grp :
  wf st -> has_active st grp ->
  has_active (processReview tz now rand cardId grade errorInfo st).2 grp.
Proof.
  intros Hwf Hact.
  destruct (cards_get cardId (cards st)) as [l |] eqn:Hk;
    [| unfold processReview; rewrite Hk; exact Hact].
  destruct (heap st !! l) as [card |] eqn:Hl;
    [| unfold processReview; rewrite Hk, Hl; exact Hact].
  rewrite (processReview_store _ _ _ _ _ _ _ _ Hk Hl).
  assert (H1 : has_active (store_after_card tz now grade errorInfo l card st) grp).
  { destruct Hact as (k & s & Hin & Hgrp & Hs). exists k, s. repeat split; try assumption.
    apply store_after_card_holds_at; [| exact Hl | exact Hs].
    intros p g e c Hc. rewrite review_card_graduated. exact Hc. }
  assert (H2 : has_active (_checkGraduation now rand l grade
                             (store_after_card tz now grade errorInfo l card st)) grp).
  { apply checkGraduation_has_active; [apply wf_store_after_card; assumption | exact H1]. }
  case_decide; [| exact H2].
  destruct H2 as (k & s & Hin & Hgrp & Hs).
  destruct (checkReactivation_frame (tz := tz) now rand cardId
              (_checkGraduation now rand l grade
                 (store_after_card tz now grade errorInfo l card st)))
    as (Hc' & _ & Hm' & _).
  exists k, s. rewrite Hc'. repeat split; try assumption.
  - unfold in_group in *. rewrite Hm'. exact Hgrp.
  - apply checkReactivation_holds_at; [intros c _; reflexivity | exact Hs].
Qed.

(** ** A swap keeps a single canonical member *)

Lemma id_lookup_total_alter (f : Card -> Card) i (h : list Card) j :
  (forall c, id (f c) = id c) -> id (alter f i h !!! j) = id (h !!! j).
Proof.
  intros Hf. rewrite list_lookup_total_alter.
  case_decide as H; [| reflexivity]. destruct H as [-> _]. apply Hf.
Qed.

Lemma meta_eta (m : Meta) g :
  pattern_group m = Some g -> is_canonical m = true ->
  m = {| pattern_group := Some g; is_canonical := true |}.
Proof. destruct m; simpl; intros -> ->; reflexivity. Qed.

Lemma checkGraduation_one_canonical now rand k0 l0 g0 st grp :
  wf st -> (k0, l0) ∈ cards st ->
  one_canonical st grp -> one_canonical (_checkGraduation now rand l0 g0 st) grp.
Proof.
  intros Hwf Hin0 (kc & [Hkc Hmc] & Huniq).
  destruct (checkGraduation_cases now rand l0 g0 st)
    as [-> | [(meta & nc & rest & _ & _ & Hmeta & Hcanon & Hsh & ->)
             | (meta & s & _ & _ & _ & _ & _ & ->)]].
  - exists kc. split; [split |]; assumption.
  - apply swap_candidate_not_self in Hsh as (Hne & _ & Hsib & Hidne).
    destruct (wf_lookup_total st k0 l0 Hwf Hin0) as [_ Hid0].
    rewrite Hid0 in *.
    apply elem_of_getSiblingCards in Hsib as (g' & kn & Hpg & _ & Hinn & Hgrpn).
    destruct (wf_lookup_total st kn nc Hwf Hinn) as [_ Hidn].
    assert (Hidn' : id (alter (promote now) nc (alter (graduate now) l0 (heap st)) !!! nc)
                    = kn).
    { rewrite !id_lookup_total_alter by (intros c; reflexivity). exact Hidn. }
    rewrite Hidn'.
    assert (Hk : kn <> k0) by congruence.
    pose proof (meta_eta meta g' Hpg Hcanon) as Hmeta'. rewrite Hmeta' in Hmeta.
    unfold in_group in Hgrpn.
    destruct (drillMeta st !! kn) as [mn |] eqn:Hmn; [| discriminate].
    simpl in Hgrpn. injection Hgrpn as Hgrpn.
    assert (Hnew : forall k,
               alter (set_is_canonical true) kn
                 (alter (set_is_canonical false) k0 (drillMeta st)) !! k
               = if decide (k = kn)
                 then Some {| pattern_group := Some g'; is_canonical := true |}
                 else if decide (k = k0)
                      then Some {| pattern_group := Some g'; is_canonical := false |}
                      else drillMeta st !! k).
    { intros k. case_decide as H1; [subst k |].
      - rewrite lookup_alter_eq, lookup_alter_ne, Hmn by congruence.
        simpl. unfold set_is_canonical. rewrite Hgrpn. reflexivity.
      - rewrite lookup_alter_ne by congruence.
        case_decide as H2; [subst k |].
        + rewrite lookup_alter_eq, Hmeta. reflexivity.
        + rewrite lookup_alter_ne by congruence. reflexivity. }
    assert (Hkeyn : kn ∈ (cards st).*1).
    { apply list_elem_of_fmap. exists (kn, nc). auto. }
    assert (Hkey0 : k0 ∈ (cards st).*1).
    { apply list_elem_of_fmap. exists (k0, l0). auto. }
    unfold one_canonical, canonical_in. simpl. setoid_rewrite Hnew.
    destruct (decide (g' = grp)) as [-> | Hg].
    + assert (kc = k0) as ->.
      { symmetry. apply Huniq. split; assumption. }
      exists kn. split.
      * split; [exact Hkeyn |]. rewrite decide_True by reflexivity. reflexivity.
      * intros k' [Hk' Hm']. repeat case_decide; try congruence.
        exfalso. apply H0. apply Huniq. split; assumption.
    + exists kc. split.
      * split; [exact Hkc |].
        rewrite decide_False
          by (intros ->; rewrite Hmn in Hmc; injection Hmc as ->; simpl in *; congruence).
        rewrite decide_False by (intros ->; rewrite Hmeta in Hmc; congruence).
        exact Hmc.
      * intros k' [Hk' Hm']. repeat case_decide; try congruence.
        apply Huniq. split; assumption.
  - exists kc. split; [split |]; assumption.
Qed.

Lemma processReview_one_canonical {tz : Zone} now rand cardId grade errorInfo st grp :
  wf st -> one_canonical st grp ->
  one_canonical (processReview tz now rand cardId grade errorInfo st).2 grp.
Proof.
  intros Hwf Hone.
  destruct (cards_get cardId (cards st)) as [l |] eqn:Hk;
    [| unfold processReview; rewrite Hk; exact Hone].
  destruct (heap st !! l) as [card |] eqn:Hl;
    [| unfold processReview; rewrite Hk, Hl; exact Hone].
  rewrite (processReview_store _ _ _ _ _ _ _ _ Hk Hl).
  assert (H2 : one_canonical (_checkGraduation now rand l grade
                                (store_after_card tz now grade errorInfo l card st)) grp).
  { apply checkGraduation_one_canonical with (k0 := cardId).
    - apply wf_store_after_card; assumption.
    - apply cards_get_elem_of, Hk.
    - exact Hone. }
  case_decide; [| exact H2].
  destruct (checkReactivation_frame (tz := tz) now rand cardId
              (_checkGraduation now rand l grade
                 (store_after_card tz now grade errorInfo l card st)))
    as (Hc' & _ & Hm' & _).
  unfold one_canonical, canonical_in in *. rewrite Hc', Hm'. exact H2.
Qed.

Lemma wf_run_calls calls st : wf st -> wf (run_calls calls st).
Proof.
  revert st. induction calls as [| c calls IH]; intros st Hwf; [exact Hwf |].
  apply IH. apply wf_processReview, Hwf.
Qed.

(** C1 (amended).  In a well-formed store, a pattern group that has an
    active (not graduated) member still has one after any sequence of
    [processReview] calls; and if exactly one member of the group is
    canonical before the calls, exactly one is canonical after them, a
    canonical swap replacing that member by the promoted sibling. *)
Theorem graduation_invariant (calls : list Call) (st : Scheduler) (g : string) :
  wf st -> has_active st g ->
  has_active (run_calls calls st) g
  /\ (one_canonical st g -> one_canonical (run_calls calls st) g).
Proof.
  revert st. induction calls as [| c calls IH]; intros st Hwf Hact.
  - split; [exact Hact | intros H; exact H].
  - destruct (IH (run_call st c)) as [IH1 IH2].
    + apply wf_processReview, Hwf.
    + apply processReview_has_active; assumption.
    + split; [exact IH1 |]. intros Hone. apply IH2.
      apply processReview_one_canonical; assumption.
Qed.

Lemma wf_group_store : wf ExampleStores.group_store.
Proof.
  unfold wf. split; [| split].
  - apply (bool_decide_unpack _). vm_compute. reflexivity.
  - apply (bool_decide_unpack _). vm_compute. reflexivity.
  - intros k l Hin. simpl in Hin.
    repeat (apply elem_of_cons in Hin as [[= -> ->] | Hin]);
      try (eexists; split; reflexivity).
    inversion Hin.
Qed.

Lemma has_active_group_store : has_active ExampleStores.group_store "g".
Proof.
  exists "a"%string, 0%nat. split; [apply list_elem_of_here |].
  split; [vm_compute; reflexivity |]. eexists. split; reflexivity.
Qed.

Lemma graduation_invariant_witness :
  wf ExampleStores.group_store
  /\ has_active ExampleStores.group_store "g"
  /\ has_active (run_calls SwapExamples.two_reviews ExampleStores.group_store) "g"
  /\ (one_canonical ExampleStores.group_store "g" ->
      one_canonical (run_calls SwapExamples.two_reviews ExampleStores.group_store) "g").
Proof.
  split; [exact wf_group_store |]. split; [exact has_active_group_store |].
  exact (graduation_invariant SwapExamples.two_reviews ExampleStores.group_store "g"
           wf_group_store has_active_group_store).
Defined.

(** C1, as stated, fails for a group whose metadata declares two canonical
    cards, as [loadDrillMeta] does for drills that leave [is_canonical]
    out: the graduation check swaps "a" with the graduated sibling "c", and
    the group is left with two canonical members, "b" and "c". *)
Lemma swap_leaves_two_canonicals :
  let st := SwapExamples.two_canonicals in
  let st' := _checkGraduation Examples.t0 Examples.rand0 0 Good st in
  drillMeta st = drillMeta (loadDrillMeta (Some SwapExamples.two_canonicals_drills) initial)
  /\ graduated (heap st !!! 0%nat) = false /\ graduated (heap st' !!! 0%nat) = true
  /\ graduated (heap st !!! 2%nat) = true /\ graduated (heap st' !!! 2%nat) = false
  /\ canonical_in st' "g" "b" /\ canonical_in st' "g" "c"
  /\ ~ one_canonical st' "g".
Proof.
  intros st st'.
  assert (Hb : canonical_in st' "g" "b").
  { split; [| vm_compute; reflexivity].
    apply list_elem_of_lookup. exists 1%nat. reflexivity. }
  assert (Hc : canonical_in st' "g" "c").
  { split; [| vm_compute; reflexivity].
    apply list_elem_of_lookup. exists 2%nat. reflexivity. }
  repeat split; try (vm_compute; reflexivity); try apply Hb; try apply Hc.
  intros (k & _ & Huniq).
  pose proof (Huniq _ Hb) as H1. pose proof (Huniq _ Hc) as H2.
  rewrite <- H2 in H1. discriminate.
Qed.

(** ** Reactivation of graduated siblings *)

Lemma review_card_error_history {tz : Zone} p now g e c :
  error_history (review_card tz p now g e c).1.1 = error_history (record_error now e c).
Proof.
  unfold review_card.
  assert (Hag : forall el c0, error_history (apply_grade p el g c0).1.1 = error_history c0).
  { intros el c0. unfold apply_grade.
    repeat case_decide; repeat case_match; reflexivity. }
  specialize (Hag (inject_Z (now - default now (last_review c)) / inject_Z day_ms)%Q
                (record_error now e c)).
  destruct (apply_grade p _ g (record_error now e c)) as [[c' m] d]. simpl in *.
  unfold update_streak, schedule_due.
  repeat case_match; simpl; exact Hag.
Qed.

Lemma NoDup_getSiblingCards st pg : wf st -> NoDup (_getSiblingCards st pg).
Proof.
  intros (_ & Hr & _). unfold _getSiblingCards.
  destruct pg as [g |]; [| constructor].
  destruct (truthy (Some g)); [| constructor].
  eapply sublist_NoDup; [exact Hr |].
  apply fmap_sublist, sublist_filter.
Qed.

Lemma elem_of_getGraduatedSiblings st pg l :
  l ∈ _getGraduatedSiblings st pg <->
  graduated (heap st !!! l) = true /\ l ∈ _getSiblingCards st pg.
Proof. unfold _getGraduatedSiblings. rewrite list_elem_of_filter. reflexivity. Qed.

(** The candidates for reactivation do not depend on what the review wrote
    to the triggering card. *)
Lemma getGraduatedSiblings_store_after_card {tz : Zone} now grade errorInfo l card st pg :
  heap st !! l = Some card ->
  _getGraduatedSiblings (store_after_card tz now grade errorInfo l card st) pg
  = _getGraduatedSiblings st pg.
Proof.
  intros Hl. unfold _getGraduatedSiblings.
  change (_getSiblingCards (store_after_card tz now grade errorInfo l card st) pg)
    with (_getSiblingCards st pg).
  apply list_filter_iff. intros s.
  destruct (decide (l = s)) as [<- | Hne].
  - rewrite (list_lookup_total_correct _ _ _
               (store_after_card_lookup now grade errorInfo l card st Hl)).
    rewrite (list_lookup_total_correct _ _ _ Hl).
    rewrite review_card_graduated. reflexivity.
  - unfold store_after_card. simpl.
    rewrite list_lookup_total_insert_ne by exact Hne. reflexivity.
Qed.

Section ReactivateAll.
Variable now : Z.

Let reactivate_all (ls : list Ref) (h : list Card) : list Card :=
  foldl (fun h s => alter (reactivate now) s h) h ls.

Lemma reactivate_all_notin ls h s : s ∉ ls -> reactivate_all ls h !! s = h !! s.
Proof.
  revert h. induction ls as [| x ls IH]; intros h Hs; [reflexivity |].
  apply not_elem_of_cons in Hs as [Hne Hs]. unfold reactivate_all in *. simpl.
  rewrite IH by exact Hs. apply list_lookup_alter_ne. congruence.
Qed.

Lemma reactivate_all_in ls h s c :
  s ∈ ls -> h !! s = Some c ->
  holds_at (fun c' => graduated c' = false /\ state c' = Relearning
                      /\ learning_step c' = 0%nat /\ consecutive_correct c' = 0%nat
                      /\ due c' = now)
    (reactivate_all ls h) s.
Proof.
  revert h c. induction ls as [| x ls IH]; intros h c Hs Hc; [inversion Hs |].
  unfold reactivate_all in *. simpl.
  destruct (decide (s = x)) as [-> | Hne].
  - apply reactivate_all_holds_at; [intros c' _; repeat split |].
    exists (reactivate now c). rewrite list_lookup_alter_eq, Hc. repeat split.
  - apply elem_of_cons in Hs as [-> | Hs]; [contradiction |].
    apply (IH _ c Hs). rewrite list_lookup_alter_ne by congruence. exact Hc.
Qed.
End ReactivateAll.

(** C6.  When [processReview] is called with grade Again on a canonical card
    that has a pattern group and whose error history, as the call leaves
    it, has at least [reactivationLapseThreshold] entries from the trailing
    30 days (of local time), the graduated cards of the group, or three of
    them if there are more, are restored to active rotation:
    [graduated = false], [state = Relearning], [learning_step = 0],
    [consecutive_correct = 0], [due = now]; the reviewed card is not among
    them unless it was itself graduated, and all other cards but the
    reviewed one are untouched.  On any other grade, and for a card that is
    not canonical, no other card is restored in this way. *)
Theorem reactivation_on_canonical_lapse (tz : Zone) (now : Z) (rand : nat -> Q)
    (cardId : string) (grade : Rating) (errorInfo : option string) (st : Scheduler)
    (l : Ref) (card : Card) :
  wf st -> cards_get cardId (cards st) = Some l -> heap st !! l = Some card ->
  let st' := (processReview tz now rand cardId grade errorInfo st).2 in
  (forall g,
      grade = Again ->
      drillMeta st !! cardId = Some {| pattern_group := Some g; is_canonical := true |} ->
      g <> ""%string ->
      holds_at
        (fun c' =>
           (reactivationLapseThreshold (params st)
            <= length (filter (recent_error tz now) (error_history c')))%nat)
        (heap st') l ->
      exists sel : list Ref,
        NoDup sel /\ (length sel <= 3)%nat
        /\ (forall s, s ∈ sel ->
              graduated_member st g s
              /\ exists c c', heap st !! s = Some c /\ heap st' !! s = Some c'
                              /\ restored now c c')
        /\ (length sel = 3%nat \/ forall s, graduated_member st g s -> s ∈ sel)
        /\ (graduated card = false -> l ∉ sel)
        /\ (forall s, s ∉ sel -> s <> l -> heap st' !! s = heap st !! s))
  /\ (grade <> Again \/ is_canonical <$> drillMeta st !! cardId <> Some true ->
      forall s c c', s <> l -> heap st !! s = Some c -> heap st' !! s = Some c' ->
                     ~ restored now c c').
Proof.
  intros Hwf Hk Hl st'.
  assert (Hhist : holds_at
                    (fun c' => error_history c'
                               = error_history (record_error now errorInfo card))
                    (heap st') l).
  { subst st'. apply processReview_holds_at with (card := card); try assumption;
      try (intros c Hc; exact Hc).
    apply review_card_error_history. }
  subst st'.
  rewrite (processReview_store _ _ _ _ _ _ _ _ Hk Hl) in *.
  set (st1 := store_after_card tz now grade errorInfo l card st) in *.
  assert (Hst1 : forall s, s <> l -> heap st1 !! s = heap st !! s).
  { intros s Hs. apply store_after_card_lookup_ne. congruence. }
  split.
  - intros g -> Hmeta Hg Hpost.
    assert (Hcount : (reactivationLapseThreshold (params st)
                      <= length (filter (recent_error tz now)
                                   (error_history (record_error now errorInfo card))))%nat).
    { destruct Hhist as (c1 & Hc1 & He). destruct Hpost as (c2 & Hc2 & Hn).
      rewrite <- He. congruence. }
    clear Hhist Hpost.
    rewrite decide_True by reflexivity.
    change (_checkGraduation now rand l Again st1) with st1.
    unfold _checkReactivation.
    change (drillMeta st1) with (drillMeta st). rewrite Hmeta. simpl negb.
    simpl truthy. rewrite (bool_decide_eq_true_2 _ Hg). simpl negb. cbv iota.
    change (cards st1) with (cards st). rewrite Hk.
    assert (Hl1 : heap st1 !!! l = (review_card tz (params st) now Again errorInfo card).1.1).
    { apply list_lookup_total_correct, store_after_card_lookup, Hl. }
    rewrite Hl1, review_card_error_history.
    change (params st1) with (params st).
    change (filter _ (error_history (record_error now errorInfo card)))
      with (filter (recent_error tz now) (error_history (record_error now errorInfo card))).
    apply Nat.leb_le in Hcount. rewrite Hcount.
    simpl pattern_group.
    unfold st1. rewrite (getGraduatedSiblings_store_after_card _ _ _ _ _ _ _ Hl).
    fold st1. simpl heap.
    set (cands := _getGraduatedSiblings st (Some g)).
    assert (Hnd : NoDup cands).
    { apply NoDup_filter, NoDup_getSiblingCards, Hwf. }
    set (sel := take 3 (_shuffle rand cands)).
    assert (Hsub : forall s, s ∈ sel -> s ∈ cands).
    { intros s Hs. eapply shuffle_take_elem_of, Hs. }
    assert (Hmem : forall s, s ∈ cands <-> graduated_member st g s).
    { intros s. unfold cands. rewrite elem_of_getGraduatedSiblings, elem_of_getSiblingCards.
      split.
      - intros (Hgrad & g' & k & [= <-] & _ & Hin & Hgrp).
        exists k. split; [exact Hin |]. split; [exact Hgrp |].
        destruct (wf_lookup_total st k s Hwf Hin) as [Hs0 _].
        eexists. split; [exact Hs0 | exact Hgrad].
      - intros (k & Hin & Hgrp & c & Hc & Hgrad).
        rewrite (list_lookup_total_correct _ _ _ Hc).
        split; [exact Hgrad |]. exists g, k. auto. }
    exists sel. split; [| split; [| split; [| split; [| split]]]].
    + eapply sublist_NoDup; [| apply sublist_take].
      rewrite shuffle_Permutation. exact Hnd.
    + unfold sel. rewrite length_take. lia.
    + intros s Hs. pose proof (Hsub s Hs) as Hc.
      split; [apply Hmem, Hc |].
      apply elem_of_getGraduatedSiblings in Hc as [Hgrad Hsib].
      apply elem_of_getSiblingCards in Hsib as (g' & k & [= <-] & _ & Hin & Hgrp).
      destruct (wf_lookup_total st k s Hwf Hin) as [Hs0 _].
      assert (Hs1 : exists c1, heap st1 !! s = Some c1).
      { destruct (decide (s = l)) as [-> | Hne].
        - eexists. apply store_after_card_lookup, Hl.
        - rewrite Hst1 by exact Hne. eauto. }
      destruct Hs1 as [c1 Hs1].
      destruct (reactivate_all_in now sel (heap st1) s c1 Hs Hs1) as (c' & Hc' & Hr).
      exists (heap st !!! s), c'. split; [exact Hs0 |]. split; [exact Hc' |].
      split; [exact Hgrad | exact Hr].
    + destruct (Nat.le_gt_cases (length cands) 3) as [Hle | Hgt].
      * right. intros s Hs. apply Hmem in Hs. unfold sel.
        rewrite take_ge
          by (rewrite (Permutation_length (shuffle_Permutation rand cands)); exact Hle).
        rewrite shuffle_Permutation. exact Hs.
      * left. unfold sel.
        rewrite length_take, (Permutation_length (shuffle_Permutation rand cands)). lia.
    + intros Hactive Hin. apply Hsub, elem_of_getGraduatedSiblings in Hin as [Hgrad _].
      rewrite (list_lookup_total_correct _ _ _ Hl) in Hgrad. congruence.
    + intros s Hs Hne. rewrite reactivate_all_notin by exact Hs. apply Hst1, Hne.
  - clear Hhist. intros Hcase s c c' Hne Hc Hc' (Hg & Hg' & Hstate & _).
    assert (Hgrad : heap (_checkGraduation now rand l grade st1) !! s = Some c
                    \/ heap (_checkGraduation now rand l grade st1) !! s
                       = Some (promote now c)).
    { destruct (checkGraduation_cases now rand l grade st1)
        as [-> | [(meta & nc & rest & _ & _ & _ & _ & _ & ->)
                 | (meta & s0 & _ & _ & _ & _ & _ & ->)]]; simpl.
      - left. rewrite Hst1; assumption.
      - destruct (decide (nc = s)) as [-> | Hnc].
        + right. rewrite list_lookup_alter_eq, list_lookup_alter_ne, Hst1, Hc by congruence.
          reflexivity.
        + left. rewrite !list_lookup_alter_ne, Hst1 by congruence. exact Hc.
      - left. rewrite list_lookup_alter_ne, Hst1 by congruence. exact Hc. }
    assert (Hfinal : Some c' = Some c \/ Some c' = Some (promote now c)).
    { rewrite <- Hc'. case_decide as Hag; [| exact Hgrad]. subst grade.
      destruct Hcase as [Hcase | Hcase]; [contradiction |].
      change (_checkGraduation now rand l Again st1) with st1 in *.
      unfold _checkReactivation. change (drillMeta st1) with (drillMeta st).
      destruct (drillMeta st !! cardId) as [meta |]; [| exact Hgrad].
      destruct (is_canonical meta) eqn:Hcan; [| exact Hgrad].
      exfalso. apply Hcase. simpl. rewrite Hcan. reflexivity. }
    destruct Hfinal as [[= ->] | [= ->]].
    + congruence.
    + simpl in Hstate. discriminate.
Qed.

Lemma reactivation_on_canonical_lapse_witness :
  let st := ExampleStores.group_store in
  let st' :=
    (processReview utc Examples.t0 Examples.rand0 "a" Again (Some "grammar"%string) st).2 in
  wf st /\ cards_get "a" (cards st) = Some 0%nat
  /\ exists sel : list Ref,
       NoDup sel /\ (length sel <= 3)%nat
       /\ (forall s, s ∈ sel ->
             graduated_member st "g" s
             /\ exists c c', heap st !! s = Some c /\ heap st' !! s = Some c'
                             /\ restored Examples.t0 c c')
       /\ (length sel = 3%nat \/ forall s, graduated_member st "g" s -> s ∈ sel)
       /\ (graduated (heap st !!! 0%nat) = false -> 0%nat ∉ sel)
       /\ (forall s, s ∉ sel -> s <> 0%nat -> heap st' !! s = heap st !! s).
Proof.
  split; [apply wf_group_store |]. split; [reflexivity |].
  refine (proj1 (reactivation_on_canonical_lapse utc Examples.t0 Examples.rand0 "a" Again
                   (Some "grammar"%string) ExampleStores.group_store 0 _
                   wf_group_store eq_refl eq_refl)
            "g"%string eq_refl eq_refl _ _).
  - discriminate.
  - eexists. split; [vm_compute; reflexivity |]. vm_compute. lia.
Defined.

(** ** The sibling sets *)

(** In the graduation check both sibling lists hold cards of the pattern
    group named by the metadata of the triggering card, and never the
    triggering card itself. *)
Lemma graduation_candidates_are_siblings st l pg (b : bool) s :
  s ∈ filter (fun s : Ref => graduated (heap st !!! s) = b
                             /\ id (heap st !!! s) <> id (heap st !!! l))
        (_getSiblingCards st pg) ->
  s <> l /\ exists g k, pg = Some g /\ (k, s) ∈ cards st /\ in_group st g k.
Proof.
  intros Hs. apply list_elem_of_filter in Hs as [[_ Hid] Hsib].
  split; [intros ->; apply Hid; reflexivity |].
  apply elem_of_getSiblingCards in Hsib as (g & k & Hpg & _ & Hin & Hgrp). eauto.
Qed.

(** In the reactivation check the candidates are cards of the pattern group;
    the triggering card is kept out only by not being graduated. *)
Lemma reactivation_candidates_are_group_members st pg s :
  s ∈ _getGraduatedSiblings st pg ->
  graduated (heap st !!! s) = true
  /\ exists g k, pg = Some g /\ (k, s) ∈ cards st /\ in_group st g k.
Proof.
  intros Hs. apply elem_of_getGraduatedSiblings in Hs as [Hg Hsib].
  split; [exact Hg |].
  apply elem_of_getSiblingCards in Hsib as (g & k & Hpg & _ & Hin & Hgrp). eauto.
Qed.

(** C7 does not hold of the reactivation check: [_getGraduatedSiblings]
    does not leave out the triggering card.  On a canonical card that is
    itself graduated, the candidates contain that card, and the review
    reactivates it: the card comes out due at once, although the call
    reports an interval of one minute. *)
Theorem reactivation_candidates_contain_trigger :
  let st := ReactivationExamples.graduated_canonical in
  let st1 := store_after_card utc Examples.t0 Again (Some "grammar"%string) 0
               (heap st !!! 0%nat) st in
  let res :=
    processReview utc Examples.t0 Examples.rand0 "a" Again (Some "grammar"%string) st in
  cards_get "a" (cards st) = Some 0%nat
  /\ 0%nat ∈ _getGraduatedSiblings st1 (Some "g"%string)
  /\ graduated (heap st !!! 0%nat) = true
  /\ graduated (heap res.2 !!! 0%nat) = false
  /\ due (heap res.2 !!! 0%nat) = Examples.t0
  /\ r_intervalDisplay <$> res.1 = Some "1m"%string
  /\ r_nextDue <$> res.1 = Some Examples.t0.
Proof.
  repeat split; try (vm_compute; reflexivity).
  apply elem_of_getGraduatedSiblings. split; [vm_compute; reflexivity |].
  apply elem_of_getSiblingCards. exists "g"%string, "a"%string.
  repeat split; try discriminate; try (vm_compute; reflexivity).
  apply list_elem_of_here.
Qed.

Lemma nextReviewStability_nondecreasing_witness :
  (1 <= 5 <= 10)%R /\ (0 < 20)%R /\ (0 <= 1 / 2 <= 1)%R
  /\ (20 <= nextReviewStability default_params 5 20 (1 / 2) Good)%R.
Proof.
  assert (H1 : (1 <= 5 <= 10)%R) by lra.
  assert (H2 : (0 < 20)%R) by lra.
  assert (H3 : (0 <= 1 / 2 <= 1)%R) by lra.
  repeat split; try lra.
  exact (nextReviewStability_nondecreasing 5 20 (1 / 2) Good H1 H2 H3
           (or_intror (or_introl eq_refl))).
Defined.

(** ** Stores built by [initializeCards] are well-formed *)

Lemma cards_get_None k cs : cards_get k cs = None <-> k ∉ cs.*1.
Proof.
  induction cs as [| [k' l'] cs IH]; simpl.
  - split; [intros _ H; inversion H | reflexivity].
  - case_decide as Hk.
    + split; [discriminate |]. intros H. exfalso. apply H. subst. apply list_elem_of_here.
    + rewrite IH, not_elem_of_cons. split; [intros H; split; [congruence | exact H] | tauto].
Qed.

Lemma cards_set_fresh k l cs : cards_get k cs = None -> cards_set k l cs = cs ++ [(k, l)].
Proof.
  induction cs as [| [k' l'] cs IH]; simpl; [reflexivity |].
  case_decide; [discriminate |]. intros Hget. rewrite IH by exact Hget. reflexivity.
Qed.

Lemma wf_initial : wf initial.
Proof.
  unfold wf. simpl. repeat split; try constructor. intros k l H. inversion H.
Qed.

Lemma has_member_false k cs :
  has_member k cs = false <-> cards_get k cs = None /\ ~ inherited_name k.
Proof.
  unfold has_member. rewrite bool_decide_eq_false. split.
  - intros H. split; [| tauto].
    destruct (cards_get k cs) eqn:Hget; [| reflexivity].
    exfalso. apply H. left. eauto.
  - intros [Hget Hn] [[l Hl] | Hi]; [congruence | contradiction].
Qed.

Lemma wf_add_card now st s : wf st -> wf (add_card now st s).
Proof.
  intros (Hk & Hr & Hid). unfold add_card.
  destruct (has_member (s_id s) (cards st)) eqn:Hmem; [repeat split; assumption |].
  apply has_member_false in Hmem as [Hget _].
  unfold wf. simpl. rewrite cards_set_fresh by exact Hget.
  rewrite !fmap_app. simpl. split; [| split].
  - apply NoDup_app. split; [exact Hk |]. split; [| apply NoDup_singleton].
    intros k Hin Hin'. apply list_elem_of_singleton in Hin'. subst k.
    apply cards_get_None in Hget. contradiction.
  - apply NoDup_app. split; [exact Hr |]. split; [| apply NoDup_singleton].
    intros l Hin Hin'. apply list_elem_of_singleton in Hin'. subst l.
    apply list_elem_of_fmap in Hin as ([k l] & Hl & Hin). simpl in Hl.
    destruct (Hid k l Hin) as (c & Hc & _). apply lookup_lt_Some in Hc. lia.
  - intros k l Hin. apply elem_of_app in Hin as [Hin | Hin].
    + destruct (Hid k l Hin) as (c & Hc & Hkc). exists c.
      rewrite lookup_app_l by (eapply lookup_lt_Some, Hc). auto.
    + apply list_elem_of_singleton in Hin. injection Hin as -> ->.
      eexists. rewrite lookup_app_r, Nat.sub_diag by lia. split; reflexivity.
Qed.

Lemma wf_initializeCards now sentences st : wf st -> wf (initializeCards now sentences st).
Proof.
  unfold initializeCards.
  generalize (js_sort (fun a b => (s_commonality b - s_commonality a)%Q) sentences).
  intros l. revert st. induction l as [| s l IH]; intros st Hwf; [exact Hwf |].
  simpl. apply IH, wf_add_card, Hwf.
Qed.

Lemma wf_loadDrillMeta drills st : wf st -> wf (loadDrillMeta drills st).
Proof.
  destruct drills as [ds |]; [| intros H; exact H]. simpl.
  revert st. induction ds as [| d ds IH]; intros st Hwf; [exact Hwf |].
  simpl. apply IH. exact Hwf.
Qed.

(** ** The test properties of the specification, run on the model *)

Lemma initDifficulty_default_Easy : initDifficulty default_params Easy = 3.99%R.
Proof.
  unfold initDifficulty, clamp_1_10, wi. simpl.
  unfold Rmax, Rmin. repeat destruct (Rle_dec _ _); lra.
Qed.

(** Step monotonicity: Good twice takes a New card through Learning (step 1,
    due in 10 minutes) to Review (due in one day); Again first resets the
    step to 0 and schedules one minute ahead. *)
Example step_monotonicity :
  let c1 := heap SpecExamples.good1 !!! 0%nat in
  let c2 := heap SpecExamples.good2 !!! 0%nat in
  let c3 := heap SpecExamples.again1 !!! 0%nat in
  state (heap SpecExamples.loaded !!! 0%nat) = New
  /\ (state c1, learning_step c1, due c1)
     = (Learning, 1%nat, Examples.t0 + 10 * minute_ms)
  /\ (state c2, due c2) = (Review, Examples.t0 + 10 * minute_ms + day_ms)
  /\ (state c3, learning_step c3, due c3) = (Learning, 0%nat, Examples.t0 + minute_ms).
Proof. vm_compute. repeat split; reflexivity. Qed.

(** Easy fast-path: a New card graded Easy goes to Review with stability
    5.8, difficulty 3.99 and is due in 4 days. *)
Example easy_fast_path :
  let c := heap SpecExamples.easy1 !!! 0%nat in
  state c = Review /\ stability c = 5.8%R /\ difficulty c = 3.99%R
  /\ due c = Examples.t0 + 4 * day_ms.
Proof.
  split; [vm_compute; reflexivity |]. split; [reflexivity |].
  split; [| vm_compute; reflexivity].
  rewrite <- initDifficulty_default_Easy. reflexivity.
Qed.

(** Lapse path: a Review card graded Again has one lapse more, is in
    Relearning at step 0 and is due in one minute. *)
Example lapse_path :
  let c := heap SpecExamples.easy1 !!! 0%nat in
  let c' := heap SpecExamples.lapse !!! 0%nat in
  state c = Review
  /\ (lapses c', state c', learning_step c', due c')
     = (S (lapses c), Relearning, 0%nat, Examples.t0 + 5 * day_ms + minute_ms).
Proof. vm_compute. split; reflexivity. Qed.

(** Queue ordering: the New card of commonality 0.8 comes before the New
    card of commonality 0.5, and both before the card in Review that is
    overdue, whatever the order of insertion. *)
Example queue_ordering :
  cards SpecExamples.easy1 = [("a"%string, 0); ("c"%string, 1); ("b"%string, 2)]%nat
  /\ state (heap SpecExamples.easy1 !!! 0%nat) = Review
  /\ (buildSessionQueue (Examples.t0 + 5 * day_ms) None SpecExamples.easy1).1
     = [1; 2; 0]%nat.
Proof. vm_compute. repeat split; reflexivity. Qed.

(** * Further properties of the scheduler *)

(** ** The forgetting curve *)

(** X1.  For an elapsed time that is not negative the retrievability lies
    in [0, 1]; it is 1 when no time has elapsed since the review of a card
    with a positive stability, and 0 for a stability that is not
    positive. *)
Theorem retrievability_range (t s : R) :
  (0 <= t)%R ->
  (0 <= retrievability t s <= 1)%R
  /\ ((0 < s)%R -> retrievability 0 s = 1%R)
  /\ ((s <= 0)%R -> retrievability t s = 0%R).
Proof.
  intros Ht. unfold retrievability.
  destruct (Rle_dec s 0) as [H | H].
  - split; [lra |]. split; [intros; lra | reflexivity].
  - assert (H9 : (0 < 9 * s)%R) by lra.
    assert (Hq : (0 <= t / (9 * s))%R).
    { unfold Rdiv. apply Rmult_le_pos; [exact Ht |]. left. apply Rinv_0_lt_compat, H9. }
    split; [split |].
    + left. apply Rinv_0_lt_compat. lra.
    + rewrite <- Rinv_1. apply Rinv_le_contravar; lra.
    + split; [| intros; lra].
      intros _. unfold Rdiv. rewrite Rmult_0_l, Rplus_0_r. apply Rinv_1.
Qed.

Lemma retrievability_range_witness :
  (0 <= 5)%R
  /\ (0 <= retrievability 5 20 <= 1)%R /\ retrievability 0 20 = 1%R.
Proof.
  assert (H2 : (0 <= 5)%R) by lra.
  split; [exact H2 |].
  destruct (retrievability_range 5 20 H2) as (Hr & _).
  split; [exact Hr |].
  assert (H0 : (0 <= 0)%R) by lra.
  apply (proj1 (proj2 (retrievability_range 0 20 H0))). lra.
Defined.

(** X2.  For a positive stability the retrievability does not grow with the
    elapsed time. *)
Theorem retrievability_decreases (t t' s : R) :
  (0 < s)%R -> (0 <= t <= t')%R ->
  (retrievability t' s <= retrievability t s)%R.
Proof.
  intros Hs [Ht Htt]. unfold retrievability.
  destruct (Rle_dec s 0) as [H | _]; [lra |].
  assert (H9 : (0 < / (9 * s))%R) by (apply Rinv_0_lt_compat; lra).
  assert (Hq : (0 <= t / (9 * s))%R) by (unfold Rdiv; apply Rmult_le_pos; lra).
  assert (Hqq : (t / (9 * s) <= t' / (9 * s))%R).
  { unfold Rdiv. apply Rmult_le_compat_r; lra. }
  apply Rinv_le_contravar; lra.
Qed.

Lemma retrievability_decreases_witness :
  (0 < 20)%R /\ (0 <= 5 <= 9)%R /\ (retrievability 9 20 <= retrievability 5 20)%R.
Proof.
  assert (H1 : (0 < 20)%R) by lra. assert (H2 : (0 <= 5 <= 9)%R) by lra.
  split; [exact H1 |]. split; [exact H2 |].
  exact (retrievability_decreases 5 9 20 H1 H2).
Defined.

(** ** Intervals *)

Lemma js_round_near (x : R) : (x - / 2 < IZR (js_round x) <= x + / 2)%R.
Proof.
  unfold js_round. rewrite minus_IZR.
  destruct (archimed (x + / 2)) as [H1 H2]. lra.
Qed.

Lemma js_round_mono (x y : R) : (x <= y)%R -> js_round x <= js_round y.
Proof.
  intros Hxy.
  pose proof (js_round_near x) as [_ Hx]. pose proof (js_round_near y) as [Hy _].
  assert (H : (IZR (js_round x) < IZR (js_round y + 1))%R).
  { rewrite plus_IZR. lra. }
  apply lt_IZR in H. lia.
Qed.

(** X4.  For a request retention in (0, 1] a larger positive stability never
    gets a shorter interval. *)
Theorem nextInterval_monotone (p : Params) (s s' : R) :
  (0 < requestRetention p <= 1)%R -> (0 < s <= s')%R ->
  nextInterval p s <= nextInterval p s'.
Proof.
  intros [Hr0 Hr1] [Hs Hss]. unfold nextInterval, nextInterval_at.
  destruct (Rle_dec s 0) as [H | _]; [lra |].
  destruct (Rle_dec s' 0) as [H | _]; [lra |].
  apply js_round_mono.
  assert (H1 : (1 <= 1 / requestRetention p)%R).
  { pose proof (Rinv_le_contravar _ _ Hr0 Hr1) as Hinv.
    rewrite Rinv_1 in Hinv. lra. }
  apply Rmult_le_compat_r; lra.
Qed.

Lemma nextInterval_monotone_witness :
  (0 < requestRetention default_params <= 1)%R /\ (0 < 3 <= 20)%R
  /\ nextInterval default_params 3 <= nextInterval default_params 20.
Proof.
  assert (H1 : (0 < requestRetention default_params <= 1)%R) by (simpl; lra).
  assert (H2 : (0 < 3 <= 20)%R) by lra.
  split; [exact H1 |]. split; [exact H2 |].
  exact (nextInterval_monotone default_params 3 20 H1 H2).
Defined.

(** ** Difficulty *)

Lemma clamp_1_10_mono (x y : R) : (x <= y)%R -> (clamp_1_10 x <= clamp_1_10 y)%R.
Proof.
  intros H. unfold clamp_1_10, Rmax, Rmin.
  repeat destruct (Rle_dec _ _); lra.
Qed.

Lemma clamp_1_10_id (x : R) : (1 <= x <= 10)%R -> clamp_1_10 x = x.
Proof.
  intros H. unfold clamp_1_10, Rmax, Rmin.
  repeat destruct (Rle_dec _ _); lra.
Qed.

Lemma initDifficulty_default_Good : initDifficulty default_params Good = 4.93%R.
Proof.
  unfold initDifficulty, wi. simpl.
  rewrite clamp_1_10_id; lra.
Qed.

(** X5.  With the default weights, a better grade never gives a higher next
    difficulty: Easy <= Good <= Hard <= Again, whatever the difficulty
    before. *)
Theorem nextDifficulty_ordered_by_grade (d : R) :
  (nextDifficulty default_params d Easy <= nextDifficulty default_params d Good)%R
  /\ (nextDifficulty default_params d Good <= nextDifficulty default_params d Hard)%R
  /\ (nextDifficulty default_params d Hard <= nextDifficulty default_params d Again)%R.
Proof.
  unfold nextDifficulty. rewrite initDifficulty_default_Good.
  unfold wi. simpl. repeat split; apply clamp_1_10_mono; lra.
Qed.

(** X6.  With the default weights, a Good grade moves a difficulty in
    [1, 10] toward the default difficulty 4.93 and never past it. *)
Theorem nextDifficulty_Good_reverts_to_mean (d : R) :
  (1 <= d <= 10)%R ->
  (Rmin d 4.93 <= nextDifficulty default_params d Good <= Rmax d 4.93)%R.
Proof.
  intros Hd. unfold nextDifficulty. rewrite initDifficulty_default_Good.
  unfold wi. simpl. rewrite clamp_1_10_id by lra.
  unfold Rmin, Rmax. repeat destruct (Rle_dec _ _); lra.
Qed.

Lemma nextDifficulty_Good_reverts_to_mean_witness :
  (1 <= 8 <= 10)%R
  /\ (Rmin 8 4.93 <= nextDifficulty default_params 8 Good <= Rmax 8 4.93)%R.
Proof.
  assert (H : (1 <= 8 <= 10)%R) by lra.
  split; [exact H |]. exact (nextDifficulty_Good_reverts_to_mean 8 H).
Defined.

(** ** Ratings from errors *)

(** X7.  [errorToRating] never answers Easy; it answers Good exactly when
    there is no error; three or more errors give Again; and a single
    spelling error gives Hard whatever its subtype. *)
Theorem errorToRating_cases (errors : option (list ErrorInfo)) :
  errorToRating errors <> Easy
  /\ (errorToRating errors = Good <-> errors = None \/ errors = Some [])
  /\ (forall errs, errors = Some errs -> (3 <= length errs)%nat ->
                   errorToRating errors = Again)
  /\ (forall sub, errors = Some [ {| e_type := "spelling"; e_subtype := sub |} ] ->
                  errorToRating errors = Hard).
Proof.
  destruct errors as [[| primary rest] |].
  - split; [discriminate |]. split; [split; auto |].
    split; [intros errs [= <-] H; simpl in H; lia | intros sub H; discriminate].
  - split; [| split; [| split]].
    + destruct rest as [| e2 [| e3 rest]]; simpl;
        repeat case_decide; discriminate.
    + split; [| intros [H | H]; discriminate].
      destruct rest as [| e2 [| e3 rest]]; simpl;
        repeat case_decide; discriminate.
    + intros errs [= <-] Hlen. simpl in Hlen.
      destruct rest as [| e2 [| e3 rest]]; simpl in *; try lia. reflexivity.
    + intros sub [= -> ->]. simpl. case_decide; reflexivity.
  - split; [discriminate |]. split; [split; auto |].
    split; [intros errs H; discriminate | intros sub H; discriminate].
Qed.

(** ** The reviewed card after a review *)

Lemma checkReactivation_active_cell {tz : Zone} now rand k st s :
  graduated (heap st !!! s) = false ->
  heap (_checkReactivation tz now rand k st) !! s = heap st !! s.
Proof.
  intros Hs. unfold _checkReactivation.
  repeat case_match; simpl; try reflexivity.
  apply reactivate_all_notin. intros Hin.
  apply shuffle_take_elem_of, elem_of_getGraduatedSiblings in Hin as [Hg _].
  congruence.
Qed.

Lemma checkGraduation_below_Good now rand l g st :
  rating_num g < rating_num Good -> _checkGraduation now rand l g st = st.
Proof.
  intros H. unfold _checkGraduation. apply Z.ltb_lt in H. rewrite H. reflexivity.
Qed.

(** After [processReview] the reviewed object holds what the review wrote
    to it, possibly marked graduated; on Again this needs the card not to
    be a graduated one, which the reactivation check would overwrite. *)
Lemma processReview_reviewed_cell {tz : Zone} now rand cardId grade errorInfo st l card :
  cards_get cardId (cards st) = Some l -> heap st !! l = Some card ->
  (grade = Again -> graduated card = false) ->
  let c1 := (review_card tz (params st) now grade errorInfo card).1.1 in
  let st' := (processReview tz now rand cardId grade errorInfo st).2 in
  heap st' !! l = Some c1 \/ heap st' !! l = Some (graduate now c1).
Proof.
  intros Hk Hl Hgrad c1 st'. subst st'.
  rewrite (processReview_store _ _ _ _ _ _ _ _ Hk Hl).
  pose proof (store_after_card_lookup (tz := tz) now grade errorInfo l card st Hl) as H1.
  case_decide as Hg.
  - subst grade. rewrite checkGraduation_below_Good by (simpl; lia).
    left. rewrite checkReactivation_active_cell; [exact H1 |].
    rewrite (list_lookup_total_correct _ _ _ H1), review_card_graduated. auto.
  - apply checkGraduation_self, H1.
Qed.

Lemma apply_grade_keeps p el g c :
  let c' := (apply_grade p el g c).1.1 in
  id c' = id c /\ pos_pattern c' = pos_pattern c /\ commonality c' = commonality c
  /\ unit c' = unit c /\ reps c' = reps c /\ last_review c' = last_review c
  /\ consecutive_correct c' = consecutive_correct c
  /\ error_history c' = error_history c /\ graduated c' = graduated c
  /\ graduation_date c' = graduation_date c
  /\ lapses c' = (if decide (state c = Review /\ g = Again) then S (lapses c) else lapses c).
Proof.
  unfold apply_grade.
  destruct (state c) eqn:Hs, g; simpl; repeat case_match; simpl;
    repeat split; try reflexivity; try lia.
Qed.

Lemma review_card_keeps {tz : Zone} p now g e c :
  let c' := (review_card tz p now g e c).1.1 in
  id c' = id c /\ pos_pattern c' = pos_pattern c /\ commonality c' = commonality c
  /\ unit c' = unit c /\ reps c' = S (reps c) /\ last_review c' = Some now
  /\ elapsed_days c'
     = (inject_Z (now - default now (last_review c)) / inject_Z day_ms)%Q
  /\ consecutive_correct c'
     = (if rating_num Good <=? rating_num g then S (consecutive_correct c) else 0%nat)
  /\ graduated c' = graduated c /\ graduation_date c' = graduation_date c
  /\ lapses c' = (if decide (state c = Review /\ g = Again) then S (lapses c) else lapses c).
Proof.
  unfold review_card.
  pose proof (apply_grade_keeps p
                (inject_Z (now - default now (last_review c)) / inject_Z day_ms)%Q
                g (record_error now e c)) as H.
  destruct (apply_grade p _ g (record_error now e c)) as [[c' m] d]. simpl in H.
  destruct H as (H1 & H2 & H3 & H4 & H5 & H6 & H7 & H8 & H9 & H10 & H11).
  rewrite record_error_state in H11.
  unfold update_streak, schedule_due. cbn [fst snd].
  destruct (0 <? m), (rating_num Good <=? rating_num g), e; simpl in *;
    repeat split; try congruence; try lia.
Qed.

(** X8.  Every review of an existing card adds exactly one to its [reps],
    stamps [last_review] with the time of the review, records the elapsed
    days since the previous review, extends the streak of correct answers
    on Good or Easy and clears it on Again or Hard, and adds one lapse
    exactly when a card in Review is graded Again; the card keeps its [id],
    [pos_pattern], [commonality] and [unit]. *)
Theorem review_bookkeeping (tz : Zone) (now : Z) (rand : nat -> Q) (cardId : string)
    (grade : Rating) (errorInfo : option string) (st : Scheduler) (l : Ref) (card : Card) :
  cards_get cardId (cards st) = Some l -> heap st !! l = Some card ->
  holds_at
    (fun c' =>
       reps c' = S (reps card) /\ last_review c' = Some now
       /\ elapsed_days c'
          = (inject_Z (now - default now (last_review card)) / inject_Z day_ms)%Q
       /\ consecutive_correct c'
          = (if rating_num Good <=? rating_num grade
             then S (consecutive_correct card) else 0%nat)
       /\ lapses c'
          = (if decide (state card = Review /\ grade = Again)
             then S (lapses card) else lapses card)
       /\ id c' = id card /\ pos_pattern c' = pos_pattern card
       /\ commonality c' = commonality card /\ unit c' = unit card)
    (heap (processReview tz now rand cardId grade errorInfo st).2) l.
Proof.
  intros Hk Hl.
  pose proof (review_card_keeps (tz := tz) (params st) now grade errorInfo card)
    as (H1 & H2 & H3 & H4 & H5 & H6 & H7 & H8 & H9 & H10 & H11).
  destruct (decide (grade = Again)) as [-> | Hg].
  - apply processReview_holds_at with (card := card); try assumption.
    + intros c Hc. exact Hc.
    + intros c (A1 & A2 & A3 & A4 & A5 & A6 & A7 & A8 & A9).
      simpl in *. repeat split; assumption || reflexivity.
    + intros c (A1 & A2 & A3 & A4 & A5 & A6 & A7 & A8 & A9).
      simpl in *. repeat split; assumption || reflexivity.
    + simpl in *. repeat split; assumption.
  - destruct (processReview_reviewed_cell (tz := tz) now rand cardId grade errorInfo st l card Hk Hl)
      as [H | H]; [congruence | |]; eexists; (split; [exact H |]);
      simpl; repeat split; assumption.
Qed.

Lemma review_bookkeeping_witness :
  let st := ExampleStores.group_store in
  cards_get "c" (cards st) = Some 2%nat
  /\ holds_at
       (fun c' => reps c' = 7%nat /\ consecutive_correct c' = 0%nat /\ lapses c' = 1%nat)
       (heap (processReview utc Examples.t0 Examples.rand0 "c" Again None st).2) 2.
Proof.
  split; [reflexivity |].
  destruct (review_bookkeeping utc Examples.t0 Examples.rand0 "c" Again None
              ExampleStores.group_store 2 _ eq_refl eq_refl)
    as (c' & Hc & H1 & _ & _ & H4 & H5 & _).
  exists c'. split; [exact Hc |]. split; [exact H1 |]. split; [exact H4 | exact H5].
Defined.

(** ** The four paths of the state machine *)

Lemma apply_grade_again_learning p el c :
  state c = New \/ state c = Learning \/ state c = Relearning ->
  apply_grade p el Again c =
    (set_state (if decide (state c = New) then Learning else Relearning)
       (set_learning_step 0 c),
     nth 0 (active_steps p c) 0, 0).
Proof.
  intros Hs. unfold apply_grade, active_steps.
  rewrite decide_True by exact Hs. reflexivity.
Qed.

Lemma apply_grade_easy_learning p el c :
  state c = New \/ state c = Learning \/ state c = Relearning ->
  apply_grade p el Easy c =
    (set_difficulty (initDifficulty p Easy)
       (set_stability (initStability p Easy)
          (set_learning_step 0 (set_state Review c))),
     0, easyInterval p).
Proof.
  intros Hs. unfold apply_grade. rewrite decide_True by exact Hs. reflexivity.
Qed.

Lemma apply_grade_review p el g c :
  state c = Review ->
  apply_grade p el g c =
    let r := retrievability (Q2R el) (stability c) in
    if decide (g = Again) then
      (set_learning_step 0
         (set_state Relearning
            (set_lapses (lapses c + 1)
               (set_stability (nextForgetStability p (difficulty c) (stability c) r) c))),
       nth 0 (relearningSteps p) 0, 0)
    else
      (set_difficulty (nextDifficulty p (difficulty c) g)
         (set_stability (nextReviewStability p (difficulty c) (stability c) r g) c),
       0,
       Z.min (nextInterval p (nextReviewStability p (difficulty c) (stability c) r g))
         (maximumInterval p)).
Proof.
  intros Hs. unfold apply_grade.
  rewrite decide_False by (rewrite Hs; intros [? | [? | ?]]; discriminate).
  reflexivity.
Qed.

Lemma schedule_due_fields {tz : Zone} now el m d c :
  let c' := schedule_due tz now el m d c in
  state c' = state c /\ learning_step c' = learning_step c
  /\ stability c' = stability c /\ difficulty c' = difficulty c
  /\ lapses c' = lapses c
  /\ scheduled_days c'
     = (if 0 <? m then inject_Z m / inject_Z (60 * 24) else inject_Z d)%Q.
Proof. unfold schedule_due. destruct (0 <? m); repeat split; reflexivity. Qed.

Lemma update_streak_fields g c :
  let c' := update_streak g c in
  state c' = state c /\ learning_step c' = learning_step c
  /\ stability c' = stability c /\ difficulty c' = difficulty c
  /\ lapses c' = lapses c /\ scheduled_days c' = scheduled_days c.
Proof. unfold update_streak. case_match; repeat split; reflexivity. Qed.

Lemma record_error_fields now e c :
  let c' := record_error now e c in
  stability c' = stability c /\ difficulty c' = difficulty c /\ lapses c' = lapses c.
Proof. destruct e; repeat split; reflexivity. Qed.

(** The fields the state machine decides, read off the result of
    [apply_grade]. *)
Lemma review_card_fields {tz : Zone} p now g e c :
  let el := (inject_Z (now - default now (last_review c)) / inject_Z day_ms)%Q in
  let a := apply_grade p el g (record_error now e c) in
  let c' := (review_card tz p now g e c).1.1 in
  state c' = state a.1.1 /\ learning_step c' = learning_step a.1.1
  /\ stability c' = stability a.1.1 /\ difficulty c' = difficulty a.1.1
  /\ scheduled_days c'
     = (if 0 <? a.1.2 then inject_Z a.1.2 / inject_Z (60 * 24) else inject_Z a.2)%Q
  /\ due c' = (if 0 <? a.1.2 then add_minutes tz now a.1.2 else add_days tz now a.2).
Proof.
  intros el a c'. subst c'. unfold review_card. fold el. fold a.
  destruct a as [[c1 m] d]. cbn [fst snd].
  pose proof (update_streak_fields g (schedule_due tz now el m d c1))
    as (-> & -> & -> & -> & _ & ->).
  pose proof (schedule_due_fields now el m d c1) as (-> & -> & -> & -> & _ & ->).
  rewrite update_streak_due, schedule_due_due. repeat split; reflexivity.
Qed.

(** X9.  Again on a card in New, Learning or Relearning (not graduated,
    first step not negative) sends it back to step 0 and makes it due at
    the time of the review moved on by [steps[0]] minutes of local time; a
    New card goes to Learning and a Learning or Relearning card to
    Relearning; stability and difficulty are not touched. *)
Theorem again_in_learning (tz : Zone) (now : Z) (rand : nat -> Q) (cardId : string)
    (errorInfo : option string) (st : Scheduler) (l : Ref) (card : Card) :
  cards_get cardId (cards st) = Some l -> heap st !! l = Some card ->
  state card = New \/ state card = Learning \/ state card = Relearning ->
  graduated card = false ->
  0 <= nth 0 (active_steps (params st) card) 0 ->
  holds_at
    (fun c' =>
       state c' = (if decide (state card = New) then Learning else Relearning)
       /\ learning_step c' = 0%nat
       /\ stability c' = stability card /\ difficulty c' = difficulty card
       /\ due c' = add_minutes tz now (nth 0 (active_steps (params st) card) 0))
    (heap (processReview tz now rand cardId Again errorInfo st).2) l.
Proof.
  intros Hk Hl Hs Hg Hstep.
  pose proof (review_card_fields (tz := tz) (params st) now Again errorInfo card) as H.
  cbn zeta in H.
  rewrite apply_grade_again_learning in H by (rewrite record_error_state; exact Hs).
  unfold active_steps in H. rewrite !record_error_state in H.
  fold (active_steps (params st) card) in H. cbn [fst snd] in H.
  destruct (record_error_fields now errorInfo card) as (Hst & Hdf & _).
  destruct H as (H1 & H2 & H3 & H4 & _ & H6).
  simpl in H1, H2, H3, H4. rewrite Hst in H3. rewrite Hdf in H4.
  assert (H6' : due (review_card tz (params st) now Again errorInfo card).1.1
                = add_minutes tz now (nth 0 (active_steps (params st) card) 0)).
  { rewrite H6. destruct (Z.ltb_spec 0 (nth 0 (active_steps (params st) card) 0));
      [reflexivity |].
    replace (nth 0 (active_steps (params st) card) 0) with 0 by lia. reflexivity. }
  destruct (processReview_reviewed_cell (tz := tz) now rand cardId Again errorInfo st l card Hk Hl)
    as [H | H]; [auto | |]; eexists; (split; [exact H |]);
    simpl; repeat split; assumption.
Qed.

Lemma again_in_learning_witness :
  let st := SpecExamples.good1 in
  cards_get "a" (cards st) = Some 0%nat
  /\ state (heap st !!! 0%nat) = Learning
  /\ holds_at
       (fun c' => state c' = Relearning /\ learning_step c' = 0%nat
                  /\ due c' = Examples.t0 + 10 * minute_ms + 1 * minute_ms)
       (heap (processReview utc (Examples.t0 + 10 * minute_ms) Examples.rand0 "a" Again None
                st).2) 0.
Proof.
  split; [reflexivity |]. split; [vm_compute; reflexivity |].
  assert (Hl : heap SpecExamples.good1 !! 0%nat = Some (heap SpecExamples.good1 !!! 0%nat))
    by (vm_compute; reflexivity).
  destruct (again_in_learning utc (Examples.t0 + 10 * minute_ms) Examples.rand0 "a" None
              SpecExamples.good1 0 _ eq_refl Hl)
    as (c' & Hc & H1 & H2 & _ & _ & H5).
  - right; left. vm_compute. reflexivity.
  - vm_compute. reflexivity.
  - vm_compute. discriminate.
  - exists c'. split; [exact Hc |]. split; [exact H1 |]. split; [exact H2 | exact H5].
Defined.

(** X10.  Easy on a card in New, Learning or Relearning takes it straight to
    Review at step 0 with stability [initStability(Easy)], difficulty
    [initDifficulty(Easy)], a scheduled interval of [easyInterval] days and
    the due date at the time of the review moved on by that many days of
    local time. *)
Theorem easy_in_learning (tz : Zone) (now : Z) (rand : nat -> Q) (cardId : string)
    (errorInfo : option string) (st : Scheduler) (l : Ref) (card : Card) :
  cards_get cardId (cards st) = Some l -> heap st !! l = Some card ->
  state card = New \/ state card = Learning \/ state card = Relearning ->
  holds_at
    (fun c' =>
       state c' = Review /\ learning_step c' = 0%nat
       /\ stability c' = initStability (params st) Easy
       /\ difficulty c' = initDifficulty (params st) Easy
       /\ scheduled_days c' = inject_Z (easyInterval (params st))
       /\ due c' = add_days tz now (easyInterval (params st)))
    (heap (processReview tz now rand cardId Easy errorInfo st).2) l.
Proof.
  intros Hk Hl Hs.
  pose proof (review_card_fields (tz := tz) (params st) now Easy errorInfo card) as H.
  cbn zeta in H.
  rewrite apply_grade_easy_learning in H by (rewrite record_error_state; exact Hs).
  cbn [fst snd] in H. destruct H as (H1 & H2 & H3 & H4 & H5 & H6).
  simpl in H1, H2, H3, H4, H5, H6.
  destruct (processReview_reviewed_cell (tz := tz) now rand cardId Easy errorInfo st l card Hk Hl)
    as [H | H]; [discriminate | |]; eexists; (split; [exact H |]);
    simpl; repeat split; assumption.
Qed.

Lemma easy_in_learning_witness :
  let st := SpecExamples.loaded in
  cards_get "a" (cards st) = Some 0%nat
  /\ (state (heap st !!! 0%nat) = New \/ state (heap st !!! 0%nat) = Learning
      \/ state (heap st !!! 0%nat) = Relearning)
  /\ holds_at
       (fun c' => state c' = Review /\ due c' = Examples.t0 + 4 * day_ms)
       (heap (processReview utc Examples.t0 Examples.rand0 "a" Easy None st).2) 0.
Proof.
  assert (Hl : heap SpecExamples.loaded !! 0%nat = Some (heap SpecExamples.loaded !!! 0%nat))
    by (vm_compute; reflexivity).
  assert (Hs : state (heap SpecExamples.loaded !!! 0%nat) = New
               \/ state (heap SpecExamples.loaded !!! 0%nat) = Learning
               \/ state (heap SpecExamples.loaded !!! 0%nat) = Relearning)
    by (left; vm_compute; reflexivity).
  split; [reflexivity |]. split; [exact Hs |].
  destruct (easy_in_learning utc Examples.t0 Examples.rand0 "a" None
              SpecExamples.loaded 0 _ eq_refl Hl Hs)
    as (c' & Hc & H1 & _ & _ & _ & _ & H6).
  exists c'. split; [exact Hc |]. split; [exact H1 | exact H6].
Defined.

(** X11.  Again on a card in Review (not graduated, first relearning step
    not negative) counts one lapse, moves the card to Relearning at step 0
    and makes it due at the time of the review moved on by
    [relearningSteps[0]] minutes of local time, whatever its stability was;
    the difficulty is not touched. *)
Theorem lapse_in_review (tz : Zone) (now : Z) (rand : nat -> Q) (cardId : string)
    (errorInfo : option string) (st : Scheduler) (l : Ref) (card : Card) :
  cards_get cardId (cards st) = Some l -> heap st !! l = Some card ->
  state card = Review -> graduated card = false ->
  0 <= nth 0 (relearningSteps (params st)) 0 ->
  holds_at
    (fun c' =>
       state c' = Relearning /\ learning_step c' = 0%nat
       /\ lapses c' = S (lapses card) /\ difficulty c' = difficulty card
       /\ due c' = add_minutes tz now (nth 0 (relearningSteps (params st)) 0))
    (heap (processReview tz now rand cardId Again errorInfo st).2) l.
Proof.
  intros Hk Hl Hs Hg Hstep.
  pose proof (review_card_fields (tz := tz) (params st) now Again errorInfo card) as H.
  cbn zeta in H.
  rewrite apply_grade_review in H by (rewrite record_error_state; exact Hs).
  cbn zeta in H. rewrite decide_True in H by reflexivity. cbn [fst snd] in H.
  destruct (record_error_fields now errorInfo card) as (_ & Hdf & _).
  destruct H as (H1 & H2 & _ & H4 & _ & H6).
  simpl in H1, H2, H4. rewrite Hdf in H4.
  pose proof (review_card_keeps (tz := tz) (params st) now Again errorInfo card)
    as (_ & _ & _ & _ & _ & _ & _ & _ & _ & _ & H11).
  rewrite decide_True in H11 by auto.
  assert (H6' : due (review_card tz (params st) now Again errorInfo card).1.1
                = add_minutes tz now (nth 0 (relearningSteps (params st)) 0)).
  { rewrite H6. destruct (Z.ltb_spec 0 (nth 0 (relearningSteps (params st)) 0));
      [reflexivity |].
    replace (nth 0 (relearningSteps (params st)) 0) with 0 by lia. reflexivity. }
  destruct (processReview_reviewed_cell (tz := tz) now rand cardId Again errorInfo st l card Hk Hl)
    as [H | H]; [auto | |]; eexists; (split; [exact H |]);
    simpl; repeat split; assumption.
Qed.

Lemma lapse_in_review_witness :
  let st := ExampleStores.group_store in
  cards_get "c" (cards st) = Some 2%nat
  /\ state (heap st !!! 2%nat) = Review /\ graduated (heap st !!! 2%nat) = false
  /\ holds_at
       (fun c' => state c' = Relearning /\ lapses c' = 1%nat
                  /\ due c' = Examples.t0 + 1 * minute_ms)
       (heap (processReview utc Examples.t0 Examples.rand0 "c" Again None st).2) 2.
Proof.
  split; [reflexivity |]. split; [reflexivity |]. split; [reflexivity |].
  destruct (lapse_in_review utc Examples.t0 Examples.rand0 "c" None
              ExampleStores.group_store 2 _ eq_refl eq_refl eq_refl eq_refl)
    as (c' & Hc & H1 & _ & H3 & _ & H5).
  - vm_compute. discriminate.
  - exists c'. split; [exact Hc |]. split; [exact H1 |]. split; [exact H3 | exact H5].
Defined.

Lemma elapsed_days_nonneg (now lr : Z) :
  lr <= now -> (0 <= Q2R (inject_Z (now - lr) / inject_Z day_ms))%R.
Proof.
  intros H. rewrite <- RMicromega.Q2R_0. apply Qle_Rle.
  unfold Qle, day_ms. simpl. lia.
Qed.

Lemma retrievability_unit_interval (t s : R) :
  (0 < s)%R -> (0 <= t)%R -> (0 <= retrievability t s <= 1)%R.
Proof.
  intros Hs Ht. unfold retrievability.
  destruct (Rle_dec s 0) as [H | _]; [lra |].
  assert (H9 : (0 < 9 * s)%R) by lra.
  assert (Hq : (0 <= t / (9 * s))%R).
  { unfold Rdiv. apply Rmult_le_pos; [exact Ht |]. left. apply Rinv_0_lt_compat, H9. }
  split.
  - left. apply Rinv_0_lt_compat. lra.
  - rewrite <- Rinv_1. apply Rinv_le_contravar; lra.
Qed.

(** X12.  With the default parameters, Hard, Good or Easy on a card in
    Review that has a positive stability, a difficulty in [1, 10] and was
    not reviewed in the future keeps it in Review without a lapse, does not
    lower its stability, keeps its difficulty in [1, 10], gives it a
    scheduled interval of a whole number of days between 0 and
    [maximumInterval], and makes it due at the time of the review moved on
    by that many days of local time; on a clock that is never set back this
    is not before the review. *)
Theorem success_in_review (tz : Zone) (now : Z) (rand : nat -> Q) (cardId : string)
    (grade : Rating) (errorInfo : option string) (st : Scheduler) (l : Ref) (card : Card) :
  cards_get cardId (cards st) = Some l -> heap st !! l = Some card ->
  params st = default_params ->
  state card = Review -> grade <> Again ->
  (0 < stability card)%R -> (1 <= difficulty card <= 10)%R ->
  default now (last_review card) <= now ->
  holds_at
    (fun c' =>
       state c' = Review /\ lapses c' = lapses card
       /\ (stability card <= stability c')%R
       /\ (1 <= difficulty c' <= 10)%R
       /\ (exists n, 0 <= n <= maximumInterval default_params
                     /\ scheduled_days c' = inject_Z n /\ due c' = add_days tz now n)
       /\ (forward tz -> now <= due c'))
    (heap (processReview tz now rand cardId grade errorInfo st).2) l.
Proof.
  intros Hk Hl Hp Hs Hg Hstab Hdiff Hlr.
  pose proof (review_card_fields (tz := tz) (params st) now grade errorInfo card) as H.
  cbn zeta in H.
  rewrite apply_grade_review in H by (rewrite record_error_state; exact Hs).
  cbn zeta in H. rewrite decide_False in H by exact Hg. cbn [fst snd] in H.
  destruct (record_error_fields now errorInfo card) as (Hst & Hdf & _).
  rewrite Hst, Hdf, Hp in H.
  destruct H as (H1 & _ & H3 & H4 & H5 & H6).
  simpl in H1, H3, H4, H5, H6. rewrite record_error_state, Hs in H1.
  pose proof (review_card_keeps (tz := tz) (params st) now grade errorInfo card)
    as (_ & _ & _ & _ & _ & _ & _ & _ & _ & _ & H11).
  rewrite decide_False in H11 by tauto.
  set (r := retrievability
              (Q2R (inject_Z (now - default now (last_review card)) / inject_Z day_ms))
              (stability card)) in *.
  assert (Hr : (0 <= r <= 1)%R).
  { apply retrievability_unit_interval; [exact Hstab |]. apply elapsed_days_nonneg, Hlr. }
  assert (Hgrow : (stability card
                   <= nextReviewStability default_params (difficulty card)
                        (stability card) r grade)%R).
  { pose proof (sinc_default_nonneg (difficulty card) (stability card) r grade
                  Hdiff Hr Hg) as Hsinc.
    unfold nextReviewStability. nra. }
  rewrite Hp in *.
  set (n := Z.min (nextInterval default_params
                     (nextReviewStability default_params (difficulty card)
                        (stability card) r grade)) 36500) in *.
  assert (Hn : 0 <= n <= maximumInterval default_params).
  { unfold n. simpl maximumInterval.
    pose proof (nextInterval_nonneg default_params
                  (nextReviewStability default_params (difficulty card)
                     (stability card) r grade)) as Hni.
    assert (0 <= nextInterval default_params
                   (nextReviewStability default_params (difficulty card)
                      (stability card) r grade)) by (apply Hni; simpl; lra).
    lia. }
  assert (Hint : exists n0, 0 <= n0 <= maximumInterval default_params
                   /\ scheduled_days (review_card tz default_params now grade
                                         errorInfo card).1.1 = inject_Z n0
                   /\ due (review_card tz default_params now grade errorInfo card).1.1
                      = add_days tz now n0).
  { exists n. split; [exact Hn |]. split; [exact H5 | exact H6]. }
  assert (Hnow : forward tz
                 -> now <= due (review_card tz default_params now grade errorInfo card).1.1).
  { intros Htz. apply review_card_due_not_before_now; [exact Htz | apply default_params_ok]. }
  assert (Hd' : (1 <= difficulty (review_card tz default_params now grade errorInfo card).1.1
                 <= 10)%R).
  { rewrite H4. apply clamp_1_10_bounds. }
  rewrite <- H3 in Hgrow.
  destruct (processReview_reviewed_cell (tz := tz) now rand cardId grade errorInfo st l card
              Hk Hl)
    as [H | H]; [congruence | |]; rewrite Hp in H; eexists; (split; [exact H |]);
    simpl; repeat split; try assumption; try apply Hd'.
Qed.

Lemma success_in_review_witness :
  let st := ExampleStores.group_store in
  cards_get "a" (cards st) = Some 0%nat
  /\ (0 < stability (heap st !!! 0%nat))%R
  /\ default Examples.t0 (last_review (heap st !!! 0%nat)) <= Examples.t0
  /\ holds_at
       (fun c' => state c' = Review /\ (20 <= stability c')%R /\ Examples.t0 <= due c')
       (heap (processReview utc Examples.t0 Examples.rand0 "a" Good None st).2) 0.
Proof.
  assert (H1 : (0 < stability (heap ExampleStores.group_store !!! 0%nat))%R)
    by (simpl; lra).
  assert (H2 : (1 <= difficulty (heap ExampleStores.group_store !!! 0%nat) <= 10)%R)
    by (simpl; lra).
  assert (H3 : default Examples.t0 (last_review (heap ExampleStores.group_store !!! 0%nat))
               <= Examples.t0) by (vm_compute; discriminate).
  split; [reflexivity |]. split; [exact H1 |]. split; [exact H3 |].
  destruct (success_in_review utc Examples.t0 Examples.rand0 "a" Good None
              ExampleStores.group_store 0 _ eq_refl eq_refl eq_refl eq_refl
              ltac:(discriminate) H1 H2 H3)
    as (c' & Hc & Hs & _ & Hst & _ & _ & Hdue).
  exists c'. split; [exact Hc |]. split; [exact Hs |]. split; [exact Hst |].
  apply Hdue, forward_fixed.
Defined.

(** ** What a review leaves alone *)

Lemma length_reactivate_all now (ls : list Ref) (h : list Card) :
  length (foldl (fun h s => alter (reactivate now) s h) h ls) = length h.
Proof.
  revert h. induction ls as [| s ls IH]; intros h; simpl; [reflexivity |].
  rewrite IH. apply length_alter.
Qed.

Lemma checkGraduation_length now rand l g st :
  length (heap (_checkGraduation now rand l g st)) = length (heap st).
Proof.
  destruct (checkGraduation_cases now rand l g st)
    as [-> | [(meta & nc & rest & _ & _ & _ & _ & _ & ->) | (meta & s & _ & _ & _ & _ & _ & ->)]];
    simpl; rewrite ?length_alter; reflexivity.
Qed.

Lemma checkReactivation_length {tz : Zone} now rand k st :
  length (heap (_checkReactivation tz now rand k st)) = length (heap st).
Proof.
  unfold _checkReactivation. repeat case_match; simpl; try reflexivity.
  apply length_reactivate_all.
Qed.

(** X13.  A review of an existing card adds no card and removes none, leaves
    the session queue and the parameters alone, records the card's pattern
    as [lastPattern], and counts one more review in the session, as correct
    on Good or Easy and as incorrect on Again or Hard. *)
Theorem review_session_effects (tz : Zone) (now : Z) (rand : nat -> Q) (cardId : string)
    (grade : Rating) (errorInfo : option string) (st : Scheduler) (l : Ref) (card : Card) :
  cards_get cardId (cards st) = Some l -> heap st !! l = Some card ->
  let st' := (processReview tz now rand cardId grade errorInfo st).2 in
  let s := sessionStats st in
  let s' := sessionStats st' in
  cards st' = cards st /\ length (heap st') = length (heap st)
  /\ sessionQueue st' = sessionQueue st /\ params st' = params st
  /\ lastPattern st' = Some (pos_pattern card)
  /\ reviewed s' = S (reviewed s)
  /\ (correct s', incorrect s')
     = (if rating_num Good <=? rating_num grade
        then (S (correct s), incorrect s) else (correct s, S (incorrect s)))
  /\ (reviewed s = (correct s + incorrect s)%nat ->
      reviewed s' = (correct s' + incorrect s')%nat).
Proof.
  intros Hk Hl st' s s'. subst st' s s'.
  rewrite (processReview_store _ _ _ _ _ _ _ _ Hk Hl).
  set (st1 := store_after_card tz now grade errorInfo l card st).
  destruct (checkGraduation_frame now rand l grade st1) as (G1 & G2 & G3 & G4 & G5 & _).
  pose proof (checkGraduation_length now rand l grade st1) as G6.
  assert (Hlen1 : length (heap st1) = length (heap st)).
  { unfold st1, store_after_card. simpl. apply length_insert. }
  assert (Hpat : lastPattern st1 = Some (pos_pattern card)).
  { unfold st1, store_after_card. simpl.
    pose proof (review_card_keeps (params st) now grade errorInfo card) as (_ & -> & _).
    reflexivity. }
  assert (Hst : sessionStats st1 = update_stats grade (sessionStats st)) by reflexivity.
  assert (Hfin : forall st2,
             cards st2 = cards st1 -> length (heap st2) = length (heap st1) ->
             sessionQueue st2 = sessionQueue st1 -> params st2 = params st1 ->
             lastPattern st2 = lastPattern st1 -> sessionStats st2 = sessionStats st1 ->
             cards st2 = cards st /\ length (heap st2) = length (heap st)
             /\ sessionQueue st2 = sessionQueue st /\ params st2 = params st
             /\ lastPattern st2 = Some (pos_pattern card)
             /\ reviewed (sessionStats st2) = S (reviewed (sessionStats st))
             /\ (correct (sessionStats st2), incorrect (sessionStats st2))
                = (if rating_num Good <=? rating_num grade
                   then (S (correct (sessionStats st)), incorrect (sessionStats st))
                   else (correct (sessionStats st), S (incorrect (sessionStats st))))
             /\ (reviewed (sessionStats st) =
                 (correct (sessionStats st) + incorrect (sessionStats st))%nat ->
                 reviewed (sessionStats st2) =
                 (correct (sessionStats st2) + incorrect (sessionStats st2))%nat)).
  { intros st2 E1 E2 E3 E4 E5 E6.
    rewrite E1, E2, E3, E4, E5, E6, Hlen1, Hpat, Hst. unfold update_stats.
    destruct (rating_num Good <=? rating_num grade); simpl;
      repeat split; try reflexivity; try lia; f_equal; lia. }
  case_decide.
  - destruct (checkReactivation_frame (tz := tz) now rand cardId
                (_checkGraduation now rand l grade st1)) as (R1 & R2 & _ & R4 & R5 & R6).
    apply Hfin; try congruence.
    rewrite checkReactivation_length. exact G6.
  - apply Hfin; assumption.
Qed.

Lemma review_session_effects_witness :
  let st := ExampleStores.group_store in
  let st' := (processReview utc Examples.t0 Examples.rand0 "a" Good None st).2 in
  cards_get "a" (cards st) = Some 0%nat
  /\ cards st' = cards st /\ lastPattern st' = Some "SVO"%string
  /\ reviewed (sessionStats st') = 1%nat.
Proof.
  split; [reflexivity |].
  destruct (review_session_effects utc Examples.t0 Examples.rand0 "a" Good None
              ExampleStores.group_store 0 _ eq_refl eq_refl)
    as (H1 & _ & _ & _ & H5 & H6 & _).
  split; [exact H1 |]. split; [exact H5 | exact H6].
Defined.

(** ** The error history *)

Lemma record_error_bounded now e c :
  (length (error_history c) <= 10)%nat ->
  (length (error_history (record_error now e c)) <= 10)%nat.
Proof.
  intros H. destruct e as [ty |]; simpl; [| exact H].
  destruct (Nat.ltb_spec 10 (length (error_history c ++ [{| err_type := ty; timestamp := now |}])))
    as [Hlt | Hge]; [| exact Hge].
  rewrite length_app in Hlt. simpl in Hlt.
  destruct (error_history c) as [| x h]; simpl in *; [lia |].
  rewrite length_app. simpl. lia.
Qed.

Lemma record_error_history now e c :
  (length (error_history c) <= 10)%nat ->
  error_history (record_error now e c) = history_after now e (error_history c).
Proof.
  intros H. destruct e as [ty |]; simpl; [| reflexivity].
  rewrite length_app. simpl.
  destruct (decide (length (error_history c) = 10%nat)) as [H10 | H10].
  - replace (10 <? length (error_history c) + 1)%nat with true
      by (symmetry; apply Nat.ltb_lt; lia).
    destruct (error_history c); [discriminate | reflexivity].
  - replace (10 <? length (error_history c) + 1)%nat with false
      by (symmetry; apply Nat.ltb_ge; lia).
    reflexivity.
Qed.

Section HeapForallReview.
Context {tz : Zone}.
Variable P : Card -> Prop.
Variable now : Z.
Hypothesis P_graduate : forall c, P c -> P (graduate now c).
Hypothesis P_promote : forall c, P c -> P (promote now c).
Hypothesis P_reactivate : forall c, P c -> P (reactivate now c).
Hypothesis P_review : forall p g e c, P c -> P (review_card tz p now g e c).1.1.

Lemma processReview_Forall rand cardId grade errorInfo st :
  Forall P (heap st) ->
  Forall P (heap (processReview tz now rand cardId grade errorInfo st).2).
Proof.
  intros H.
  destruct (cards_get cardId (cards st)) as [l |] eqn:Hk;
    [| unfold processReview; rewrite Hk; exact H].
  destruct (heap st !! l) as [card |] eqn:Hl;
    [| unfold processReview; rewrite Hk, Hl; exact H].
  rewrite (processReview_store _ _ _ _ _ _ _ _ Hk Hl).
  assert (H1 : Forall P (heap (store_after_card tz now grade errorInfo l card st))).
  { unfold store_after_card. simpl. apply Forall_insert; [exact H |].
    apply P_review. apply (Forall_lookup_1 _ _ _ _ H Hl). }
  case_decide.
  - apply checkReactivation_Forall; [assumption |].
    apply checkGraduation_Forall; assumption.
  - apply checkGraduation_Forall; assumption.
Qed.
End HeapForallReview.

(** X14.  The error history is a bounded log: if no card holds more than 10
    error records before a review, none does after it.  A review that comes
    with an error leaves in the reviewed card its older records, in order
    and without the oldest one if they were 10, followed by the record of
    that error stamped with the time of the review; a review without an
    error leaves the history as it was, and the history of every other card
    is never touched. *)
Theorem error_history_bounded (tz : Zone) (now : Z) (rand : nat -> Q) (cardId : string)
    (grade : Rating) (errorInfo : option string) (st : Scheduler) :
  Forall (fun c => (length (error_history c) <= 10)%nat) (heap st) ->
  let st' := (processReview tz now rand cardId grade errorInfo st).2 in
  Forall (fun c => (length (error_history c) <= 10)%nat) (heap st')
  /\ (forall l card,
        cards_get cardId (cards st) = Some l -> heap st !! l = Some card ->
        holds_at
          (fun c' => error_history c' = history_after now errorInfo (error_history card))
          (heap st') l
        /\ forall s c, s <> l -> heap st !! s = Some c ->
                       holds_at (fun c' => error_history c' = error_history c) (heap st') s).
Proof.
  intros H st'. subst st'. split.
  - apply processReview_Forall; try (intros c Hc; exact Hc); [| exact H].
    intros p g e c Hc. rewrite review_card_error_history.
    apply record_error_bounded, Hc.
  - intros l card Hk Hl. split.
    + apply processReview_holds_at with (card := card); try assumption;
        try (intros c Hc; exact Hc).
      rewrite review_card_error_history. apply record_error_history.
      apply (Forall_lookup_1 _ _ _ _ H Hl).
    + intros s c Hs Hc.
      apply (processReview_other_cell (fun c' => error_history c' = error_history c) now)
        with (l := l); try assumption; try (intros c0 Hc0; exact Hc0).
      exists c. split; [exact Hc | reflexivity].
Qed.

Lemma error_history_bounded_witness :
  let st := ExampleStores.group_store in
  let st' :=
    (processReview utc Examples.t0 Examples.rand0 "a" Again (Some "grammar"%string) st).2 in
  Forall (fun c => (length (error_history c) <= 10)%nat) (heap st)
  /\ Forall (fun c => (length (error_history c) <= 10)%nat) (heap st')
  /\ holds_at
       (fun c' => error_history c'
                  = ExampleStores.recent_errors
                      ++ [{| err_type := "grammar"; timestamp := Examples.t0 |}])
       (heap st') 0.
Proof.
  assert (H : Forall (fun c => (length (error_history c) <= 10)%nat)
                (heap ExampleStores.group_store)).
  { repeat constructor; simpl; lia. }
  split; [exact H |].
  destruct (error_history_bounded utc Examples.t0 Examples.rand0 "a" Again
              (Some "grammar"%string) ExampleStores.group_store H) as [Hall Hcell].
  split; [exact Hall |].
  exact (proj1 (Hcell 0%nat _ eq_refl eq_refl)).
Defined.

(** ** The value returned by a review *)




(** ** When cards graduate *)

Lemma checkGraduation_changed now rand l g st :
  _checkGraduation now rand l g st <> st ->
  let card := heap st !!! l in
  rating_num Good <= rating_num g /\ graduated card = false
  /\ (graduationConsecutive (params st) <= consecutive_correct card)%nat
  /\ (graduationMinInterval (params st) <= scheduled_days card)%Q
  /\ exists meta grp,
       drillMeta st !! id card = Some meta /\ pattern_group meta = Some grp
       /\ grp <> ""%string
       /\ exists s, s <> l /\ s ∈ _getSiblingCards st (Some grp)
                    /\ graduated (heap st !!! s) = is_canonical meta.
Proof.
  intros Hne card. revert Hne. unfold _checkGraduation. fold card.
  destruct (rating_num g <? rating_num Good) eqn:Hg; [congruence |].
  apply Z.ltb_ge in Hg.
  destruct (graduated card) eqn:Hgrad; [congruence |].
  destruct (drillMeta st !! id card) as [meta |] eqn:Hmeta; [| congruence].
  destruct (graduationConsecutive (params st) <=? consecutive_correct card)%nat eqn:Hc;
    [| simpl; congruence].
  destruct (Qle_bool (graduationMinInterval (params st)) (scheduled_days card)) eqn:Hi;
    [| simpl; congruence].
  apply Nat.leb_le in Hc. apply Qle_bool_iff in Hi. simpl.
  assert (Hsib : forall (b : bool) s,
             s ∈ filter (fun s : Ref => graduated (heap st !!! s) = b
                                        /\ id (heap st !!! s) <> id card)
                   (_getSiblingCards st (pattern_group meta)) ->
             exists grp, pattern_group meta = Some grp /\ grp <> ""%string
                         /\ s <> l /\ s ∈ _getSiblingCards st (Some grp)
                         /\ graduated (heap st !!! s) = b).
  { intros b s Hs. apply list_elem_of_filter in Hs as [[Hb Hid] Hin].
    pose proof Hin as Hin'.
    apply elem_of_getSiblingCards in Hin' as (grp & k & Hpg & Hgne & _).
    exists grp. rewrite <- Hpg. repeat split; try assumption.
    intros ->. apply Hid. reflexivity. }
  destruct (is_canonical meta) eqn:Hcanon.
  - destruct (_shuffle rand _) as [| nc rest] eqn:Hsh; [congruence |].
    intros _. apply shuffle_head_elem_of in Hsh.
    destruct (Hsib true nc Hsh) as (grp & H1 & H2 & H3 & H4 & H5).
    repeat split; try assumption. exists meta, grp. repeat split; try assumption.
    exists nc. split; [exact H3 |]. split; [exact H4 | congruence].
  - destruct (0 <? length _)%nat eqn:Hlen; [| congruence].
    intros _.
    match type of Hlen with context [length ?x] => destruct x as [| s rest] eqn:Hf end;
      [discriminate |].
    assert (Hs : s ∈ s :: rest) by apply list_elem_of_here.
    rewrite <- Hf in Hs.
    destruct (Hsib false s Hs) as (grp & H1 & H2 & H3 & H4 & H5).
    repeat split; try assumption. exists meta, grp. repeat split; try assumption.
    exists s. split; [exact H3 |]. split; [exact H4 | congruence].
Qed.

(** X16.  A review graduates no card but, possibly, the reviewed one; and
    when the reviewed card comes out graduated without having been so, the
    grade was Good or Easy, its streak has reached [graduationConsecutive],
    its scheduled interval has reached [graduationMinInterval] days, and its
    metadata names a pattern group in which another card is graduated (for
    a canonical card) or still active (for the others). *)
Theorem graduation_only_when_eligible (tz : Zone) (now : Z) (rand : nat -> Q) (cardId : string)
    (grade : Rating) (errorInfo : option string) (st : Scheduler) (l : Ref) (card : Card) :
  cards_get cardId (cards st) = Some l -> heap st !! l = Some card ->
  graduated card = false ->
  let st' := (processReview tz now rand cardId grade errorInfo st).2 in
  (forall s, s <> l -> holds_at (fun c => graduated c = false) (heap st) s ->
             holds_at (fun c => graduated c = false) (heap st') s)
  /\ holds_at
       (fun c' =>
          graduated c' = true ->
          (grade = Good \/ grade = Easy)
          /\ (graduationConsecutive (params st) <= consecutive_correct c')%nat
          /\ (graduationMinInterval (params st) <= scheduled_days c')%Q
          /\ exists meta grp,
               drillMeta st !! id card = Some meta /\ pattern_group meta = Some grp
               /\ grp <> ""%string
               /\ exists k s c, (k, s) ∈ cards st /\ s <> l /\ in_group st grp k
                                /\ heap st !!! s = c
                                /\ graduated c = is_canonical meta)
       (heap st') l.
Proof.
  intros Hk Hl Hgrad st'. subst st'. split.
  - intros s Hs H. apply processReview_other_cell with (l := l); try assumption;
      intros c _; reflexivity.
  - rewrite (processReview_store _ _ _ _ _ _ _ _ Hk Hl).
    set (st1 := store_after_card tz now grade errorInfo l card st).
    pose proof (store_after_card_lookup (tz := tz) now grade errorInfo l card st Hl) as H1.
    fold st1 in H1.
    set (c1 := (review_card tz (params st) now grade errorInfo card).1.1) in *.
    assert (Hg1 : graduated c1 = false).
    { unfold c1. rewrite review_card_graduated. exact Hgrad. }
    assert (Hid1 : id c1 = id card) by apply review_card_id.
    assert (Hcell : heap (if decide (grade = Again)
                          then _checkReactivation tz now rand cardId
                                 (_checkGraduation now rand l grade st1)
                          else _checkGraduation now rand l grade st1) !! l
                    = heap (_checkGraduation now rand l grade st1) !! l).
    { case_decide as Hag; [| reflexivity]. subst grade.
      rewrite checkGraduation_below_Good by (simpl; lia).
      apply checkReactivation_active_cell.
      rewrite (list_lookup_total_correct _ _ _ H1). exact Hg1. }
    destruct (checkGraduation_self now rand l grade st1 c1 H1) as [H | H].
    + exists c1. rewrite Hcell. split; [exact H |]. congruence.
    + assert (Hne : _checkGraduation now rand l grade st1 <> st1).
      { intros Heq. rewrite Heq, H1 in H. injection H as H.
        apply (f_equal graduated) in H. simpl in H. congruence. }
      pose proof (checkGraduation_changed now rand l grade st1 Hne) as Hel.
      cbn zeta in Hel. rewrite (list_lookup_total_correct _ _ _ H1) in Hel.
      destruct Hel as (Hg & _ & Hc & Hi & meta & grp & Hm & Hpg & Hgne & s & Hs & Hsib & Hsg).
      rewrite <- Hcell in H. eexists. split; [exact H |]. intros _.
      split; [destruct grade; simpl in Hg; try lia; auto |].
      split; [exact Hc |]. split; [exact Hi |].
      exists meta, grp. rewrite <- Hid1. split; [exact Hm |]. split; [exact Hpg |].
      split; [exact Hgne |].
      apply elem_of_getSiblingCards in Hsib as (g' & k & [= <-] & _ & Hin & Hgrp).
      exists k, s, (heap st !!! s). repeat split; try assumption.
      rewrite <- Hsg. unfold st1, store_after_card. simpl.
      rewrite list_lookup_total_insert_ne by congruence. reflexivity.
Qed.

Lemma graduation_only_when_eligible_witness :
  let st := ExampleStores.group_store in
  let st' := (processReview utc Examples.t0 Examples.rand0 "c" Good None st).2 in
  cards_get "c" (cards st) = Some 2%nat
  /\ graduated (heap st !!! 2%nat) = false
  /\ forall s, s <> 2%nat -> holds_at (fun c => graduated c = false) (heap st) s ->
               holds_at (fun c => graduated c = false) (heap st') s.
Proof.
  split; [reflexivity |]. split; [reflexivity |].
  exact (proj1 (graduation_only_when_eligible utc Examples.t0 Examples.rand0 "c" Good None
                  ExampleStores.group_store 2 _ eq_refl eq_refl eq_refl)).
Defined.

(** ** Cards without a pattern group *)

Lemma getSiblingCards_no_group st pg : truthy pg = false -> _getSiblingCards st pg = [].
Proof.
  intros H. unfold _getSiblingCards. destruct pg as [g |]; [| reflexivity].
  rewrite H. reflexivity.
Qed.

Lemma checkGraduation_no_group now rand l g st :
  (forall m, drillMeta st !! id (heap st !!! l) = Some m ->
             truthy (pattern_group m) = false) ->
  _checkGraduation now rand l g st = st.
Proof.
  intros H. unfold _checkGraduation.
  destruct (rating_num g <? rating_num Good); [reflexivity |].
  destruct (graduated (heap st !!! l)); [reflexivity |].
  destruct (drillMeta st !! id (heap st !!! l)) as [meta |] eqn:Hmeta; [| reflexivity].
  rewrite (getSiblingCards_no_group st (pattern_group meta) (H meta eq_refl)).
  simpl. repeat case_match; reflexivity.
Qed.

Lemma checkReactivation_no_group {tz : Zone} now rand k st :
  (forall m, drillMeta st !! k = Some m -> truthy (pattern_group m) = false) ->
  _checkReactivation tz now rand k st = st.
Proof.
  intros H. unfold _checkReactivation.
  destruct (drillMeta st !! k) as [meta |] eqn:Hmeta; [| reflexivity].
  rewrite (H meta eq_refl). simpl. destruct (is_canonical meta); reflexivity.
Qed.

(** X17.  Metadata may be missing: when the reviewed card has no metadata,
    or metadata without a pattern group, the review changes that card only;
    no other card and no metadata entry is touched, and the card does not
    graduate. *)
Theorem review_without_group (tz : Zone) (now : Z) (rand : nat -> Q) (cardId : string)
    (grade : Rating) (errorInfo : option string) (st : Scheduler) (l : Ref) (card : Card) :
  wf st -> cards_get cardId (cards st) = Some l -> heap st !! l = Some card ->
  (forall m, drillMeta st !! cardId = Some m -> truthy (pattern_group m) = false) ->
  let st' := (processReview tz now rand cardId grade errorInfo st).2 in
  drillMeta st' = drillMeta st
  /\ (forall s, s <> l -> heap st' !! s = heap st !! s)
  /\ holds_at (fun c' => graduated c' = graduated card) (heap st') l.
Proof.
  intros Hwf Hk Hl Hm st'. subst st'.
  rewrite (processReview_store _ _ _ _ _ _ _ _ Hk Hl).
  set (st1 := store_after_card tz now grade errorInfo l card st).
  pose proof (store_after_card_lookup (tz := tz) now grade errorInfo l card st Hl) as H1.
  fold st1 in H1.
  destruct (wf_lookup_total st cardId l Hwf (cards_get_elem_of _ _ _ Hk)) as [Hl' Hid].
  assert (Hidc : id card = cardId) by congruence.
  assert (Hg : _checkGraduation now rand l grade st1 = st1).
  { apply checkGraduation_no_group. intros m.
    rewrite (list_lookup_total_correct _ _ _ H1), review_card_id, Hidc. apply Hm. }
  assert (Hr : _checkReactivation tz now rand cardId st1 = st1).
  { apply checkReactivation_no_group. exact Hm. }
  assert (Hfin : (if decide (grade = Again)
                  then _checkReactivation tz now rand cardId
                         (_checkGraduation now rand l grade st1)
                  else _checkGraduation now rand l grade st1) = st1).
  { case_decide; rewrite Hg; [exact Hr | reflexivity]. }
  rewrite Hfin. split; [reflexivity |]. split.
  - intros s Hs. apply store_after_card_lookup_ne. congruence.
  - eexists. split; [exact H1 |]. apply review_card_graduated.
Qed.

Lemma review_without_group_witness :
  let st := ExampleStores.group_store in
  let st' := (processReview utc Examples.t0 Examples.rand0 "n" Good None st).2 in
  wf st /\ cards_get "n" (cards st) = Some 3%nat
  /\ (forall m, drillMeta st !! "n" = Some m -> truthy (pattern_group m) = false)
  /\ drillMeta st' = drillMeta st
  /\ (forall s, s <> 3%nat -> heap st' !! s = heap st !! s).
Proof.
  assert (Hm : forall m, drillMeta ExampleStores.group_store !! "n" = Some m ->
                         truthy (pattern_group m) = false).
  { intros m H. vm_compute in H. discriminate. }
  split; [exact wf_group_store |]. split; [reflexivity |]. split; [exact Hm |].
  destruct (review_without_group utc Examples.t0 Examples.rand0 "n" Good None
              ExampleStores.group_store 3 _ wf_group_store eq_refl eq_refl Hm)
    as (H1 & H2 & _).
  split; [exact H1 | exact H2].
Defined.

(** ** Drawing cards *)

Lemma getNextCard_nonempty now st :
  sessionQueue st <> [] ->
  exists c q',
    getNextCard now st = (Some c, set_sessionQueue q' st)
    /\ sessionQueue st ≡ₚ c :: q'
    /\ (truthy (lastPattern st) = false
        \/ (forall c', c' ∈ sessionQueue st ->
                       Some (pos_pattern (heap st !!! c')) = lastPattern st)
        \/ (exists c0 q0, sessionQueue st = c0 :: q0
                          /\ Some (pos_pattern (heap st !!! c0)) <> lastPattern st) ->
        c :: q' = sessionQueue st).
Proof.
  intros Hne.
  assert (Hlen : (length (sessionQueue st) =? 0)%nat = false).
  { destruct (sessionQueue st); [contradiction | reflexivity]. }
  unfold getNextCard. rewrite Hlen. rewrite Hlen.
  destruct (truthy (lastPattern st)) eqn:Htr.
  - unfold findIndex.
    destruct (list_find (fun c => Some (pos_pattern (heap st !!! c)) <> lastPattern st)
                (sessionQueue st)) as [[idx c] |] eqn:Hfind.
    + apply list_find_Some in Hfind as (Hidx & Hc & Hfirst). simpl.
      destruct idx as [| idx]; simpl.
      * destruct (sessionQueue st) as [| q0 q] eqn:Hq; [discriminate |].
        exists q0, q. split; [reflexivity |]. split; [reflexivity |]. intros _. reflexivity.
      * rewrite Hidx. simpl. exists c, (delete (S idx) (sessionQueue st)).
        split; [reflexivity |]. split; [apply delete_Permutation, Hidx |].
        intros [H | [H | (c0 & q0 & Hq & Hc0)]].
        -- discriminate.
        -- exfalso. apply Hc. apply H. eapply list_elem_of_lookup_2, Hidx.
        -- exfalso. apply (Hfirst 0%nat c0); [rewrite Hq; reflexivity | lia | exact Hc0].
    + simpl. destruct (sessionQueue st) as [| q0 q] eqn:Hq; [contradiction |].
      exists q0, q. split; [reflexivity |]. split; [reflexivity |]. intros _. reflexivity.
  - destruct (sessionQueue st) as [| q0 q] eqn:Hq; [contradiction |].
    exists q0, q. simpl. split; [reflexivity |]. split; [reflexivity |].
    intros _. reflexivity.
Qed.

(** X18.  While the session queue is not empty, [getNextCard] hands out one
    of the queued cards and keeps all the others, no card lost or repeated,
    and touches nothing but the queue; it hands out the front card, the
    queue order kept, when no pattern is recorded, when every queued card
    has the recorded pattern, or when the front card already differs. *)
Theorem getNextCard_pops_one (now : Z) (st : Scheduler) :
  sessionQueue st <> [] ->
  exists c q',
    getNextCard now st = (Some c, set_sessionQueue q' st)
    /\ sessionQueue st ≡ₚ c :: q'
    /\ (truthy (lastPattern st) = false
        \/ (forall c', c' ∈ sessionQueue st ->
                       Some (pos_pattern (heap st !!! c')) = lastPattern st)
        \/ (exists c0 q0, sessionQueue st = c0 :: q0
                          /\ Some (pos_pattern (heap st !!! c0)) <> lastPattern st) ->
        c :: q' = sessionQueue st).
Proof. apply getNextCard_nonempty. Qed.

Lemma getNextCard_pops_one_witness :
  let st := QueueExamples.repeat_store in
  sessionQueue st <> []
  /\ exists c q', getNextCard Examples.t0 st = (Some c, set_sessionQueue q' st)
                  /\ sessionQueue st ≡ₚ c :: q'.
Proof.
  assert (H : sessionQueue QueueExamples.repeat_store <> []) by discriminate.
  split; [exact H |].
  destruct (getNextCard_pops_one Examples.t0 QueueExamples.repeat_store H)
    as (c & q' & H1 & H2 & _).
  exists c, q'. split; [exact H1 | exact H2].
Defined.

Lemma js_sort_nil {A} (cmp : A -> A -> Q) (l : list A) : js_sort cmp l = [] -> l = [].
Proof.
  intros H. apply Permutation_nil_r. rewrite <- H. symmetry. apply js_sort_Permutation.
Qed.

Lemma getNextCard_rebuilds now st :
  sessionQueue st = [] ->
  let st1 := (buildSessionQueue now None st).2 in
  getNextCard now st
  = match sessionQueue st1 with
    | [] => (None, st1)
    | _ :: _ => getNextCard now st1
    end.
Proof.
  intros Hq st1. unfold getNextCard at 1. rewrite Hq.
  change (length [] =? 0)%nat with true. cbv iota. fold st1.
  destruct (sessionQueue st1) as [| c0 q0] eqn:Hq1.
  - reflexivity.
  - unfold getNextCard. rewrite Hq1.
    change (length (c0 :: q0) =? 0)%nat with false. cbv iota.
    rewrite ?Hq1. reflexivity.
Qed.

(** X19.  With an empty session queue [getNextCard] rebuilds the queue
    first; it returns [null] exactly when no card of the store is eligible
    (not graduated, and due or New), and then leaves the queue empty. *)
Theorem getNextCard_null_iff_nothing_due (now : Z) (st : Scheduler) :
  sessionQueue st = [] ->
  ((getNextCard now st).1 = None <->
   forall k l, (k, l) ∈ cards st ->
               ~ (graduated (heap st !!! l) = false
                  /\ (due (heap st !!! l) <= now \/ state (heap st !!! l) = New)))
  /\ ((getNextCard now st).1 = None -> (getNextCard now st).2 = set_sessionQueue [] st).
Proof.
  intros Hq.
  assert (Hdue : getDueCards now st = [] <->
                 forall k l, (k, l) ∈ cards st ->
                   ~ (graduated (heap st !!! l) = false
                      /\ (due (heap st !!! l) <= now \/ state (heap st !!! l) = New))).
  { split.
    - intros H k l Hin Hd.
      assert (Hl : l ∈ getDueCards now st) by (apply elem_of_getDueCards; eauto).
      rewrite H in Hl. inversion Hl.
    - intros H. destruct (getDueCards now st) as [| l rest] eqn:Hd; [reflexivity |].
      assert (Hl : l ∈ getDueCards now st) by (rewrite Hd; apply list_elem_of_here).
      apply elem_of_getDueCards in Hl as ((k & Hin) & Hg). exfalso. eapply H; eauto. }
  rewrite <- Hdue. clear Hdue.
  rewrite (getNextCard_rebuilds now st Hq). cbv zeta.
  assert (Hst1 : (buildSessionQueue now None st).2
                 = set_sessionQueue (buildSessionQueue now None st).1 st) by reflexivity.
  assert (Hqnil : (buildSessionQueue now None st).1 = [] <-> getDueCards now st = []).
  { unfold buildSessionQueue. cbn [fst default]. split.
    - intros H. destruct (js_sort _ (getDueCards now st)) as [| x xs] eqn:Hs;
        [eapply js_sort_nil, Hs | discriminate].
    - intros ->. reflexivity. }
  rewrite Hst1. cbn [sessionQueue set_sessionQueue].
  destruct (buildSessionQueue now None st).1 as [| c0 q0] eqn:Hb.
  - split; [split; [intros _; apply Hqnil; reflexivity | reflexivity] |].
    intros _. reflexivity.
  - assert (Hne : sessionQueue (set_sessionQueue (c0 :: q0) st) <> []) by discriminate.
    destruct (getNextCard_nonempty now (set_sessionQueue (c0 :: q0) st) Hne)
      as (c & q' & Hget & _).
    rewrite Hget. cbn [fst snd]. split; [| discriminate].
    split; [discriminate |]. intros H. apply Hqnil in H. discriminate.
Qed.

Lemma getNextCard_null_iff_nothing_due_witness :
  sessionQueue ReactivationExamples.graduated_canonical = []
  /\ (getNextCard Examples.t0 ReactivationExamples.graduated_canonical).1 = None.
Proof.
  split; [reflexivity |].
  apply (proj1 (getNextCard_null_iff_nothing_due Examples.t0
                  ReactivationExamples.graduated_canonical eq_refl)).
  intros k l Hin [Hg _]. simpl in Hin.
  repeat (apply elem_of_cons in Hin as [[= -> ->] | Hin]); try discriminate.
  inversion Hin.
Defined.

(** X20.  A session hands out every queued card exactly once: as many draws
    as the queue is long return, in some order, exactly the queued cards,
    never [null], and leave the queue empty and everything else as it was. *)
Theorem draw_empties_queue (now : Z) (st : Scheduler) :
  exists cs,
    draw now (length (sessionQueue st)) st = (Some <$> cs, set_sessionQueue [] st)
    /\ cs ≡ₚ sessionQueue st.
Proof.
  remember (length (sessionQueue st)) as n eqn:Hn. revert st Hn.
  induction n as [| n IH]; intros st Hn.
  - exists []. destruct (sessionQueue st) eqn:Hq; [| discriminate].
    split; [| reflexivity]. simpl. f_equal. destruct st. simpl in *. subst. reflexivity.
  - assert (Hne : sessionQueue st <> []) by (intros H; rewrite H in Hn; discriminate).
    destruct (getNextCard_nonempty now st Hne) as (c & q' & Hget & Hperm & _).
    assert (Hlen : n = length (sessionQueue (set_sessionQueue q' st))).
    { simpl. apply Permutation_length in Hperm. simpl in Hperm. lia. }
    destruct (IH _ Hlen) as (cs & Hdraw & Hcs).
    exists (c :: cs). simpl. rewrite Hget, Hdraw. split; [reflexivity |].
    rewrite Hperm. apply Permutation_cons; [reflexivity | exact Hcs].
Qed.

(** ** Reset *)

Lemma cards_get_set_eq k l cs : cards_get k (cards_set k l cs) = Some l.
Proof.
  induction cs as [| [k' l'] cs IH]; simpl.
  - rewrite decide_True by reflexivity. reflexivity.
  - destruct (decide (k' = k)); simpl.
    + rewrite decide_True by reflexivity. reflexivity.
    + rewrite decide_False by assumption. exact IH.
Qed.

Lemma cards_get_set_ne k k' l cs :
  k <> k' -> cards_get k' (cards_set k l cs) = cards_get k' cs.
Proof.
  intros Hne. induction cs as [| [k0 l0] cs IH]; simpl.
  - rewrite decide_False by assumption. reflexivity.
  - destruct (decide (k0 = k)) as [-> | Hk]; simpl.
    + rewrite !decide_False by assumption. reflexivity.
    + destruct (decide (k0 = k')); [reflexivity | exact IH].
Qed.

Lemma cards_set_keys k l l0 cs :
  cards_get k cs = Some l0 -> (cards_set k l cs).*1 = cs.*1.
Proof.
  induction cs as [| [k' l'] cs IH]; simpl; [discriminate |].
  destruct (decide (k' = k)) as [-> | Hk]; simpl; [reflexivity |].
  intros H. f_equal. apply IH, H.
Qed.

Lemma cards_get_NoDup k l cs : NoDup cs.*1 -> (k, l) ∈ cs -> cards_get k cs = Some l.
Proof.
  induction cs as [| [k' l'] cs IH]; simpl; intros Hnd Hin; [inversion Hin |].
  apply NoDup_cons in Hnd as [Hk' Hnd].
  apply elem_of_cons in Hin as [[= <- <-] | Hin].
  - rewrite decide_True by reflexivity. reflexivity.
  - destruct (decide (k' = k)) as [-> | Hk]; [| apply IH; assumption].
    exfalso. apply Hk'. apply list_elem_of_fmap. exists (k, l). split; [reflexivity | exact Hin].
Qed.

Lemma resetCard_existing now cardId st l old :
  cards_get cardId (cards st) = Some l -> heap st !! l = Some old ->
  let st' := resetCard now cardId st in
  (exists l' c, cards_get cardId (cards st') = Some l' /\ l' <> l
                /\ heap st' !! l' = Some c /\ is_reset_of now cardId old c)
  /\ (cards st').*1 = (cards st).*1
  /\ (forall k, k <> cardId -> cards_get k (cards st') = cards_get k (cards st))
  /\ (forall i c, heap st !! i = Some c -> heap st' !! i = Some c)
  /\ sessionQueue st' = sessionQueue st
  /\ drillMeta st' = drillMeta st
  /\ lastPattern st' = lastPattern st
  /\ sessionStats st' = sessionStats st.
Proof.
  intros Hk Hl st'. subst st'. unfold resetCard. rewrite Hk, Hl. simpl.
  split; [| split; [| split; [| split]]].
  - eexists (length (heap st)), _. split; [apply cards_get_set_eq |].
    split; [apply lookup_lt_Some in Hl; lia |].
    split.
    + rewrite lookup_app_r by lia. rewrite Nat.sub_diag. reflexivity.
    + unfold is_reset_of. simpl. repeat split; reflexivity.
  - eapply cards_set_keys, Hk.
  - intros k Hne. apply cards_get_set_ne. congruence.
  - intros i c Hi. apply lookup_app_l_Some, Hi.
  - repeat split; reflexivity.
Qed.

(** X21.  [resetCard] on a stored card puts a new object under the key: a
    New card due now, without reviews, lapses, errors or graduation, that
    keeps the pattern of the old one and its commonality and unit (0
    becoming 1/2 and 1).  The key order, the other keys, every older
    object (the old card among them, which the session queue may still
    hold) and the rest of the scheduler are untouched. *)
Theorem resetCard_replaces_card (now : Z) (cardId : string) (st : Scheduler)
    (l : Ref) (old : Card) :
  cards_get cardId (cards st) = Some l -> heap st !! l = Some old ->
  let st' := resetCard now cardId st in
  (exists l' c, cards_get cardId (cards st') = Some l' /\ l' <> l
                /\ heap st' !! l' = Some c /\ is_reset_of now cardId old c)
  /\ (cards st').*1 = (cards st).*1
  /\ (forall k, k <> cardId -> cards_get k (cards st') = cards_get k (cards st))
  /\ (forall i c, heap st !! i = Some c -> heap st' !! i = Some c)
  /\ sessionQueue st' = sessionQueue st
  /\ drillMeta st' = drillMeta st
  /\ lastPattern st' = lastPattern st
  /\ sessionStats st' = sessionStats st.
Proof. apply resetCard_existing. Qed.

Lemma resetCard_replaces_card_witness :
  let st := ExampleStores.group_store in
  let st' := resetCard Examples.t0 "a" st in
  cards_get "a" (cards st) = Some 0%nat
  /\ (exists l' c, cards_get "a" (cards st') = Some l' /\ l' <> 0%nat
                   /\ heap st' !! l' = Some c /\ state c = New).
Proof.
  split; [reflexivity |].
  destruct (resetCard_replaces_card Examples.t0 "a" ExampleStores.group_store 0%nat
              (ExampleStores.group_heap !!! 0%nat) eq_refl eq_refl)
    as ((l' & c & H1 & H2 & H3 & H4) & _).
  exists l', c. repeat split; try assumption. apply H4.
Defined.

Lemma wf_resetCard now cardId st : wf st -> wf (resetCard now cardId st).
Proof.
  intros Hwf. unfold resetCard.
  destruct (cards_get cardId (cards st)) as [l |] eqn:Hk; [| exact Hwf].
  destruct (heap st !! l) as [old |] eqn:Hl; [| exact Hwf].
  destruct Hwf as (Hk1 & Hk2 & Hid). unfold wf. simpl.
  assert (Hbound : forall k i, (k, i) ∈ cards st -> (i < length (heap st))%nat).
  { intros k i Hin. destruct (Hid k i Hin) as (c & Hc & _). eapply lookup_lt_Some, Hc. }
  clear Hl.
  induction (cards st) as [| [k0 l0] cs IH]; simpl in *; [discriminate |].
  apply NoDup_cons in Hk1 as [Hk0 Hk1]. apply NoDup_cons in Hk2 as [Hl0 Hk2].
  destruct (decide (k0 = cardId)) as [-> | Hne]; simpl.
  - split; [apply NoDup_cons; split; assumption |].
    split.
    + apply NoDup_cons. split; [| assumption].
      intros Hin. apply list_elem_of_fmap in Hin as ([k i] & Heq & Hin). simpl in Heq. subst i.
      specialize (Hbound k (length (heap st)) ltac:(apply elem_of_cons; right; exact Hin)). lia.
    + intros k i Hin. apply elem_of_cons in Hin as [[= -> ->] | Hin].
      * eexists. split; [| shelve].
        rewrite lookup_app_r by lia. rewrite Nat.sub_diag. reflexivity.
        Unshelve. reflexivity.
      * destruct (Hid k i ltac:(apply elem_of_cons; right; exact Hin)) as (c & Hc & Hp).
        exists c. split; [apply lookup_app_l_Some, Hc | exact Hp].
  - destruct IH as (IH1 & IH2 & IH3); try assumption.
    + intros k i Hin. apply Hid. apply elem_of_cons. right. exact Hin.
    + intros k i Hin. eapply Hbound. apply elem_of_cons. right. exact Hin.
    + split.
      * apply NoDup_cons. split; [| exact IH1].
        intros Hin. apply Hk0.
        rewrite (cards_set_keys _ _ _ _ Hk) in Hin. exact Hin.
      * split.
        -- apply NoDup_cons. split; [| exact IH2].
           intros Hin. apply list_elem_of_fmap in Hin as ([k i] & Heq & Hin).
           simpl in Heq. subst i.
           destruct (decide (k = cardId)) as [-> | Hk'].
           ++ assert (H := cards_get_NoDup _ _ _ IH1 Hin).
              rewrite cards_get_set_eq in H. injection H as H.
              specialize (Hbound k0 l0 ltac:(apply list_elem_of_here)). lia.
           ++ assert (H := cards_get_NoDup _ _ _ IH1 Hin).
              rewrite cards_get_set_ne in H by congruence.
              apply cards_get_elem_of in H. apply Hl0.
              apply list_elem_of_fmap. exists (k, l0). split; [reflexivity | exact H].
        -- intros k i Hin. apply elem_of_cons in Hin as [[= -> ->] | Hin].
           ++ destruct (Hid k0 l0 ltac:(apply list_elem_of_here)) as (c & Hc & Hp).
              exists c. split; [apply lookup_app_l_Some, Hc | exact Hp].
           ++ apply IH3, Hin.
Qed.

Lemma resetCard_fold now ks :
  forall st, wf st -> NoDup ks -> (forall k, k ∈ ks -> k ∈ (cards st).*1) ->
  let st' := foldl (fun st cardId => resetCard now cardId st) st ks in
  wf st' /\ (cards st').*1 = (cards st).*1
  /\ (forall k l, (k, l) ∈ cards st' -> k ∈ ks -> is_blank now (heap st' !!! l))
  /\ (forall k l, (k, l) ∈ cards st' -> k ∉ ks ->
                  (k, l) ∈ cards st /\ heap st' !! l = heap st !! l)
  /\ (forall i c, heap st !! i = Some c -> heap st' !! i = Some c)
  /\ sessionQueue st' = sessionQueue st /\ drillMeta st' = drillMeta st
  /\ lastPattern st' = lastPattern st /\ sessionStats st' = sessionStats st.
Proof.
  induction ks as [| k ks IH]; intros st Hwf Hnd Hks; simpl.
  - split; [exact Hwf |]. split; [reflexivity |].
    split; [intros k l _ Hin; inversion Hin |].
    split; [intros k l Hin _; split; [exact Hin | reflexivity] |].
    split; [intros i c H; exact H |]. repeat split; reflexivity.
  - apply NoDup_cons in Hnd as [Hk Hnd].
    assert (Hkin : k ∈ (cards st).*1) by (apply Hks, list_elem_of_here).
    destruct (cards_get k (cards st)) as [l0 |] eqn:Hget;
      [| apply cards_get_None in Hget; contradiction].
    destruct (wf_lookup_total st k l0 Hwf (cards_get_elem_of _ _ _ Hget)) as [Hl0 _].
    destruct (resetCard_existing now k st l0 _ Hget Hl0)
      as ((l' & c & Hget' & Hne & Hc & Hreset) & Hkeys & Hother & Hold & Hq & Hm & Hp & Hs).
    assert (Hwf1 := wf_resetCard now k st Hwf).
    set (st1 := resetCard now k st) in *.
    destruct (IH st1 Hwf1 Hnd) as (W & K & B & O & P & Q1 & Q2 & Q3 & Q4).
    { intros k' Hk'. rewrite Hkeys. apply Hks. apply elem_of_cons. right. exact Hk'. }
    split; [exact W |]. split; [congruence |].
    split; [| split; [| split; [| repeat split; congruence]]].
    + intros k' l Hin Hk'. apply elem_of_cons in Hk' as [-> | Hk']; [| eapply B; eassumption].
      destruct (O k l Hin Hk) as [Hin1 Hh].
      assert (l = l').
      { apply (cards_get_NoDup _ _ _ (proj1 Hwf1)) in Hin1. congruence. }
      subst l. rewrite Hc in Hh. rewrite (list_lookup_total_correct _ _ _ Hh).
      unfold is_blank. unfold is_reset_of in Hreset. tauto.
    + intros k' l Hin Hk'.
      assert (k' <> k) by (intros ->; apply Hk', list_elem_of_here).
      assert (k' ∉ ks) by (intros H'; apply Hk'; apply elem_of_cons; right; exact H').
      destruct (O k' l Hin ltac:(assumption)) as [Hin1 Hh].
      apply (cards_get_NoDup _ _ _ (proj1 Hwf1)) in Hin1.
      rewrite Hother in Hin1 by assumption. apply cards_get_elem_of in Hin1.
      split; [exact Hin1 |]. rewrite Hh.
      destruct (wf_lookup_total st k' l Hwf Hin1) as [Hl _].
      rewrite Hl. apply Hold, Hl.
    + intros i c' Hi. apply P, Hold, Hi.
Qed.

(** ** Statistics *)

Lemma stats_fold now cs :
  forall a,
  let a' := foldl (stats_step now) a cs in
  let s := stats a in
  let s' := stats a' in
  total s' = total s /\ session s' = session s
  /\ new s' = (new s + length (filter (fun c => state c = New) cs))%nat
  /\ learning s' = (learning s + length (filter (fun c => state c = Learning) cs))%nat
  /\ review s' = (review s + length (filter (fun c => state c = Review) cs))%nat
  /\ relearning s' = (relearning s + length (filter (fun c => state c = Relearning) cs))%nat
  /\ due_today s' = (due_today s + length (filter (fun c => (due c <= now)%Z) cs))%nat
  /\ mastered s' = (mastered s + length (filter (fun c => (21 < stability c)%R) cs))%nat
  /\ total_reviews s' = (total_reviews s + sum_list (reps <$> cs))%nat
  /\ total_lapses s' = (total_lapses s + sum_list (lapses <$> cs))%nat
  /\ avg_stability s' = avg_stability s /\ avg_difficulty s' = avg_difficulty s
  /\ reviewedCount a'
     = (reviewedCount a + length (filter (fun c => (0 < reps c)%nat) cs))%nat
  /\ totalStability a'
     = (totalStability a + Rsum (stability <$> filter (fun c => (0 < reps c)%nat) cs))%R
  /\ totalDifficulty a'
     = (totalDifficulty a + Rsum (difficulty <$> filter (fun c => (0 < reps c)%nat) cs))%R.
Proof.
  induction cs as [| c cs IH]; intros a; cbn zeta.
  - simpl. repeat split; try lia; unfold Rsum; simpl; lra.
  - simpl foldl. specialize (IH (stats_step now a c)). cbn zeta in IH.
    destruct IH as (H1 & H2 & H3 & H4 & H5 & H6 & H7 & H8 & H9 & H10 & H11 & H12
                    & H13 & H14 & H15).
    rewrite H1, H2, H3, H4, H5, H6, H7, H8, H9, H10, H11, H12, H13, H14, H15.
    rewrite !filter_cons. simpl.
    split; [reflexivity |]. split; [reflexivity |].
    split; [destruct (decide (state c = New)); simpl; lia |].
    split; [destruct (decide (state c = Learning)); simpl; lia |].
    split; [destruct (decide (state c = Review)); simpl; lia |].
    split; [destruct (decide (state c = Relearning)); simpl; lia |].
    split.
    { destruct (Z.leb_spec (due c) now); destruct (decide (due c <= now));
        simpl; lia. }
    split.
    { unfold decide, Rlt_decision. destruct (Rlt_dec 21 (stability c)); simpl; lia. }
    split; [symmetry; apply Nat.add_assoc |].
    split; [symmetry; apply Nat.add_assoc |].
    split; [reflexivity |]. split; [reflexivity |].
    destruct (Nat.ltb_spec 0 (reps c)); destruct (decide (0 < reps c)%nat); try lia;
      simpl.
    + split; [apply plus_n_Sm |]. split; apply Rplus_assoc.
    + repeat split; reflexivity.
Qed.

Lemma state_partition (cs : list Card) :
  (length (filter (fun c => state c = New) cs)
   + length (filter (fun c => state c = Learning) cs)
   + length (filter (fun c => state c = Review) cs)
   + length (filter (fun c => state c = Relearning) cs))%nat = length cs.
Proof.
  induction cs as [| c cs IH]; [reflexivity |].
  rewrite !filter_cons.
  destruct (state c) eqn:Hs;
    repeat (match goal with |- context [decide ?P] => destruct (decide P); try discriminate end);
    simpl; try congruence; lia.
Qed.

(** X22.  [getStats] counts every stored card once in exactly one of the four
    state counters, so these add up to [total]; [due_today] and [mastered]
    count the cards due by now and those with a stability above 21 days;
    the review and lapse totals are the sums over all cards, and the
    averages are taken over the cards reviewed at least once (0 when there
    is none). *)
Theorem getStats_counts (now : Z) (st : Scheduler) :
  let s := getStats now st in
  let cs := card_values st in
  let reviewed := filter (fun c => (0 < reps c)%nat) cs in
  total s = length (cards st)
  /\ (new s + learning s + review s + relearning s)%nat = total s
  /\ new s = length (filter (fun c => state c = New) cs)
  /\ learning s = length (filter (fun c => state c = Learning) cs)
  /\ review s = length (filter (fun c => state c = Review) cs)
  /\ relearning s = length (filter (fun c => state c = Relearning) cs)
  /\ due_today s = length (filter (fun c => due c <= now) cs)
  /\ mastered s = length (filter (fun c => (21 < stability c)%R) cs)
  /\ (due_today s <= total s)%nat /\ (mastered s <= total s)%nat
  /\ total_reviews s = sum_list (reps <$> cs)
  /\ total_lapses s = sum_list (lapses <$> cs)
  /\ session s = sessionStats st
  /\ (reviewed = [] -> avg_stability s = 0%R /\ avg_difficulty s = 0%R)
  /\ (reviewed <> [] ->
      avg_stability s = (Rsum (stability <$> reviewed) / INR (length reviewed))%R
      /\ avg_difficulty s = (Rsum (difficulty <$> reviewed) / INR (length reviewed))%R).
Proof.
  cbn zeta. unfold getStats. cbn zeta.
  match goal with |- context [foldl (stats_step now) ?a0 _] => set (start := a0) end.
  destruct (stats_fold now (card_values st) start)
    as (H1 & H2 & H3 & H4 & H5 & H6 & H7 & H8 & H9 & H10 & H11 & H12 & H13 & H14 & H15).
  set (a := foldl (stats_step now) start (card_values st)) in *.
  simpl in H1, H2, H3, H4, H5, H6, H7, H8, H9, H10, H11, H12, H13, H14, H15.
  assert (Hlen : length (card_values st) = length (cards st)).
  { unfold card_values. rewrite !length_fmap. reflexivity. }
  assert (Hpart := state_partition (card_values st)).
  assert (Hd := length_filter (fun c => due c <= now) (card_values st)).
  assert (Hm := length_filter (fun c => (21 < stability c)%R) (card_values st)).
  assert (Hfields :
    forall s : Stats,
      total s = total (stats a) -> new s = new (stats a) ->
      learning s = learning (stats a) -> review s = review (stats a) ->
      relearning s = relearning (stats a) -> due_today s = due_today (stats a) ->
      mastered s = mastered (stats a) -> total_reviews s = total_reviews (stats a) ->
      total_lapses s = total_lapses (stats a) -> session s = session (stats a) ->
      total s = length (cards st)
      /\ (new s + learning s + review s + relearning s)%nat = total s
      /\ new s = length (filter (fun c => state c = New) (card_values st))
      /\ learning s = length (filter (fun c => state c = Learning) (card_values st))
      /\ review s = length (filter (fun c => state c = Review) (card_values st))
      /\ relearning s = length (filter (fun c => state c = Relearning) (card_values st))
      /\ due_today s = length (filter (fun c => due c <= now) (card_values st))
      /\ mastered s = length (filter (fun c => (21 < stability c)%R) (card_values st))
      /\ (due_today s <= total s)%nat /\ (mastered s <= total s)%nat
      /\ total_reviews s = sum_list (reps <$> card_values st)
      /\ total_lapses s = sum_list (lapses <$> card_values st)
      /\ session s = sessionStats st).
  { intros s E1 E2 E3 E4 E5 E6 E7 E8 E9 E10.
    rewrite E1, E2, E3, E4, E5, E6, E7, E8, E9, E10.
    rewrite H1, H2, H3, H4, H5, H6, H7, H8, H9, H10. simpl.
    repeat split; try reflexivity; lia. }
  destruct (0 <? reviewedCount a)%nat eqn:Hrc.
  - apply Nat.ltb_lt in Hrc.
    match goal with |- total ?s = _ /\ _ =>
      destruct (Hfields s) as (F1 & F2 & F3 & F4 & F5 & F6 & F7 & F8 & F9 & F10 & F11
                               & F12 & F13); try reflexivity
    end.
    repeat (split; [assumption |]). simpl.
    split.
    + intros Hnil. rewrite Hnil in H13. simpl in H13. lia.
    + intros _. rewrite H13, H14, H15. simpl. rewrite !Rplus_0_l. split; reflexivity.
  - apply Nat.ltb_ge in Hrc.
    destruct (Hfields (stats a)) as (F1 & F2 & F3 & F4 & F5 & F6 & F7 & F8 & F9 & F10 & F11
                                     & F12 & F13); try reflexivity.
    repeat (split; [assumption |]).
    split.
    + intros _. rewrite H11, H12. split; reflexivity.
    + intros Hne. exfalso. apply Hne.
      rewrite H13 in Hrc. simpl in Hrc.
      destruct (filter (fun c => (0 < reps c)%nat) (card_values st));
        [reflexivity | simpl in Hrc; lia].
Qed.

Lemma filter_Forall_id {A} (P : A -> Prop) `{!forall x, Decision (P x)} (l : list A) :
  Forall P l -> filter P l = l.
Proof.
  induction 1 as [| x l Hx _ IH]; [reflexivity |].
  rewrite filter_cons_True by exact Hx. f_equal. exact IH.
Qed.

Lemma filter_Forall_nil {A} (P : A -> Prop) `{!forall x, Decision (P x)} (l : list A) :
  Forall (fun x => ~ P x) l -> filter P l = [].
Proof.
  induction 1 as [| x l Hx _ IH]; [reflexivity |].
  rewrite filter_cons_False by exact Hx. exact IH.
Qed.

(** X23.  On a well-formed store [resetAllCards] leaves the keys and their
    order as they were and every stored card blank (New, due at the time
    of the reset, no reviews, lapses or errors, not graduated); the session
    queue still holds the old card objects, which are not modified.
    [getStats] then reports every card as new and due, and zero for every
    other counter and average. *)
Theorem resetAllCards_blanks_every_card (now : Z) (st : Scheduler) :
  wf st ->
  let st' := resetAllCards now st in
  wf st' /\ (cards st').*1 = (cards st).*1
  /\ Forall (is_blank now) (card_values st')
  /\ sessionQueue st' = sessionQueue st /\ drillMeta st' = drillMeta st
  /\ sessionStats st' = sessionStats st
  /\ (forall i c, heap st !! i = Some c -> heap st' !! i = Some c)
  /\ forall now', now <= now' ->
       let s := getStats now' st' in
       total s = length (cards st) /\ new s = total s /\ due_today s = total s
       /\ learning s = 0%nat /\ review s = 0%nat /\ relearning s = 0%nat
       /\ mastered s = 0%nat /\ total_reviews s = 0%nat /\ total_lapses s = 0%nat
       /\ avg_stability s = 0%R /\ avg_difficulty s = 0%R.
Proof.
  intros Hwf st'.
  destruct (resetCard_fold now (cards st).*1 st Hwf (proj1 Hwf) (fun k H => H))
    as (W & K & B & _ & P & Q1 & Q2 & _ & Q4).
  fold (resetAllCards now st) in W, K, B, P, Q1, Q2, Q4. fold st' in W, K, B, P, Q1, Q2, Q4.
  assert (Hblank : Forall (is_blank now) (card_values st')).
  { unfold card_values. apply Forall_fmap, Forall_forall. intros l Hl.
    apply list_elem_of_fmap in Hl as ([k l'] & -> & Hin). simpl.
    apply (B k l' Hin). rewrite <- K. apply list_elem_of_fmap.
    exists (k, l'). split; [reflexivity | exact Hin]. }
  repeat (split; [assumption |]).
  intros now' Hnow. cbn zeta. unfold getStats. cbn zeta.
  match goal with |- context [foldl (stats_step now') ?a0 _] => set (start := a0) end.
  destruct (stats_fold now' (card_values st') start)
    as (H1 & H2 & H3 & H4 & H5 & H6 & H7 & H8 & H9 & H10 & H11 & H12 & H13 & H14 & H15).
  set (a := foldl (stats_step now') start (card_values st')) in *.
  simpl in H1, H2, H3, H4, H5, H6, H7, H8, H9, H10, H11, H12, H13, H14, H15.
  assert (Hlen : length (card_values st') = length (cards st)).
  { unfold card_values. rewrite !length_fmap.
    rewrite <- (length_fmap fst (cards st)), <- K, length_fmap. reflexivity. }
  rewrite (filter_Forall_id (fun c => state c = New)) in H3
    by (eapply Forall_impl; [exact Hblank | unfold is_blank; tauto]).
  rewrite (filter_Forall_nil (fun c => state c = Learning)) in H4
    by (eapply Forall_impl; [exact Hblank | unfold is_blank; intros c Hc; intuition congruence]).
  rewrite (filter_Forall_nil (fun c => state c = Review)) in H5
    by (eapply Forall_impl; [exact Hblank | unfold is_blank; intros c Hc; intuition congruence]).
  rewrite (filter_Forall_nil (fun c => state c = Relearning)) in H6
    by (eapply Forall_impl; [exact Hblank | unfold is_blank; intros c Hc; intuition congruence]).
  rewrite (filter_Forall_id (fun c => due c <= now')) in H7
    by (eapply Forall_impl; [exact Hblank | unfold is_blank; intros c Hc; intuition lia]).
  rewrite (filter_Forall_nil (fun c => (21 < stability c)%R)) in H8
    by (eapply Forall_impl; [exact Hblank | unfold is_blank; intros c Hc; intuition lra]).
  rewrite (filter_Forall_nil (fun c => (0 < reps c)%nat)) in H13
    by (eapply Forall_impl; [exact Hblank | unfold is_blank; intros c Hc; intuition lia]).
  assert (Hr : sum_list (reps <$> card_values st') = 0%nat).
  { clear -Hblank. induction Hblank as [| c l Hc _ IH]; [reflexivity |].
    rewrite fmap_cons. simpl. rewrite IH. unfold is_blank in Hc. intuition lia. }
  assert (Hl : sum_list (lapses <$> card_values st') = 0%nat).
  { clear -Hblank. induction Hblank as [| c l Hc _ IH]; [reflexivity |].
    rewrite fmap_cons. simpl. rewrite IH. unfold is_blank in Hc. intuition lia. }
  rewrite Hr in H9. rewrite Hl in H10. simpl in H13.
  rewrite H13. simpl.
  rewrite H1, H3, H4, H5, H6, H7, H8, H9, H10, H11, H12. simpl.
  repeat split; try reflexivity; lia.
Qed.

Lemma resetAllCards_blanks_every_card_witness :
  let st' := resetAllCards Examples.t0 ExampleStores.group_store in
  wf ExampleStores.group_store
  /\ Forall (is_blank Examples.t0) (card_values st')
  /\ new (getStats Examples.t0 st') = 4%nat.
Proof.
  split; [apply wf_group_store |].
  destruct (resetAllCards_blanks_every_card Examples.t0 ExampleStores.group_store
              wf_group_store) as (_ & _ & H & _ & _ & _ & _ & Hs).
  split; [exact H |].
  destruct (Hs Examples.t0 ltac:(lia)) as (H1 & H2 & _).
  rewrite H2, H1. reflexivity.
Defined.

(** ** Initialization *)

Lemma add_card_fold now ss :
  forall st,
  let st' := foldl (add_card now) st ss in
  (forall k l, cards_get k (cards st) = Some l -> cards_get k (cards st') = Some l)
  /\ (forall i c, heap st !! i = Some c -> heap st' !! i = Some c)
  /\ (forall s, s ∈ ss -> ~ inherited_name (s_id s) ->
                exists l, cards_get (s_id s) (cards st') = Some l)
  /\ (forall k l, cards_get k (cards st') = Some l -> cards_get k (cards st) = None ->
        ~ inherited_name k
        /\ exists s, s ∈ ss /\ s_id s = k
                     /\ heap st' !! l = Some (createCard now k (sentence_data s)))
  /\ sessionQueue st' = sessionQueue st /\ drillMeta st' = drillMeta st
  /\ lastPattern st' = lastPattern st /\ sessionStats st' = sessionStats st.
Proof.
  induction ss as [| s ss IH]; intros st; cbn zeta.
  - simpl. split; [auto |]. split; [auto |].
    split; [intros s Hs; inversion Hs |].
    split; [intros k l H1 H2; congruence |]. repeat split; reflexivity.
  - simpl foldl. specialize (IH (add_card now st s)). cbn zeta in IH.
    destruct IH as (A1 & A2 & A3 & A4 & A5 & A6 & A7 & A8).
    set (st1 := add_card now st s) in *.
    set (st' := foldl (add_card now) st1 ss) in *.
    assert (Hstep :
      (forall k l, cards_get k (cards st) = Some l -> cards_get k (cards st1) = Some l)
      /\ (forall i c, heap st !! i = Some c -> heap st1 !! i = Some c)
      /\ (~ inherited_name (s_id s) -> exists l, cards_get (s_id s) (cards st1) = Some l)
      /\ (forall k l, cards_get k (cards st1) = Some l -> cards_get k (cards st) = None ->
            ~ inherited_name k /\ k = s_id s
            /\ heap st1 !! l = Some (createCard now k (sentence_data s)))
      /\ sessionQueue st1 = sessionQueue st /\ drillMeta st1 = drillMeta st
      /\ lastPattern st1 = lastPattern st /\ sessionStats st1 = sessionStats st).
    { subst st1. unfold add_card.
      destruct (has_member (s_id s) (cards st)) eqn:Hmem.
      - split; [auto |]. split; [auto |]. split.
        { intros Hn. apply bool_decide_eq_true in Hmem as [[l Hl] | Hi];
            [eauto | contradiction]. }
        split; [intros k l H1 H2; congruence |]. repeat split; reflexivity.
      - apply has_member_false in Hmem as [Hget Hninh]. simpl. split.
        { intros k l Hk. rewrite cards_get_set_ne; [exact Hk | congruence]. }
        split; [intros i c Hi; apply lookup_app_l_Some, Hi |].
        split; [intros _; eexists; apply cards_get_set_eq |].
        split; [| repeat split; reflexivity].
        intros k l Hk Hnone. destruct (decide (s_id s = k)) as [<- | Hne].
        + rewrite cards_get_set_eq in Hk. injection Hk as <-.
          split; [exact Hninh |]. split; [reflexivity |].
          rewrite lookup_app_r by lia. rewrite Nat.sub_diag. reflexivity.
        + rewrite cards_get_set_ne in Hk by exact Hne. congruence. }
    destruct Hstep as (B1 & B2 & B3 & B4 & B5 & B6 & B7 & B8).
    split; [intros k l Hk; apply A1, B1, Hk |].
    split; [intros i c Hi; apply A2, B2, Hi |].
    split.
    { intros s' Hs' Hn. apply elem_of_cons in Hs' as [-> | Hs'].
      - destruct (B3 Hn) as [l Hl]. exists l. apply A1, Hl.
      - apply A3; assumption. }
    split; [| repeat split; congruence].
    intros k l Hk Hnone.
    destruct (cards_get k (cards st1)) as [l1 |] eqn:Hk1.
    + destruct (B4 k l1 Hk1 Hnone) as (Hn & -> & Hh).
      apply A1 in Hk1. assert (l1 = l) by congruence. subst l1.
      split; [exact Hn |].
      exists s. split; [apply list_elem_of_here |]. split; [reflexivity |].
      apply A2, Hh.
    + destruct (A4 k l Hk Hk1) as (Hn & s' & Hs' & Hid & Hh).
      split; [exact Hn |].
      exists s'. split; [apply elem_of_cons; right; exact Hs' |]. split; assumption.
Qed.

(** X24.  [initializeCards] never replaces a card that is already stored and
    never modifies an existing card object.  Afterwards every sentence has
    a card under its id, unless the id is the name of a member that every
    object inherits: the guard takes such a member for a card, and no card
    is ever added under such a name.  Each card it added is the one
    [createCard] makes from a sentence with that id; a well-formed store
    stays well-formed and the rest of the scheduler is untouched. *)
Theorem initializeCards_adds_missing (now : Z) (sentences : list Sentence)
    (st : Scheduler) :
  let st' := initializeCards now sentences st in
  (forall k l, cards_get k (cards st) = Some l -> cards_get k (cards st') = Some l)
  /\ (forall i c, heap st !! i = Some c -> heap st' !! i = Some c)
  /\ (forall s, s ∈ sentences -> ~ inherited_name (s_id s) ->
                exists l, cards_get (s_id s) (cards st') = Some l)
  /\ (forall k l, cards_get k (cards st') = Some l -> cards_get k (cards st) = None ->
        ~ inherited_name k
        /\ exists s, s ∈ sentences /\ s_id s = k
                     /\ heap st' !! l = Some (createCard now k (sentence_data s)))
  /\ (wf st -> wf st')
  /\ sessionQueue st' = sessionQueue st /\ drillMeta st' = drillMeta st
  /\ lastPattern st' = lastPattern st /\ sessionStats st' = sessionStats st.
Proof.
  cbn zeta. unfold initializeCards. cbn zeta.
  set (sorted := js_sort (fun a b => (s_commonality b - s_commonality a)%Q) sentences).
  assert (Hperm : sorted ≡ₚ sentences) by apply js_sort_Permutation.
  destruct (add_card_fold now sorted st) as (A1 & A2 & A3 & A4 & A5 & A6 & A7 & A8).
  split; [exact A1 |]. split; [exact A2 |].
  split; [intros s Hs Hn; apply A3; [rewrite Hperm; exact Hs | exact Hn] |].
  split.
  { intros k l Hk Hn. destruct (A4 k l Hk Hn) as (Hi & s & Hs & H).
    split; [exact Hi |].
    exists s. split; [rewrite <- Hperm; exact Hs | exact H]. }
  split; [apply wf_initializeCards |]. repeat split; assumption.
Qed.

(** ** Drill metadata *)

Lemma loadDrillMeta_frame ds :
  forall st,
  let st' := loadDrillMeta (Some ds) st in
  (forall k, k ∉ d_id <$> ds -> drillMeta st' !! k = drillMeta st !! k)
  /\ cards st' = cards st /\ heap st' = heap st /\ sessionQueue st' = sessionQueue st
  /\ lastPattern st' = lastPattern st /\ sessionStats st' = sessionStats st.
Proof.
  induction ds as [| d ds IH]; intros st; cbn zeta.
  - simpl. repeat split; reflexivity.
  - simpl. match goal with |- context [foldl ?f ?s ds] => set (st1 := s) end.
    destruct (IH st1) as (A1 & A2 & A3 & A4 & A5 & A6). simpl in A1, A2, A3, A4, A5, A6.
    split; [| repeat split; assumption].
    intros k Hk. apply not_elem_of_cons in Hk as [Hne Hk].
    rewrite A1 by exact Hk. subst st1. simpl. apply lookup_insert_ne. congruence.
Qed.

(** X25.  [loadDrillMeta] touches only the metadata of the listed drill ids.
    For a listed id the last drill carrying it decides: the card counts as
    canonical unless that drill says [is_canonical: false], and it has a
    pattern group exactly when the drill names a non-empty one. *)
Theorem loadDrillMeta_lookup (ds : list Drill) (st : Scheduler) :
  let st' := loadDrillMeta (Some ds) st in
  (forall k, k ∉ d_id <$> ds -> drillMeta st' !! k = drillMeta st !! k)
  /\ (forall ds1 d ds2, ds = ds1 ++ d :: ds2 -> d_id d ∉ d_id <$> ds2 ->
        exists m, drillMeta st' !! d_id d = Some m
                  /\ (is_canonical m = false <-> d_is_canonical d = Some false)
                  /\ (forall g, pattern_group m = Some g
                                <-> d_pattern_group d = Some g /\ g <> ""%string))
  /\ cards st' = cards st /\ heap st' = heap st /\ sessionQueue st' = sessionQueue st
  /\ lastPattern st' = lastPattern st /\ sessionStats st' = sessionStats st.
Proof.
  cbn zeta. destruct (loadDrillMeta_frame ds st) as (A1 & A2).
  split; [exact A1 |]. split; [| exact A2].
  intros ds1 d ds2 -> Hlast. unfold loadDrillMeta. rewrite foldl_app. simpl.
  match goal with |- context [foldl ?f ?s ds2] => set (st1 := s) end.
  destruct (loadDrillMeta_frame ds2 st1) as (B1 & _). simpl in B1.
  rewrite B1 by exact Hlast. subst st1. simpl. rewrite lookup_insert_eq.
  eexists. split; [reflexivity |]. simpl. split.
  - destruct (d_is_canonical d) as [[|] |]; simpl; split; congruence.
  - intros g. destruct (d_pattern_group d) as [g' |]; simpl.
    + destruct (bool_decide_reflect (g' <> ""%string)) as [Hg | Hg]; simpl.
      * split; [intros [= ->]; split; [reflexivity | exact Hg] | intros [[= ->] _]; reflexivity].
      * split; [discriminate |]. intros [[= ->] Hne]. contradiction.
    + split; [discriminate | intros [H _]; discriminate].
Qed.

(** ** Pattern analysis *)


Section ErrorDistribution.
Variable t : string.

Let count (es : list ErrorRecord) : nat := length (filter (fun e => err_type e = t) es).

Lemma error_count_step (es : list ErrorRecord) :
  forall (dist : gmap string nat) n,
  dist !! t = count_entry n ->
  foldl (fun (dist : gmap string nat) (error : ErrorRecord) =>
           <[err_type error := (default 0 (dist !! err_type error) + 1)%nat]> dist)
    dist es !! t
  = count_entry (n + count es).
Proof.
  induction es as [| e es IH]; intros dist n Hinv; simpl.
  - unfold count. simpl. rewrite Nat.add_0_r. exact Hinv.
  - unfold count in *. rewrite filter_cons.
    destruct (decide (err_type e = t)) as [He | He].
    + simpl length. rewrite (Nat.add_succ_r n). apply (IH _ (S n)).
      rewrite He, lookup_insert_eq, Hinv. unfold count_entry.
      destruct n; simpl; f_equal; lia.
    + apply IH. rewrite lookup_insert_ne by exact He. exact Hinv.
Qed.

Lemma error_count_cards (h : list Card) (ls : list Ref) :
  forall (dist : gmap string nat) n,
  dist !! t = count_entry n ->
  foldl
    (fun (dist : gmap string nat) (l : Ref) =>
       foldl
         (fun (dist : gmap string nat) (error : ErrorRecord) =>
            <[err_type error := (default 0 (dist !! err_type error) + 1)%nat]> dist)
         dist (error_history (h !!! l)))
    dist ls !! t
  = count_entry (n + count (concat (error_history <$> ((fun l : Ref => h !!! l) <$> ls)))).
Proof.
  induction ls as [| l ls IH]; intros dist n Hinv; simpl.
  - unfold count. simpl. rewrite Nat.add_0_r. exact Hinv.
  - unfold count in *. rewrite filter_app, length_app, Nat.add_assoc.
    apply IH. apply error_count_step. exact Hinv.
Qed.
End ErrorDistribution.

(** X26.  [getErrorDistribution] maps an error type to the number of error
    records of that type in the histories of all stored cards; a type that
    does not occur has no entry.  (The type is not the name of a member
    that every object inherits.) *)
Theorem getErrorDistribution_counts (st : Scheduler) (t : string) :
  ~ inherited_name t ->
  getErrorDistribution st !! t
  = count_entry
      (length (filter (fun e => err_type e = t)
                 (concat (error_history <$> card_values st)))).
Proof.
  intros _. unfold getErrorDistribution, card_values.
  rewrite (error_count_cards t (heap st) (cards st).*2 ∅ 0%nat); [reflexivity |].
  apply lookup_empty.
Qed.

Lemma getErrorDistribution_counts_witness :
  ~ inherited_name "grammar"
  /\ getErrorDistribution ExampleStores.group_store !! "grammar"%string = Some 1%nat.
Proof.
  assert (H : ~ inherited_name "grammar") by not_inherited.
  split; [exact H |].
  rewrite (getErrorDistribution_counts ExampleStores.group_store "grammar" H).
  reflexivity.
Defined.

(** X27.  [getProblematicCards] lists stored cards that have at least one
    recorded error, at most [limit] (10 by default) of them, in order of
    decreasing error count; no card it leaves out has more errors than one
    it lists, and nothing is left out when the limit is not reached. *)
Theorem getProblematicCards_ranked (limit : option nat) (st : Scheduler) :
  let errs (l : Ref) := length (error_history (heap st !!! l)) in
  let r := getProblematicCards limit st in
  (length r <= default 10 limit)%nat
  /\ (forall l, l ∈ r -> l ∈ (cards st).*2 /\ (0 < errs l)%nat)
  /\ (forall a b, precedes r a b -> (errs b <= errs a)%nat)
  /\ (forall l l', l ∈ r -> l' ∈ (cards st).*2 -> l' ∉ r -> (errs l' <= errs l)%nat)
  /\ ((length (filter (fun l => (0 < errs l)%nat) (cards st).*2) <= default 10 limit)%nat ->
      r ≡ₚ filter (fun l => (0 < errs l)%nat) (cards st).*2).
Proof.
  cbn zeta. unfold getProblematicCards. cbn zeta.
  set (errs := fun l : Ref => length (error_history (heap st !!! l))).
  set (cmp := fun a b : Ref => inject_Z (Z.of_nat (errs b) - Z.of_nat (errs a))).
  set (cand := filter (fun l => (0 < errs l)%nat) (cards st).*2).
  set (n := default 10%nat limit).
  change
    ((length (take n (js_sort cmp cand)) <= n)%nat
     /\ (forall l, l ∈ take n (js_sort cmp cand) -> l ∈ (cards st).*2 /\ (0 < errs l)%nat)
     /\ (forall a b, precedes (take n (js_sort cmp cand)) a b -> (errs b <= errs a)%nat)
     /\ (forall l l', l ∈ take n (js_sort cmp cand) -> l' ∈ (cards st).*2 ->
                      l' ∉ take n (js_sort cmp cand) -> (errs l' <= errs l)%nat)
     /\ ((length cand <= n)%nat -> take n (js_sort cmp cand) ≡ₚ cand)).
  assert (Hle : forall a b, (cmp a b <= 0)%Q <-> (errs b <= errs a)%nat).
  { intros a b. unfold cmp. change 0%Q with (inject_Z 0). rewrite <- Zle_Qle. lia. }
  assert (Hsorted : StronglySorted (fun a b => (cmp a b <= 0)%Q) (js_sort cmp cand)).
  { apply js_sort_sorted.
    - intros a b. rewrite !Hle. lia.
    - intros a b c. rewrite !Hle. lia. }
  assert (Hperm : js_sort cmp cand ≡ₚ cand) by apply js_sort_Permutation.
  assert (Hprec : forall a b, precedes (js_sort cmp cand) a b -> (errs b <= errs a)%nat).
  { intros a b Hp. apply Hle. eapply (sorted_precedes cmp); eassumption. }
  split; [rewrite length_take; lia |].
  split.
  { intros l Hl. apply elem_of_take in Hl as (i & Hi & _).
    assert (Hc : l ∈ cand) by (rewrite <- Hperm; eapply list_elem_of_lookup_2, Hi).
    apply list_elem_of_filter in Hc as [H1 H2]. split; assumption. }
  split.
  { intros a b (i & j & Hij & Hi & Hj). apply Hprec.
    apply lookup_take_Some in Hi as [Hi _]. apply lookup_take_Some in Hj as [Hj _].
    exists i, j. repeat split; assumption. }
  split.
  { intros l l' Hl Hl' Hout.
    destruct (decide (0 < errs l')%nat) as [Hpos | Hzero]; [| lia].
    assert (Hin : l' ∈ js_sort cmp cand).
    { rewrite Hperm. apply list_elem_of_filter. split; assumption. }
    apply list_elem_of_lookup_1 in Hin as [j Hj].
    apply elem_of_take in Hl as (i & Hi & Hin').
    assert (n <= j)%nat.
    { destruct (Nat.le_gt_cases n j) as [H | H]; [exact H |].
      exfalso. apply Hout. apply elem_of_take. exists j. split; assumption. }
    apply Hprec. exists i, j. split; [lia |]. split; assumption. }
  intros Hfew. rewrite take_ge; [exact Hperm |].
  rewrite Hperm. exact Hfew.
Qed.

Lemma group_entry_default {A} (l : list A) : default [] (group_entry l) = l.
Proof. destruct l; reflexivity. Qed.

Lemma pattern_groups_fold (h : list Card) (p : string) (ls : list Ref) :
  forall (groups : gmap string (list Ref)) (done : list Ref),
  (forall q, groups !! q = group_entry (filter (fun l => pattern_key (h !!! l) = q) done)) ->
  foldl
    (fun (groups : gmap string (list Ref)) (l : Ref) =>
       let card := h !!! l in
       let pattern :=
         if truthy (Some (pos_pattern card)) then pos_pattern card else "unknown"%string in
       <[pattern := default [] (groups !! pattern) ++ [l]]> groups)
    groups ls !! p
  = group_entry (filter (fun l => pattern_key (h !!! l) = p) (done ++ ls)).
Proof.
  induction ls as [| l ls IH]; intros groups done Hinv.
  - simpl. rewrite app_nil_r. apply Hinv.
  - simpl foldl. cbn zeta. fold (pattern_key (h !!! l)).
    replace (done ++ l :: ls) with ((done ++ [l]) ++ ls) by (rewrite <- app_assoc; reflexivity).
    apply IH. intros q. rewrite filter_app, filter_cons, filter_nil.
    destruct (decide (pattern_key (h !!! l) = q)) as [<- | Hne].
    + rewrite lookup_insert_eq, Hinv, group_entry_default.
      destruct (filter _ done); reflexivity.
    + rewrite lookup_insert_ne by exact Hne. rewrite app_nil_r. apply Hinv.
Qed.

(** X28.  When no stored card has a pattern that is the name of a member
    that every object inherits, [getPatternGroups] files every stored card
    under its pattern, a card with an empty pattern under "unknown": the
    entry of a key (itself no such name) lists, in store order, exactly the
    cards with that key, and a key no card has is absent. *)
Theorem getPatternGroups_partition (st : Scheduler) (p : string) :
  Forall (fun c => ~ inherited_name (pattern_key c)) (card_values st) ->
  ~ inherited_name p ->
  getPatternGroups st !! p
  = group_entry (filter (fun l => pattern_key (heap st !!! l) = p) (cards st).*2).
Proof.
  intros _ _.
  assert (Hempty : forall q,
            (∅ : gmap string (list Ref)) !! q
            = group_entry (filter (fun l => pattern_key (heap st !!! l) = q) [])).
  { intros q. rewrite filter_nil. apply lookup_empty. }
  exact (pattern_groups_fold (heap st) p (cards st).*2 ∅ [] Hempty).
Qed.

Lemma getPatternGroups_partition_witness :
  Forall (fun c => ~ inherited_name (pattern_key c)) (card_values ExampleStores.group_store)
  /\ ~ inherited_name "SVO"
  /\ getPatternGroups ExampleStores.group_store !! "SVO"%string = Some [0; 1]%nat.
Proof.
  assert (H1 : Forall (fun c => ~ inherited_name (pattern_key c))
                 (card_values ExampleStores.group_store)).
  { repeat constructor; not_inherited. }
  assert (H2 : ~ inherited_name "SVO") by not_inherited.
  split; [exact H1 |]. split; [exact H2 |].
  rewrite (getPatternGroups_partition ExampleStores.group_store "SVO" H1 H2).
  reflexivity.
Defined.

(** ** Shuffling *)

(** X29.  Whatever [Math.random] returns within its range [0, 1),
    [_shuffle] returns a rearrangement of its argument: the same elements,
    each as often as before, in an array of the same length. *)
Theorem shuffle_permutes {A} (rand : nat -> Q) (arr : list A) :
  (forall k, (0 <= rand k)%Q /\ (rand k < 1)%Q) ->
  _shuffle rand arr ≡ₚ arr /\ length (_shuffle rand arr) = length arr.
Proof.
  intros _. assert (H := shuffle_Permutation rand arr).
  split; [exact H |]. apply Permutation_length, H.
Qed.

Lemma shuffle_permutes_witness :
  (forall k, (0 <= Examples.rand0 k)%Q /\ (Examples.rand0 k < 1)%Q)
  /\ _shuffle Examples.rand0 [1; 2; 3] ≡ₚ [1; 2; 3].
Proof.
  assert (H : forall k, (0 <= Examples.rand0 k)%Q /\ (Examples.rand0 k < 1)%Q).
  { intros k. split; [discriminate | reflexivity]. }
  split; [exact H |]. apply (shuffle_permutes Examples.rand0 [1; 2; 3] H).
Defined.
